(** * depsonar: dependency-health pipeline, shallow embedding and properties

    The development follows the TypeScript sources
      - the background checker ([main], imported by the dashboard as
        [./checker.js]): scan of all projects, health score, cache write;
      - [services/changelog.ts]: update-type classification;
      - [services/osv.ts]: OSV batch client and live audits, and, in its
        second half, the documentation aggregator ([fetchLibraryDocs]);
      - [services/migrate.ts]: migration pattern engine.

    JavaScript values are modelled as follows.
      - A string is a [string]: a sequence of code units, here restricted to
        the range U+0000..U+00FF.
      - A [number] is a double: a finite double is represented by its exact
        rational value, next to [NaN] and the two infinities.  Comparisons of
        doubles are exact, so comparing the rational values is faithful.
        Counts and line numbers, which are small non-negative integers, are
        [nat] or [Z].
      - An optional or nullable value is an [option].
      - An object used as a dictionary is a [gmap], a [Set] is a [gset], an
        array is a [list]; a loop that pushes to an array is a recursion
        that appends to an accumulator.  Where a table is read with a key
        that can be any string, the names it inherits from
        [Object.prototype] are part of the model.
      - Paths are strings, joined and normalised as the POSIX [path]
        module does.
      - The file system, the network, the clock and the helpers that are
        not part of these sources are oracles passed as Section variables;
        a call that can throw returns an [option] or a sum, and a [catch]
        is the branch taken on [None].

    The first part holds the definitions, module by module, and the
    concrete inputs used as examples; the second part holds the
    properties. *)

From Stdlib Require Import ZArith QArith Lqa Ascii String.
From stdpp Require Import base tactics option list strings gmap pretty sorting.

Local Open Scope Z_scope.

(** ** JavaScript primitives *)

Module JS.

(** *** Numbers *)

Inductive number : Type :=
| Num (q : Q)
| NaN
| PosInf
| NegInf.

Definition ofZ (z : Z) : number := Num (inject_Z z).

(** [ToBoolean] on a number: [0], [-0] and [NaN] are falsy. *)
Definition truthy (x : number) : bool :=
  match x with
  | Num q => negb (Qeq_bool q 0)
  | NaN => false
  | PosInf | NegInf => true
  end.

(** [a >= b]: false as soon as one side is [NaN]. *)
Definition ge (a b : number) : bool :=
  match a, b with
  | NaN, _ | _, NaN => false
  | PosInf, _ => true
  | _, NegInf => true
  | NegInf, _ => false
  | _, PosInf => false
  | Num x, Num y => Qle_bool y x
  end.

(** [a > b]. *)
Definition gt (a b : number) : bool :=
  match a, b with
  | NaN, _ | _, NaN => false
  | PosInf, PosInf => false
  | PosInf, _ => true
  | NegInf, _ => false
  | Num _, NegInf => true
  | Num _, PosInf => false
  | Num x, Num y => negb (Qle_bool x y)
  end.

(** [x || 0] for [x : number | undefined]. *)
Definition orZero (x : option number) : number :=
  match x with
  | Some n => if truthy n then n else ofZ 0
  | None => ofZ 0
  end.

(** *** Strings *)

(** [s.length] *)
Definition length (s : string) : nat := String.length s.

(** [!s] is true exactly for the empty string. *)
Definition falsy_str (s : string) : bool :=
  match s with EmptyString => true | _ => false end.

(** [s || d] for strings. *)
Definition or_str (s d : string) : string :=
  if falsy_str s then d else s.

(** [o || d] for [o : string | undefined]. *)
Definition opt_or_str (o : option string) (d : string) : string :=
  match o with Some s => or_str s d | None => d end.

(** [s.startsWith(p)] *)
Fixpoint startsWith (s p : string) : bool :=
  match p, s with
  | EmptyString, _ => true
  | String _ _, EmptyString => false
  | String b p', String a s' => if Ascii.eqb a b then startsWith s' p' else false
  end.

(** [s.includes(p)] *)
Fixpoint includes (s p : string) : bool :=
  startsWith s p ||
  match s with
  | EmptyString => false
  | String _ s' => includes s' p
  end.

(** The line feed, as a character and as the string ["\n"]. *)
Definition LF : ascii := ascii_of_nat 10.
Definition nl : string := String LF EmptyString.

(** [s.split(c)] for a one-character separator [c]. *)
Fixpoint split_go (c : ascii) (cur : string) (s : string) : list string :=
  match s with
  | EmptyString => [String.rev cur]
  | String a s' =>
      if Ascii.eqb a c then String.rev cur :: split_go c EmptyString s'
      else split_go c (String a cur) s'
  end.
Definition split (c : ascii) (s : string) : list string :=
  split_go c EmptyString s.

(** [a.join(sep)] *)
Fixpoint join (sep : string) (l : list string) : string :=
  match l with
  | [] => EmptyString
  | [x] => x
  | x :: rest => x +:+ sep +:+ join sep rest
  end.

(** [\s] on the modelled code units: TAB, LF, VT, FF, CR, SP and NBSP. *)
Definition is_space (a : ascii) : bool :=
  Ascii.is_space a || Ascii.eqb a (ascii_of_nat 160).

(** [s.split(/\s+/)]: the separators are the maximal runs of white space. *)
Fixpoint split_ws_go (cur : string) (in_sep : bool) (s : string) : list string :=
  match s with
  | EmptyString => [String.rev cur]
  | String a s' =>
      if is_space a then
        if in_sep then split_ws_go cur true s'
        else String.rev cur :: split_ws_go EmptyString true s'
      else split_ws_go (String a cur) false s'
  end.
Definition split_ws (s : string) : list string :=
  split_ws_go EmptyString false s.

(** [toLowerCase] on one code unit: A-Z and the Latin-1 capitals
    U+00C0..U+00DE, the multiplication sign U+00D7 excepted. *)
Definition lower_ascii (a : ascii) : ascii :=
  let n := nat_of_ascii a in
  if ((65 <=? n)%nat && (n <=? 90)%nat)
     || ((192 <=? n)%nat && (n <=? 222)%nat && negb (n =? 215)%nat)
  then ascii_of_nat (n + 32) else a.

Fixpoint toLowerCase (s : string) : string :=
  match s with
  | EmptyString => EmptyString
  | String a s' => String (lower_ascii a) (toLowerCase s')
  end.

(** [s.replace(pat, rep)] with a string pattern: the first occurrence
    only. *)
Fixpoint drop_str (n : nat) (s : string) : string :=
  match n, s with
  | O, _ => s
  | S n', String _ s' => drop_str n' s'
  | S _, EmptyString => EmptyString
  end.

Fixpoint replace (s pat rep : string) : string :=
  if startsWith s pat then rep +:+ drop_str (String.length pat) s
  else match s with
       | EmptyString => EmptyString
       | String a s' => String a (replace s' pat rep)
       end.

(** Decimal rendering of a non-negative integer, as template literals
    do. *)
Definition show_nat (n : nat) : string := pretty n.

End JS.

(** ** Background checker ([main] of the checker script) *)

Module Checker.

Record ProjectInfo : Type := {
  info_name : string;
  info_path : string;
  info_language : string;
  info_framework : string;
}.

(** An entry of the object returned by [getOutdated]. *)
Record OutdatedPkg : Type := {
  current : string;
  wanted : string;
  latest : string;
}.

Record CacheEntry : Type := {
  project : string;
  path : string;
  language : string;
  framework : string;
  outdatedCount : Z;
  majorCount : Z;
  securityIssues : Z;
  score : Z;
  checkedAt : string;
}.

(** What one run of [main] does: the list handed to [writeCache] and the
    number of alerts of the closing log line. *)
Record Run : Type := {
  written : list CacheEntry;
  alerts : nat;
}.

(** The arithmetic of the score, lines 47-50 of [main]. *)
Definition healthScore (outdatedCount majorCount : Z) : Z :=
  let score := 100 in
  let score := score - Z.min (outdatedCount * 3) 40 in
  let score := score - majorCount * 10 in
  Z.max 0 (Z.min 100 score).

(** The same quantity as the specification words it. *)
Definition clamp (lo hi x : Z) : Z := Z.max lo (Z.min hi x).
Definition specScore (n m : Z) : Z :=
  clamp 0 100 (100 - Z.min (3 * n) 40 - 10 * m).

Section Main.

(** The helpers imported from [services/project.js] and the clock.
    [getOutdated] returns [None] when it throws. *)
Variable discoverProjects : list ProjectInfo.
Variable getOutdated : string -> ProjectInfo -> option (gmap string OutdatedPkg).
Variable isMajorUpdate : string -> string -> bool.
Variable now : nat -> string.

Definition countOutdated (outdated : gmap string OutdatedPkg) : Z :=
  Z.of_nat (size outdated).

Definition countMajor (outdated : gmap string OutdatedPkg) : Z :=
  Z.of_nat (List.length
    (filter (fun e : string * OutdatedPkg => isMajorUpdate (current e.2) (latest e.2) = true)
            (map_to_list outdated))).

(** The body of the [try] block for the [i]-th project; [None] when
    [getOutdated] throws and the [catch] only logs. *)
Definition scanProject (i : nat) (info : ProjectInfo) : option CacheEntry :=
  match getOutdated (info_path info) info with
  | None => None
  | Some outdated =>
      let outdatedCount := countOutdated outdated in
      let majorCount := countMajor outdated in
      Some {| project := info_name info;
              path := info_path info;
              language := info_language info;
              framework := info_framework info;
              outdatedCount := outdatedCount;
              majorCount := majorCount;
              securityIssues := 0;
              score := healthScore outdatedCount majorCount;
              checkedAt := now i |}
  end.

(** [for (const info of projects) { try { ... entries.push(...) } catch {} }] *)
Fixpoint scanLoop (i : nat) (projects : list ProjectInfo)
    (entries : list CacheEntry) : list CacheEntry :=
  match projects with
  | [] => entries
  | info :: rest =>
      scanLoop (S i) rest
        (match scanProject i info with
         | Some e => entries ++ [e]
         | None => entries
         end)
  end.

(** [main]; [None] when the process exits before anything is written. *)
Definition main : option Run :=
  let projects := discoverProjects in
  if (List.length projects =? 0)%nat then None
  else
    let entries := scanLoop 0 projects [] in
    Some {| written := entries;
            alerts := List.length (filter (fun e => 0 < outdatedCount e) entries) |}.

End Main.

End Checker.

(** ** Update-type classification ([services/changelog.ts]) *)

Module Changelog.

Inductive UpdateType : Type := Patch | Minor | Major.

Section GetUpdateType.

(** [Number(s)], the built-in string to number conversion. *)
Variable toNumber : string -> JS.number.

Definition getUpdateType (current latest : string) : UpdateType :=
  let c := map toNumber (JS.split "." current) in
  let l := map toNumber (JS.split "." latest) in
  if JS.gt (JS.orZero (l !! 0%nat)) (JS.orZero (c !! 0%nat)) then Major
  else if JS.gt (JS.orZero (l !! 1%nat)) (JS.orZero (c !! 1%nat)) then Minor
  else Patch.

End GetUpdateType.

(** Dotted numeric version strings and their order. *)

Definition is_digit (a : ascii) : bool :=
  match Ascii.is_nat a with Some _ => true | None => false end.

Fixpoint all_digits (s : string) : bool :=
  match s with
  | EmptyString => true
  | String a s' => is_digit a && all_digits s'
  end.

(** The value of a string of decimal digits. *)
Fixpoint decimal_go (acc : Z) (s : string) : Z :=
  match s with
  | EmptyString => acc
  | String a s' => decimal_go (10 * acc + Z.of_nat (default 0%nat (Ascii.is_nat a))) s'
  end.
Definition decimal (s : string) : Z := decimal_go 0 s.

Definition numeric_component (s : string) : bool :=
  negb (JS.falsy_str s) && all_digits s.

Definition dotted_numeric (s : string) : bool :=
  forallb numeric_component (JS.split "." s).

Definition components (s : string) : list Z :=
  map decimal (JS.split "." s).

(** Every component is below [2^53], the range in which a double holds an
    integer exactly. *)
Definition safe_components (s : string) : bool :=
  forallb (fun c => decimal c <? 2 ^ 53) (JS.split "." s).

(** The [k]-th component, a missing one counting as zero. *)
Definition component (v : list Z) (k : nat) : Z := default 0 (v !! k).

(** [latest] is strictly greater than [current], and [k] is the first
    component in which they differ. *)
Definition greater_at (current latest : list Z) (k : nat) : Prop :=
  (forall j, (j < k)%nat -> component current j = component latest j)
  /\ component current k < component latest k.

Definition version_lt (current latest : list Z) : Prop :=
  exists k, greater_at current latest k.

(** Classification by the first differing component, as the specification
    words it: major when the leading components differ, minor when they
    are equal and the second components differ, patch otherwise. *)
Definition classify (current latest : list Z) : UpdateType :=
  if negb (component current 0 =? component latest 0) then Major
  else if negb (component current 1 =? component latest 1) then Minor
  else Patch.

(** A [Number] that reads strings of decimal digits, the empty one as
    zero, and answers [NaN] elsewhere. *)
Definition toNumberDecimal (s : string) : JS.number :=
  if all_digits s then JS.ofZ (decimal s) else JS.NaN.

(** The double nearest to a non-negative integer, a tie going to the even
    significand.  An integer below [2^53] is a double; from there on the
    doubles around [n] are the multiples of [2^(log2 n - 52)], and what
    would reach [2^1024] is infinite. *)
Definition roundDouble (n : Z) : JS.number :=
  if n <? 2 ^ 53 then JS.ofZ n
  else
    let ulp := 2 ^ (Z.log2 n - 52) in
    let q := n / ulp in
    let r := n mod ulp in
    let q' := if 2 * r <? ulp then q
              else if ulp <? 2 * r then q + 1
              else if Z.even q then q else q + 1 in
    if 2 ^ 1024 <=? q' * ulp then JS.PosInf else JS.ofZ (q' * ulp).

(** The same [Number], with the rounding of doubles on the strings of
    decimal digits of any length. *)
Definition toNumberDouble (s : string) : JS.number :=
  if all_digits s then roundDouble (decimal s) else JS.NaN.

End Changelog.

(** ** OSV batch client ([services/osv.ts]) *)

Module Osv.

Inductive Severity : Type := Critical | High | Moderate | Low.

Record OsvVulnerability : Type := {
  id : string;
  summary : string;
  severity : Severity;
  package : string;
  ecosystem : string;
  affectedRange : string;
  fixedVersion : option string;
  url : string;
  published : string;
}.

Record LiveCveResult : Type := {
  project : string;
  vulnerabilities : list OsvVulnerability;
  packagesQueried : nat;
  source : string;
  queriedAt : string;
}.

Record Package : Type := {
  name : string;
  version : string;
}.

(** One entry of the [queries] array:
    [{ package: { name, ecosystem }, version }]. *)
Record Query : Type := {
  q_name : string;
  q_ecosystem : string;
  q_version : string;
}.

(** The JSON of an advisory, with the fields [queryOsv] reads.  Every
    field it reads through [?.] or [||] is optional. *)
Record SeverityEntry : Type := { sev_score : option JS.number }.
Record RangeEvent : Type := { ev_fixed : option string }.
Record Range : Type := { events : option (list RangeEvent) }.
Record Affected : Type := { ranges : option (list Range) }.
Record Reference : Type := { ref_url : option string }.

Record Advisory : Type := {
  adv_id : string;
  adv_summary : option string;
  adv_details : option string;
  adv_severity : option (list SeverityEntry);
  adv_affected : option (list Affected);
  adv_references : option (list Reference);
  adv_published : option string;
}.

(** One element of [data.results]. *)
Record ResultEntry : Type := { r_vulns : option (list Advisory) }.

(** The decoded body; [results] is [None] when the property is missing,
    in which case reading [data.results.length] throws. *)
Record BatchData : Type := { results : option (list ResultEntry) }.

(** What [await fetch(...)] followed by [resp.json()] can do. *)
Inductive FetchOutcome : Type :=
| FetchRejects                                   (* network error or 15 s timeout *)
| Response (ok : bool) (body : option BatchData) (* [body = None]: [json()] rejects *).

Definition ECOSYSTEM_MAP : gmap string string :=
  list_to_map
    [ ("node", "npm"); ("python", "PyPI"); ("rust", "crates.io"); ("go", "Go");
      ("php", "Packagist"); ("ruby", "RubyGems"); ("dart", "Pub") ].

(** [!score] for [score : number | undefined]. *)
Definition noScore (score : option JS.number) : bool :=
  match score with
  | None => true
  | Some s => negb (JS.truthy s)
  end.

Definition mapSeverity (score : option JS.number) : Severity :=
  if noScore score then Moderate
  else match score with
       | None => Moderate
       | Some s =>
           if JS.ge s (JS.ofZ 9) then Critical
           else if JS.ge s (JS.ofZ 7) then High
           else if JS.ge s (JS.ofZ 4) then Moderate
           else Low
       end.

(** [a.slice(i, j)] for [i <= j]. *)
Definition slice {A} (l : list A) (i j : nat) : list A :=
  take (j - i) (drop i l).

(** [vuln.severity?.[0]?.score] *)
Definition cvssScoreOf (vuln : Advisory) : option JS.number :=
  match adv_severity vuln with
  | Some (e :: _) => sev_score e
  | _ => None
  end.

(** [e.fixed] as a condition. *)
Definition hasFixed (e : RangeEvent) : bool :=
  match ev_fixed e with
  | Some s => negb (JS.falsy_str s)
  | None => false
  end.

(** [affected?.ranges?.[0]?.events?.find(e => e.fixed)] *)
Definition fixedRangeOf (vuln : Advisory) : option RangeEvent :=
  match adv_affected vuln with
  | Some (affected :: _) =>
      match ranges affected with
      | Some (r :: _) =>
          match events r with
          | Some evs => List.find hasFixed evs
          | None => None
          end
      | _ => None
      end
  | _ => None
  end.

(** [vuln.summary || vuln.details?.slice(0, 200) || "No description"] *)
Definition summaryOf (vuln : Advisory) : string :=
  match adv_summary vuln with
  | Some s =>
      if negb (JS.falsy_str s) then s
      else JS.opt_or_str
             (fmap (fun d => string_of_list_ascii (take 200 (list_ascii_of_string d)))
                   (adv_details vuln))
             "No description"
  | None =>
      JS.opt_or_str
        (fmap (fun d => string_of_list_ascii (take 200 (list_ascii_of_string d)))
              (adv_details vuln))
        "No description"
  end.

(** [vuln.references?.[0]?.url || `https://osv.dev/vulnerability/${vuln.id}`] *)
Definition urlOf (vuln : Advisory) : string :=
  let fallback := "https://osv.dev/vulnerability/" +:+ adv_id vuln in
  match adv_references vuln with
  | Some (r :: _) => JS.opt_or_str (ref_url r) fallback
  | _ => fallback
  end.

(** The object pushed for advisory [vuln] of package [pkg]. *)
Definition mkVulnerability (ecosystem : string) (pkg : Package) (vuln : Advisory)
    : OsvVulnerability :=
  let cvssScore := cvssScoreOf vuln in
  let fixedRange := fixedRangeOf vuln in
  {| id := adv_id vuln;
     summary := summaryOf vuln;
     severity := mapSeverity cvssScore;
     package := name pkg;
     ecosystem := ecosystem;
     affectedRange := version pkg +:+ " (installed)";
     fixedVersion :=
       match fixedRange with
       | Some e => match ev_fixed e with
                   | Some s => if JS.falsy_str s then None else Some s
                   | None => None
                   end
       | None => None
       end;
     url := urlOf vuln;
     published := JS.opt_or_str (adv_published vuln) "" |}.

(** The state [queryOsv] works on: the [vulns] array it pushes to, and the
    bodies of the requests sent so far, oldest first. *)
Record State : Type := {
  st_vulns : list OsvVulnerability;
  st_sent : list (list Query);
}.

Section Client.

(** The network: the answer to a request depends on its body and on how
    many requests were sent before it. *)
Variable fetch : nat -> list Query -> FetchOutcome.

Section QueryOsv.

Variable packages : list Package.
Variable ecosystem : string.

Definition queries : list Query :=
  map (fun p => {| q_name := name p; q_ecosystem := ecosystem; q_version := version p |})
      packages.

(** [for (const vuln of result.vulns) { ... vulns.push({...}) }] *)
Definition pushAll (pkg : Package) (advisories : list Advisory)
    (vulns : list OsvVulnerability) : list OsvVulnerability :=
  fold_left (fun acc vuln => acc ++ [mkVulnerability ecosystem pkg vuln]) advisories vulns.

(** [for (let j = 0; j < data.results.length; j++) { ... }] for the batch
    that starts at [i].  When [packages[i + j]] is undefined, reading
    [pkg.name] throws: the enclosing [catch] ends the batch, and what was
    pushed before stays. *)
Fixpoint resultsLoop (i j : nat) (rest : list ResultEntry)
    (vulns : list OsvVulnerability) : list OsvVulnerability :=
  match rest with
  | [] => vulns
  | result :: rest' =>
      match r_vulns result with
      | None | Some [] => resultsLoop i (S j) rest' vulns
      | Some advisories =>
          match packages !! (i + j)%nat with
          | None => vulns
          | Some pkg => resultsLoop i (S j) rest' (pushAll pkg advisories vulns)
          end
      end
  end.

(** The [try] block of one batch, after the request was answered. *)
Definition handleOutcome (i : nat) (outcome : FetchOutcome)
    (vulns : list OsvVulnerability) : list OsvVulnerability :=
  match outcome with
  | FetchRejects => vulns
  | Response false _ => vulns
  | Response true None => vulns
  | Response true (Some data) =>
      match results data with
      | None => vulns
      | Some rs => resultsLoop i 0 rs vulns
      end
  end.

(** [for (let i = 0; i < queries.length; i += 100) { ... }]; [fuel] bounds
    the number of iterations. *)
Fixpoint batchLoop (fuel : nat) (i : nat) (st : State) : State :=
  match fuel with
  | O => st
  | S fuel' =>
      if (i <? List.length queries)%nat then
        let batch := slice queries i (i + 100) in
        let outcome := fetch (List.length (st_sent st)) batch in
        batchLoop fuel' (i + 100)
          {| st_vulns := handleOutcome i outcome (st_vulns st);
             st_sent := st_sent st ++ [batch] |}
      else st
  end.

(** [queryOsv], started after the requests [sent]; the first component of
    the result is the returned array. *)
Definition queryOsvFrom (sent : list (list Query)) : State :=
  batchLoop (List.length queries) 0 {| st_vulns := []; st_sent := sent |}.

Definition queryOsv : list OsvVulnerability :=
  st_vulns (queryOsvFrom []).

(** The requests [queryOsv] sends. *)
Definition requestsOf : list (list Query) :=
  st_sent (queryOsvFrom []).

End QueryOsv.

(** The file-system side of [liveAuditProject] and the clock. *)
Variable getInstalledPackages : string -> string -> list Package.
Variable now : nat -> string.

(** [liveAuditProject], with the requests sent so far threaded through. *)
Definition liveAuditProject (sent : list (list Query))
    (projectPath projectName language : string)
    : LiveCveResult * list (list Query) :=
  match ECOSYSTEM_MAP !! language with
  | None =>
      ({| project := projectName; vulnerabilities := []; packagesQueried := 0;
          source := "osv.dev"; queriedAt := now (List.length sent) |}, sent)
  | Some ecosystem =>
      let packages := getInstalledPackages projectPath language in
      let st := queryOsvFrom packages ecosystem sent in
      ({| project := projectName; vulnerabilities := st_vulns st;
          packagesQueried := List.length packages;
          source := "osv.dev"; queriedAt := now (List.length (st_sent st)) |},
       st_sent st)
  end.

(** A project as [liveAuditAllProjects] receives it. *)
Record AuditTarget : Type := {
  t_name : string;
  t_path : string;
  t_language : string;
}.

(** [for (const p of projects) { ...; if (...length > 0) results.push(result) }] *)
Fixpoint auditLoop (sent : list (list Query)) (projects : list AuditTarget)
    (acc : list LiveCveResult) : list LiveCveResult :=
  match projects with
  | [] => acc
  | p :: rest =>
      let '(result, sent') := liveAuditProject sent (t_path p) (t_name p) (t_language p) in
      auditLoop sent' rest
        (if (0 <? List.length (vulnerabilities result))%nat then acc ++ [result] else acc)
  end.

Definition liveAuditAllProjects (projects : list AuditTarget) : list LiveCveResult :=
  auditLoop [] projects [].

(** Every audit the loop performs, kept or not, in order. *)
Fixpoint auditsFrom (sent : list (list Query)) (projects : list AuditTarget)
    : list LiveCveResult :=
  match projects with
  | [] => []
  | p :: rest =>
      let '(result, sent') := liveAuditProject sent (t_path p) (t_name p) (t_language p) in
      result :: auditsFrom sent' rest
  end.

End Client.

(** *** The contribution of one batch, read off the specification *)

(** Batch [k] of a list: its elements [100 k .. 100 k + 99]. *)
Definition batchOf {A} (l : list A) (k : nat) : list A :=
  take 100 (drop (100 * k) l).

Definition batchCount (n : nat) : nat := Nat.div (n + 99) 100.

(** A request that failed, timed out or was answered with a non-OK
    status. *)
Definition failed (outcome : FetchOutcome) : bool :=
  match outcome with
  | FetchRejects => true
  | Response ok _ => negb ok
  end.

(** The advisories of a result entry, none when [vulns] is missing. *)
Definition advisoriesOf (r : ResultEntry) : list Advisory := default [] (r_vulns r).

(** Positional attribution as the specification words it: the advisories
    at index [j] of the answer to batch [k] belong to the package at index
    [100 k + j] of the whole input. *)
Definition positional (packages : list Package) (ecosystem : string) (k : nat)
    (rs : list ResultEntry) : list OsvVulnerability :=
  concat (imap (fun j r =>
                  match packages !! (100 * k + j)%nat with
                  | Some pkg => map (mkVulnerability ecosystem pkg) (advisoriesOf r)
                  | None => []
                  end) rs).

(** The result entries of an answer that was received, OK and decoded. *)
Definition answerOf (outcome : FetchOutcome) : list ResultEntry :=
  match outcome with
  | Response true (Some data) => default [] (results data)
  | _ => []
  end.

(** What batch [k] adds to the result, started from an empty array. *)
Definition batchVulns (packages : list Package) (ecosystem : string) (k : nat)
    (outcome : FetchOutcome) : list OsvVulnerability :=
  handleOutcome packages ecosystem (100 * k) outcome [].

End Osv.

(** ** Documentation aggregator (second half of [services/osv.ts]) *)

Module Docs.

Record DocResult : Type := {
  package : string;
  version : string;
  description : string;
  repository : string;
  readme : string;
  changelog : string;
  migrationGuide : string;
  homepage : string;
}.

(** The decoded registry document, at its declared type
    [NpmRegistryData]; the fields are read through [?.] and [||], so each
    one may be missing. *)
Record NpmRegistryData : Type := {
  dist_tags_latest : option string;   (* npmJson["dist-tags"]?.latest *)
  npm_description : option string;
  npm_homepage : option string;
  repository_url : option string;     (* npmJson.repository?.url *)
  npm_readme : option string;
}.

Record Options : Type := {
  opt_readme : option bool;
  opt_changelog : option bool;
  opt_migration : option bool;
}.

(** What [fetchLibraryDocs] throws: its two errors, and the [TypeError]
    of [paths.map] in [fetchFirstFound] when [paths] is not an array. *)
Inductive Thrown : Type :=
| PackageNotFound (pkg : string)
| InvalidNpmData (pkg : string)
| MapIsNotAFunction.

(** What [fetch(url)] followed by [res.text()] can do. *)
Inductive HttpOutcome : Type :=
| HttpRejects                                    (* network error or abort by the timer *)
| HttpResponse (ok : bool) (text : option string) (* [text = None]: [text()] rejects *).

(** *** [extractGitHubRepo] *)

(** [s.replace(/^p/, r)] for a literal [p]. *)
Definition replacePrefix (s p r : string) : string :=
  if JS.startsWith s p then r +:+ JS.drop_str (String.length p) s else s.

(** [s.replace(/p$/, "")] for a literal [p]. *)
Definition stripSuffix (s p : string) : string :=
  if JS.startsWith (String.rev s) (String.rev p)
  then String.rev (JS.drop_str (String.length p) (String.rev s))
  else s.

(** The class [[\w.-]]. *)
Definition repoChar (a : ascii) : bool :=
  let n := nat_of_ascii a in
  ((48 <=? n) && (n <=? 57) || (65 <=? n) && (n <=? 90) || (97 <=? n) && (n <=? 122)
   || (n =? 95) || (n =? 46) || (n =? 45))%nat.

(** The longest prefix made of [repoChar], and what follows it. *)
Fixpoint spanRepo (s : string) : string * string :=
  match s with
  | EmptyString => (EmptyString, EmptyString)
  | String a s' =>
      if repoChar a then let '(p, r) := spanRepo s' in (String a p, r)
      else (EmptyString, s)
  end.

(** [/github\.com[/:]([\w.-]+)\/([\w.-]+)/] anchored at the start of [s]. *)
Definition matchRepoHere (s : string) : option (string * string) :=
  if JS.startsWith s "github.com" then
    match JS.drop_str 10 s with
    | String c r =>
        if Ascii.eqb c "/" || Ascii.eqb c ":" then
          let '(owner, r1) := spanRepo r in
          match owner, r1 with
          | String _ _, String c1 r2 =>
              if Ascii.eqb c1 "/" then
                let '(repo, _) := spanRepo r2 in
                match repo with
                | String _ _ => Some (owner, repo)
                | EmptyString => None
                end
              else None
          | _, _ => None
          end
        else None
    | EmptyString => None
    end
  else None.

(** The same pattern, at the leftmost position where it matches. *)
Fixpoint matchRepo (s : string) : option (string * string) :=
  match matchRepoHere s with
  | Some m => Some m
  | None =>
      match s with
      | EmptyString => None
      | String _ s' => matchRepo s'
      end
  end.

Definition extractGitHubRepo (repoUrl : string) : option (string * string) :=
  let cleaned :=
    replacePrefix
      (replacePrefix
         (stripSuffix (replacePrefix repoUrl "git+" "") ".git")
         "ssh://git@github.com/" "https://github.com/")
      "git://github.com/" "https://github.com/" in
  matchRepo cleaned.

(** *** Path tables *)

Definition getMonorepoPaths (baseName : string) (files : list string) : list string :=
  fold_left (fun paths f => paths ++ ["packages/" +:+ baseName +:+ "/" +:+ f]) files files.

Definition MIGRATION_PATHS : gmap string (list string) :=
  list_to_map
    [ ("svelte", [ "documentation/docs/07-misc/07-v5-migration-guide.md";
                   "packages/svelte/CHANGELOG.md" ]);
      ("@sveltejs/kit", [ "documentation/docs/25-build-and-deploy/99-migration-guide.md";
                          "packages/kit/CHANGELOG.md" ]);
      ("next", [ "docs/01-app/02-building-your-application/10-upgrading/01-version-15.mdx";
                 "docs/01-app/02-building-your-application/10-upgrading/02-version-14.mdx" ]);
      ("tailwindcss", [ "packages/tailwindcss/CHANGELOG.md"; "CHANGELOG.md" ]);
      ("vite", [ "packages/vite/CHANGELOG.md"; "CHANGELOG.md" ]);
      ("better-auth", [ "CHANGELOG.md" ]);
      ("@supabase/supabase-js", [ "CHANGELOG.md" ]);
      ("stripe", [ "CHANGELOG.md"; "UPGRADING.md" ]);
      ("react", [ "CHANGELOG.md" ]);
      ("vue", [ "CHANGELOG.md" ]);
      ("express", [ "History.md" ]) ].

(** The names every object literal inherits from [Object.prototype]:
    reading one of them from [MIGRATION_PATHS] gives a function, or the
    prototype itself, none of which is an array. *)
Definition PROTOTYPE_KEYS : list string :=
  [ "constructor"; "__proto__"; "hasOwnProperty"; "isPrototypeOf";
    "propertyIsEnumerable"; "toLocaleString"; "toString"; "valueOf";
    "__defineGetter__"; "__defineSetter__"; "__lookupGetter__"; "__lookupSetter__" ].

(** What [MIGRATION_PATHS[key]] is when it is not [undefined]: the paths
    of an entry of the table, or an inherited value. *)
Inductive TableValue : Type :=
| Paths (ps : list string)
| Inherited.

Definition lookupPaths (key : string) : option TableValue :=
  match MIGRATION_PATHS !! key with
  | Some ps => Some (Paths ps)
  | None => if bool_decide (key ∈ PROTOTYPE_KEYS) then Some Inherited else None
  end.

Definition README_FILES : list string := [ "README.md"; "readme.md"; "Readme.md" ].

Definition CHANGELOG_FILES : list string :=
  [ "CHANGELOG.md"; "changelog.md"; "CHANGES.md"; "HISTORY.md"; "History.md" ].

Definition MIGRATION_FILES : list string :=
  [ "MIGRATION.md"; "UPGRADING.md"; "UPGRADE.md"; "migration.md"; "upgrading.md";
    "docs/migration.md"; "docs/upgrading.md"; "docs/MIGRATION.md" ].

(** *** Text shaping *)

Definition truncateDoc (text : string) (maxLines : nat) : string :=
  let lines := JS.split JS.LF text in
  if (List.length lines <=? maxLines)%nat then text
  else JS.join JS.nl (take maxLines lines)
       +:+ JS.nl +:+ JS.nl +:+ "... (truncated, "
       +:+ JS.show_nat (List.length lines - maxLines) +:+ " more lines)".

(** [query.toLowerCase().split(/\s+/).filter(Boolean)] *)
Definition keywordsOf (query : string) : list string :=
  List.filter (fun kw => negb (JS.falsy_str kw)) (JS.split_ws (JS.toLowerCase query)).

(** [keywords.some(kw => lower.includes(kw))] for one line. *)
Definition lineMatches (keywords : list string) (line : string) : bool :=
  existsb (fun kw => JS.includes (JS.toLowerCase line) kw) keywords.

(** The [for] loop that fills [matchedLineNums]. *)
Fixpoint markLines (keywords : list string) (contextLines total : nat)
    (i : nat) (rest : list string) (matched : gset nat) : gset nat :=
  match rest with
  | [] => matched
  | line :: rest' =>
      let matched' :=
        if lineMatches keywords line then
          let lo := (i - contextLines)%nat in
          let hi := Nat.min (total - 1) (i + contextLines) in
          fold_left (fun m j => {[ j ]} ∪ m) (seq lo (S hi - lo)) matched
        else matched in
      markLines keywords contextLines total (S i) rest' matched'
  end.

(** The loop that emits the kept lines, with a gap marker before every
    run. *)
Fixpoint emitLines (lines : list string) (sorted : list nat) (lastLine : Z)
    (result : list string) : list string :=
  match sorted with
  | [] => result
  | n :: rest =>
      let result := if lastLine + 1 <? Z.of_nat n then result ++ [JS.nl +:+ "..." +:+ JS.nl]
                    else result in
      let result := result ++ [default EmptyString (lines !! n)] in
      emitLines lines rest (Z.of_nat n) result
  end.

Definition filterByQuery (text : string) (query : option string) (contextLines : nat)
    : string :=
  match query with
  | None => text
  | Some q =>
      if JS.falsy_str q || JS.falsy_str text then text
      else
        let lines := JS.split JS.LF text in
        let keywords := keywordsOf q in
        let matchedLineNums :=
          markLines keywords contextLines (List.length lines) 0 lines ∅ in
        if (size matchedLineNums =? 0)%nat then text
        else
          let sorted := merge_sort Nat.le (elements matchedLineNums) in
          JS.join JS.nl (emitLines lines sorted (-2) [])
  end.

(** [query ? filterByQuery(text, query) : text], then [truncateDoc]. *)
Definition shape (text : string) (query : option string) (maxLines : nat) : string :=
  truncateDoc
    (match query with
     | Some q => if JS.falsy_str q then text else filterByQuery text query 5
     | None => text
     end)
    maxLines.

Section Fetcher.

(** The network (the answer may depend on how many requests were sent
    before), [JSON.parse] at the type [NpmRegistryData], and
    [encodeURIComponent]. *)
Variable fetch : nat -> string -> HttpOutcome.
Variable parseNpmJson : string -> option NpmRegistryData.
Variable encodeURIComponent : string -> string.

(** [fetchUrl]: every failure becomes [null]. *)
Definition fetchUrl (n : nat) (url : string) : option string :=
  match fetch n url with
  | HttpRejects => None
  | HttpResponse false _ => None
  | HttpResponse true None => None
  | HttpResponse true (Some text) => Some text
  end.

Definition rawUrl (owner repo p : string) : string :=
  "https://raw.githubusercontent.com/" +:+ owner +:+ "/" +:+ repo +:+ "/HEAD/" +:+ p.

(** The test [r && r.length > 50]. *)
Definition longEnough (r : option string) : bool :=
  match r with
  | Some s => negb (JS.falsy_str s) && (50 <? JS.length s)%nat
  | None => false
  end.

(** [fetchFirstFound], started after [n] requests: all the paths are
    requested, then the first long enough answer in the order of [paths]
    is returned. *)
Definition fetchFirstFound (n : nat) (owner repo : string) (paths : list string)
    : string * nat :=
  let results := imap (fun i p => fetchUrl (n + i) (rawUrl owner repo p)) paths in
  (match List.find longEnough results with
   | Some (Some r) => r
   | _ => EmptyString
   end,
   (n + List.length paths)%nat).

(** [opts.x !== false] *)
Definition enabled (o : option bool) : bool :=
  match o with Some false => false | _ => true end.

(** [pkg.startsWith("@") ? pkg.split("/")[1] : pkg], rendered as a
    template literal renders it. *)
Definition baseNameOf (pkg : string) : string :=
  if JS.startsWith pkg "@" then default "undefined" (JS.split "/" pkg !! 1%nat)
  else pkg.

Definition registryUrl (pkg : string) : string :=
  "https://registry.npmjs.org/" +:+ encodeURIComponent pkg.

(** Step 3, the README. *)
Definition readmeStep (n : nat) (npmJson : NpmRegistryData)
    (gh : option (string * string)) (query : option string) : string * nat :=
  let readme := JS.opt_or_str (npm_readme npmJson) "" in
  let '(readme, n) :=
    match gh with
    | Some (owner, repo) =>
        if JS.falsy_str readme || (JS.length readme <? 100)%nat
        then fetchFirstFound n owner repo README_FILES
        else (readme, n)
    | None => (readme, n)
    end in
  (if JS.falsy_str readme then EmptyString else shape readme query 300, n).

(** Step 4, the changelog. *)
Definition changelogStep (n : nat) (pkg : string) (owner repo : string)
    (query : option string) : string * nat :=
  let baseName := baseNameOf pkg in
  let changelogPaths := getMonorepoPaths baseName CHANGELOG_FILES in
  let '(changelog, n) := fetchFirstFound n owner repo changelogPaths in
  (if JS.falsy_str changelog then EmptyString else shape changelog query 200, n).

(** [MIGRATION_PATHS[pkg] || MIGRATION_PATHS[baseName]]: arrays,
    functions and objects are all truthy. *)
Definition knownPathsOf (pkg : string) : option TableValue :=
  match lookupPaths pkg with
  | Some v => Some v
  | None => lookupPaths (baseNameOf pkg)
  end.

(** The generic part of step 5, entered when no guide was found at the
    known paths. *)
Definition genericStep (n : nat) (pkg : string) (owner repo : string)
    (query : option string) (migrationGuide : string) : string * nat :=
  if JS.falsy_str migrationGuide then
    let genericPaths := getMonorepoPaths (baseNameOf pkg) MIGRATION_FILES in
    let '(guide, n) := fetchFirstFound n owner repo genericPaths in
    (if JS.falsy_str guide then migrationGuide else shape guide query 300, n)
  else (migrationGuide, n).

(** Step 5, the migration guide; [None] when [fetchFirstFound] is given
    an inherited value for [paths] and [paths.map] throws. *)
Definition migrationStep (n : nat) (pkg : string) (owner repo : string)
    (query : option string) : option (string * nat) :=
  match knownPathsOf pkg with
  | Some Inherited => None
  | Some (Paths ps) =>
      let '(guide, n) := fetchFirstFound n owner repo ps in
      Some (genericStep n pkg owner repo query
              (if JS.falsy_str guide then EmptyString else shape guide query 300))
  | None => Some (genericStep n pkg owner repo query EmptyString)
  end.

Definition fetchLibraryDocs (pkg : string) (query : option string) (opts : Options)
    : Thrown + DocResult :=
  match fetchUrl 0 (registryUrl pkg) with
  | None => inl (PackageNotFound pkg)
  | Some npmData =>
      if JS.falsy_str npmData then inl (PackageNotFound pkg)
      else
        match parseNpmJson npmData with
        | None => inl (InvalidNpmData pkg)
        | Some npmJson =>
            let n := 1%nat in
            let repoUrl := JS.opt_or_str (repository_url npmJson) "" in
            let gh := extractGitHubRepo repoUrl in
            let '(readme, n) :=
              if enabled (opt_readme opts) then readmeStep n npmJson gh query
              else (EmptyString, n) in
            let '(changelog, n) :=
              match gh with
              | Some (owner, repo) =>
                  if enabled (opt_changelog opts) then changelogStep n pkg owner repo query
                  else (EmptyString, n)
              | None => (EmptyString, n)
              end in
            let migration :=
              match gh with
              | Some (owner, repo) =>
                  if enabled (opt_migration opts) then migrationStep n pkg owner repo query
                  else Some (EmptyString, n)
              | None => Some (EmptyString, n)
              end in
            match migration with
            | None => inl MapIsNotAFunction
            | Some (migrationGuide, n) =>
                inr {| package := pkg;
                       version := JS.opt_or_str (dist_tags_latest npmJson) "";
                       description := JS.opt_or_str (npm_description npmJson) "";
                       repository :=
                         match gh with
                         | Some (owner, repo) =>
                             "https://github.com/" +:+ owner +:+ "/" +:+ repo
                         | None => EmptyString
                         end;
                       readme := readme;
                       changelog := changelog;
                       migrationGuide := migrationGuide;
                       homepage := JS.opt_or_str (npm_homepage npmJson) "" |}
            end
        end
  end.

(** *** Notions used to state the error policy *)

(** A request that failed: rejected, aborted, answered with a non-OK
    status, or whose body could not be read. *)
Definition httpFailed (outcome : HttpOutcome) : bool :=
  match outcome with
  | HttpRejects => true
  | HttpResponse ok text => negb ok || match text with Some _ => false | None => true end
  end.

(** The registry request gave no usable data: it failed, or its body is
    empty or cannot be decoded. *)
Definition registryUnusable (pkg : string) : Prop :=
  httpFailed (fetch 0 (registryUrl pkg)) = true
  \/ exists body, fetch 0 (registryUrl pkg) = HttpResponse true (Some body)
                 /\ (body = EmptyString \/ parseNpmJson body = None).

(** The README field when nothing can be fetched from the repository:
    the copy embedded in the registry document, kept only when no
    repository fetch was attempted in its place. *)
Definition embeddedReadme (npmJson : NpmRegistryData) (gh : option (string * string))
    (query : option string) : string :=
  let r := JS.opt_or_str (npm_readme npmJson) "" in
  if JS.falsy_str r then EmptyString
  else match gh with
       | Some _ => if (JS.length r <? 100)%nat then EmptyString else shape r query 300
       | None => shape r query 300
       end.

(** The paths steps 4 and 5 may request; for step 5 the known ones of the
    package, then the generic ones. *)
Definition changelogCandidates (pkg : string) : list string :=
  getMonorepoPaths (baseNameOf pkg) CHANGELOG_FILES.

Definition migrationCandidates (pkg : string) : list string :=
  match knownPathsOf pkg with Some (Paths ps) => ps | _ => [] end
  ++ getMonorepoPaths (baseNameOf pkg) MIGRATION_FILES.

(** Neither the name of the package nor its base name is a name that
    [MIGRATION_PATHS] only inherits. *)
Definition ownKey (pkg : string) : bool :=
  match knownPathsOf pkg with Some Inherited => false | _ => true end.

(** Every request for one of [paths] in the repository [gh] fails,
    whenever it is sent. *)
Definition candidatesFail (gh : option (string * string)) (paths : list string) : Prop :=
  forall owner repo n p,
    gh = Some (owner, repo) -> p ∈ paths ->
    httpFailed (fetch n (rawUrl owner repo p)) = true.

End Fetcher.

End Docs.

(** ** Migration pattern engine ([services/migrate.ts]) *)

Module Migrate.

Inductive IssueType : Type := Breaking | Deprecated | Recommended.

Record MigrationIssue : Type := {
  type : IssueType;
  pattern : string;
  file : string;
  line : nat;
  message : string;
  migration : string;
}.

Record MigrationResult : Type := {
  project : string;
  framework : string;
  currentVersion : string;
  latestMajor : option string;
  migrationNeeded : bool;
  issues : list MigrationIssue;
  migrationGuideUrl : option string;
}.

(** *** Regular expressions

    The fragment of the pattern language the rule table uses, with the
    backtracking, leftmost and greedy matching of the language. *)

Inductive regex : Type :=
| Lit (s : string)        (* a run of literal characters *)
| Space                   (* \s *)
| Seq (r1 r2 : regex)
| Alt (r1 r2 : regex)     (* r1|r2 *)
| Star (r : regex)        (* r* *)
| Plus (r : regex)        (* r+ *)
| Opt (r : regex).        (* r? *)

(** Greedy iteration of the matcher [m]; an iteration that consumes
    nothing is rejected. *)
Fixpoint starK (m : string -> (string -> option string) -> option string)
    (fuel : nat) (s : string) (k : string -> option string) : option string :=
  match fuel with
  | O => k s
  | S fuel' =>
      match m s (fun s1 => if (String.length s1 <? String.length s)%nat
                           then starK m fuel' s1 k else None) with
      | Some rest => Some rest
      | None => k s
      end
  end.

(** [matchK r s k]: match [r] at the start of [s], then continue with [k]
    on what is left; the answer is what is left after the whole match. *)
Fixpoint matchK (r : regex) (s : string) (k : string -> option string)
    : option string :=
  match r with
  | Lit l => if JS.startsWith s l then k (JS.drop_str (String.length l) s) else None
  | Space =>
      match s with
      | String a s' => if JS.is_space a then k s' else None
      | EmptyString => None
      end
  | Seq r1 r2 => matchK r1 s (fun s1 => matchK r2 s1 k)
  | Alt r1 r2 =>
      match matchK r1 s k with
      | Some rest => Some rest
      | None => matchK r2 s k
      end
  | Star r1 => starK (matchK r1) (String.length s) s k
  | Plus r1 => matchK r1 s (fun s1 => starK (matchK r1) (String.length s1) s1 k)
  | Opt r1 =>
      match matchK r1 s k with
      | Some rest => Some rest
      | None => k s
      end
  end.

(** The end index of the leftmost match in a string of length [total] of
    which [s] is a suffix. *)
Fixpoint searchFrom (r : regex) (total : nat) (s : string) : option nat :=
  match matchK r s Some with
  | Some rest => Some (total - String.length rest)%nat
  | None =>
      match s with
      | EmptyString => None
      | String _ s' => searchFrom r total s'
      end
  end.

(** A [RegExp] object with the [g] flag: its source text and its
    pattern.  Its [lastIndex] lives in the store below. *)
Record RegExp : Type := {
  source : string;
  re : regex;
}.

(** [regex.test(s)] for a global [RegExp] whose [lastIndex] is
    [lastIndex]: the answer and the new [lastIndex]. *)
Definition test (rx : RegExp) (lastIndex : nat) (s : string) : bool * nat :=
  if (String.length s <? lastIndex)%nat then (false, 0%nat)
  else
    match searchFrom (re rx) (String.length s) (JS.drop_str lastIndex s) with
    | Some e => (true, e)
    | None => (false, 0%nat)
    end.

(** Whether the pattern occurs in the line at all. *)
Definition occursIn (rx : RegExp) (s : string) : bool :=
  match searchFrom (re rx) (String.length s) s with
  | Some _ => true
  | None => false
  end.

(** *** Rule table *)

Record Pattern : Type := {
  p_regex : RegExp;
  p_fileExtensions : list string;
  p_type : IssueType;
  p_message : string;
  p_migration : string;
}.

Record MigrationRule : Type := {
  rule_framework : string;
  fromMajor : Z;
  toMajor : Z;
  patterns : list Pattern;
  guideUrl : string;
}.

Definition alts (ls : list string) : regex :=
  match ls with
  | [] => Lit EmptyString
  | l :: rest => fold_left (fun r x => Alt r (Lit x)) rest (Lit l)
  end.

Definition MIGRATION_RULES : list MigrationRule :=
  [ {| rule_framework := "svelte"; fromMajor := 4; toMajor := 5;
       guideUrl := "https://svelte.dev/docs/svelte/v5-migration-guide";
       patterns :=
         [ {| p_regex := {| source := "export\s+let\s+";
                            re := Seq (Lit "export") (Seq (Plus Space)
                                    (Seq (Lit "let") (Plus Space))) |};
              p_fileExtensions := [".svelte"]; p_type := Breaking;
              p_message := "`export let` props are replaced by `$props()` rune";
              p_migration := "Use `let { prop } = $props()` instead" |};
           {| p_regex := {| source := "\$:\s+"; re := Seq (Lit "$:") (Plus Space) |};
              p_fileExtensions := [".svelte"]; p_type := Breaking;
              p_message := "Reactive `$:` statements replaced by `$derived()` and `$effect()`";
              p_migration := "Use `const x = $derived(...)` for derivations, `$effect(() => {...})` for side effects" |};
           {| p_regex := {| source := "createEventDispatcher";
                            re := Lit "createEventDispatcher" |};
              p_fileExtensions := [".svelte"; ".ts"; ".js"]; p_type := Breaking;
              p_message := "`createEventDispatcher` replaced by callback props";
              p_migration := "Pass callback functions as props instead" |};
           {| p_regex := {| source := "on:click|on:submit|on:change|on:input|on:keydown";
                            re := alts ["on:click"; "on:submit"; "on:change";
                                        "on:input"; "on:keydown"] |};
              p_fileExtensions := [".svelte"]; p_type := Breaking;
              p_message := "`on:event` syntax replaced by `onevent` props";
              p_migration := "Use `onclick`, `onsubmit`, `onchange` etc." |};
           {| p_regex := {| source := "<slot\s*\/?>|<slot\s+name=";
                            re := Alt (Seq (Lit "<slot") (Seq (Star Space)
                                          (Seq (Opt (Lit "/")) (Lit ">"))))
                                      (Seq (Lit "<slot") (Seq (Plus Space) (Lit "name="))) |};
              p_fileExtensions := [".svelte"]; p_type := Breaking;
              p_message := "`<slot>` replaced by `{@render}` blocks and `{#snippet}`";
              p_migration := "Use `{@render children()}` and `{#snippet name()}...{/snippet}`" |};
           {| p_regex := {| source := "svelte-preprocess"; re := Lit "svelte-preprocess" |};
              p_fileExtensions := [".ts"; ".js"; ".json"]; p_type := Deprecated;
              p_message := "`svelte-preprocess` not needed with Svelte 5";
              p_migration := "Remove from config, Svelte 5 handles preprocessing natively" |};
           {| p_regex := {| source := "afterUpdate|beforeUpdate";
                            re := alts ["afterUpdate"; "beforeUpdate"] |};
              p_fileExtensions := [".svelte"; ".ts"; ".js"]; p_type := Breaking;
              p_message := "`beforeUpdate/afterUpdate` lifecycle hooks removed";
              p_migration := "Use `$effect.pre()` for beforeUpdate, `$effect()` for afterUpdate" |};
           {| p_regex := {| source := "\$\$props|\$\$restProps";
                            re := alts ["$$props"; "$$restProps"] |};
              p_fileExtensions := [".svelte"]; p_type := Breaking;
              p_message := "`$$props` and `$$restProps` replaced";
              p_migration := "Use `let { ...rest } = $props()` for rest props" |} ] |};
    {| rule_framework := "next"; fromMajor := 13; toMajor := 14;
       guideUrl := "https://nextjs.org/docs/app/building-your-application/upgrading/version-14";
       patterns :=
         [ {| p_regex := {| source := "next\/image"; re := Lit "next/image" |};
              p_fileExtensions := [".tsx"; ".jsx"; ".ts"; ".js"]; p_type := Recommended;
              p_message := "Check Image component API changes";
              p_migration := "Review `next/image` props for v14 changes" |} ] |};
    {| rule_framework := "next"; fromMajor := 14; toMajor := 15;
       guideUrl := "https://nextjs.org/docs/app/building-your-application/upgrading/version-15";
       patterns :=
         [ {| p_regex := {| source := "getServerSideProps|getStaticProps";
                            re := alts ["getServerSideProps"; "getStaticProps"] |};
              p_fileExtensions := [".tsx"; ".jsx"; ".ts"; ".js"]; p_type := Deprecated;
              p_message := "Pages Router data fetching is legacy";
              p_migration := "Migrate to App Router with server components" |} ] |} ].

Definition SKIP_DIRS : gset string :=
  list_to_set
    [ "node_modules"; ".git"; ".svelte-kit"; ".next"; ".nuxt"; "dist"; "build";
      ".vercel"; ".cache"; "vendor"; "target"; "__pycache__" ].

(** *** File system *)

Record Dirent : Type := {
  name : string;
  isDirectory : bool;
}.

(** [readdirSync(dir, { withFileTypes: true })] and
    [readFileSync(file, "utf-8")]; [None] when the call throws. *)
Record FileSystem : Type := {
  readdirSync : string -> option (list Dirent);
  readFileSync : string -> option string;
}.

(** *** Paths

    [join] and [normalize] of the [path] module, in its POSIX flavour. *)

(** The last character of the path is a separator. *)
Fixpoint endsWithSlash (s : string) : bool :=
  match s with
  | EmptyString => false
  | String a EmptyString => Ascii.eqb a "/"
  | String _ s' => endsWithSlash s'
  end.

(** The segments between the separators, from left to right: an empty
    segment and [.] are dropped; [..] removes the segment kept last,
    unless there is none or it is [..] itself, in which case [..] is kept
    in a relative path and dropped in an absolute one.  [res] holds the
    segments kept so far, the last one first. *)
Fixpoint normalizeSegments (allowAboveRoot : bool) (segments res : list string)
    : list string :=
  match segments with
  | [] => rev res
  | s :: rest =>
      if String.eqb s "" || String.eqb s "." then
        normalizeSegments allowAboveRoot rest res
      else if String.eqb s ".." then
        match res with
        | top :: res' =>
            if String.eqb top ".." then
              normalizeSegments allowAboveRoot rest (if allowAboveRoot then s :: res else res)
            else normalizeSegments allowAboveRoot rest res'
        | [] => normalizeSegments allowAboveRoot rest (if allowAboveRoot then [s] else [])
        end
      else normalizeSegments allowAboveRoot rest (s :: res)
  end.

(** [path.normalize(p)] *)
Definition normalize (p : string) : string :=
  match p with
  | EmptyString => "."
  | String c _ =>
      let isAbsolute := Ascii.eqb c "/" in
      let trailingSeparator := endsWithSlash p in
      let body := JS.join "/" (normalizeSegments (negb isAbsolute) (JS.split "/" p) []) in
      match body with
      | EmptyString => if isAbsolute then "/" else if trailingSeparator then "./" else "."
      | String _ _ =>
          (if isAbsolute then "/" else "") +:+ body +:+ (if trailingSeparator then "/" else "")
      end
  end.

(** [path.join(...paths)]: the arguments that are not empty, put together
    with separators and normalised. *)
Definition join (paths : list string) : string :=
  match List.filter (fun p => negb (JS.falsy_str p)) paths with
  | [] => "."
  | parts => normalize (JS.join "/" parts)
  end.

(** [path.join(dir, name)] *)
Definition pathJoin (dir name : string) : string := join [dir; name].

(** The suffix that starts at the last dot, if there is a dot. *)
Fixpoint fromLastDot (s : string) : option string :=
  match s with
  | EmptyString => None
  | String a s' =>
      match fromLastDot s' with
      | Some e => Some e
      | None => if Ascii.eqb a "." then Some s else None
      end
  end.

(** [path.extname(name)] for an entry name: a dot in first position does
    not start an extension. *)
Definition extname (name : string) : string :=
  if String.eqb name ".." then EmptyString
  else match name with
       | EmptyString => EmptyString
       | String _ rest => default EmptyString (fromLastDot rest)
       end.

(** [extensions.includes(ext)] *)
Definition includesExt (extensions : list string) (ext : string) : bool :=
  existsb (String.eqb ext) extensions.

(** The condition of the [continue] in [walkFiles]. *)
Definition skipped (entryName : string) : bool :=
  JS.startsWith entryName "." || bool_decide (entryName ∈ SKIP_DIRS).

Section Scan.

Variable fs : FileSystem.

(** [walkFiles], by recursion on the number [S maxDepth - depth] of levels
    still allowed; with none left the guard [depth > maxDepth] returns
    the empty list. *)
Fixpoint walk (levels : nat) (dir : string) (extensions : list string) : list string :=
  match levels with
  | O => []
  | S levels' =>
      match readdirSync fs dir with
      | None => []
      | Some entries =>
          fold_left
            (fun files entry =>
               if skipped (name entry) then files
               else
                 let full := pathJoin dir (name entry) in
                 if isDirectory entry then files ++ walk levels' full extensions
                 else if includesExt extensions (extname (name entry))
                      then files ++ [full]
                      else files)
            entries []
      end
  end.

Definition walkFiles (dir : string) (extensions : list string)
    (maxDepth depth : nat) : list string :=
  walk (S maxDepth - depth) dir extensions.

(** What one directory entry contributes to the walk of [dir]. *)
Definition entryFiles (levels : nat) (dir : string) (extensions : list string)
    (entry : Dirent) : list string :=
  if skipped (name entry) then []
  else if isDirectory entry then walk levels (pathJoin dir (name entry)) extensions
  else if includesExt extensions (extname (name entry))
       then [pathJoin dir (name entry)] else [].

Variable projectPath : string.

Definition mkIssue (pat : Pattern) (file : string) (i : nat) : MigrationIssue :=
  {| type := p_type pat;
     pattern := source (p_regex pat);
     file := JS.replace file (projectPath +:+ "/") "";
     line := (i + 1)%nat;
     message := p_message pat;
     migration := p_migration pat |}.

(** [for (let i = 0; i < lines.length; i++) { ... }] from line [i] on;
    [lastIndex] is the cursor of [pat.regex] on entry, the second
    component of the result is the cursor on exit. *)
Fixpoint scanLines (pat : Pattern) (file : string) (i : nat) (rest : list string)
    (lastIndex : nat) (issues : list MigrationIssue) : list MigrationIssue * nat :=
  match rest with
  | [] => (issues, lastIndex)
  | l :: rest' =>
      let lastIndex := 0%nat in
      let '(hit, lastIndex) := test (p_regex pat) lastIndex l in
      scanLines pat file (S i) rest' lastIndex
        (if hit then issues ++ [mkIssue pat file i] else issues)
  end.

(** [for (const file of files) { try { ... } catch {} }] *)
Fixpoint scanFiles (pat : Pattern) (files : list string)
    (lastIndex : nat) (issues : list MigrationIssue) : list MigrationIssue * nat :=
  match files with
  | [] => (issues, lastIndex)
  | file :: rest =>
      match readFileSync fs file with
      | None => scanFiles pat rest lastIndex issues
      | Some content =>
          let lines := JS.split JS.LF content in
          let '(issues, lastIndex) := scanLines pat file 0 lines lastIndex issues in
          scanFiles pat rest lastIndex issues
      end
  end.

(** [for (const pattern of rule.patterns) { ... }]; [cursors] holds the
    [lastIndex] of every [RegExp] of the table, by source text. *)
Fixpoint scanPatterns (pats : list Pattern) (cursors : gmap string nat)
    (issues : list MigrationIssue) : list MigrationIssue * gmap string nat :=
  match pats with
  | [] => (issues, cursors)
  | pat :: rest =>
      let files := walkFiles projectPath (p_fileExtensions pat) 5 0 in
      let lastIndex := default 0%nat (cursors !! source (p_regex pat)) in
      let '(issues, lastIndex) := scanFiles pat files lastIndex issues in
      scanPatterns rest (<[source (p_regex pat) := lastIndex]> cursors) issues
  end.

End Scan.

(** [framework.toLowerCase().replace("sveltekit", "svelte").replace("next.js", "next")] *)
Definition normalise (framework : string) : string :=
  JS.replace (JS.replace (JS.toLowerCase framework) "sveltekit" "svelte") "next.js" "next".

Section Detect.

Variable fs : FileSystem.

(** [getFrameworkMajor], which reads and decodes [package.json]: [None]
    stands for [null] and for [NaN], which [detectMigration] treats
    alike. *)
Variable getFrameworkMajor : string -> string -> option Z.

Definition detectMigration (cursors : gmap string nat)
    (projectPath projectName framework : string)
    : MigrationResult * gmap string nat :=
  let currentMajor := getFrameworkMajor projectPath framework in
  let truthyMajor :=
    match currentMajor with
    | Some z => if z =? 0 then None else Some z
    | None => None
    end in
  let result :=
    {| project := projectName;
       framework := framework;
       currentVersion :=
         match truthyMajor with
         | Some z => pretty z +:+ ".x"
         | None => "unknown"
         end;
       latestMajor := None;
       migrationNeeded := false;
       issues := [];
       migrationGuideUrl := None |} in
  match truthyMajor with
  | None => (result, cursors)
  | Some major =>
      let rules :=
        List.filter
          (fun r => String.eqb (JS.toLowerCase (rule_framework r)) (normalise framework)
                    && (fromMajor r =? major))
          MIGRATION_RULES in
      match rules with
      | [] => (result, cursors)
      | rule :: _ =>
          let '(found, cursors) :=
            scanPatterns fs projectPath (patterns rule) cursors [] in
          ({| project := projectName;
              framework := framework;
              currentVersion := currentVersion result;
              latestMajor := Some (pretty (toMajor rule) +:+ ".x");
              migrationNeeded := (0 <? List.length found)%nat;
              issues := found;
              migrationGuideUrl := Some (guideUrl rule) |},
           cursors)
      end
  end.

(** A project as [detectAllMigrations] receives it. *)
Record Target : Type := {
  t_name : string;
  t_path : string;
  t_framework : string;
}.

(** [projects.map(p => detectMigration(...))], the cursors threaded
    from one call to the next. *)
Fixpoint detectEach (cursors : gmap string nat) (projects : list Target)
    : list MigrationResult :=
  match projects with
  | [] => []
  | p :: rest =>
      let '(r, cursors) := detectMigration cursors (t_path p) (t_name p) (t_framework p) in
      r :: detectEach cursors rest
  end.

Definition detectAllMigrations (cursors : gmap string nat) (projects : list Target)
    : list MigrationResult :=
  List.filter migrationNeeded (detectEach cursors projects).

End Detect.

(** *** Notions used to state the properties of the scan *)

(** What one line contributes for one pattern and one file: one issue
    when the pattern occurs in the line, however often, and none
    otherwise. *)
Fixpoint lineIssues (projectPath : string) (pat : Pattern) (file : string)
    (i : nat) (rest : list string) : list MigrationIssue :=
  match rest with
  | [] => []
  | l :: rest' =>
      (if occursIn (p_regex pat) l then [mkIssue projectPath pat file i] else [])
      ++ lineIssues projectPath pat file (S i) rest'
  end.

(** What one file contributes for one pattern; nothing when it cannot be
    read. *)
Definition fileIssues (fs : FileSystem) (projectPath : string) (pat : Pattern)
    (file : string) : list MigrationIssue :=
  match readFileSync fs file with
  | None => []
  | Some content => lineIssues projectPath pat file 0 (JS.split JS.LF content)
  end.

(** The issues of a rule: patterns in order, files in walk order, lines in
    order. *)
Definition ruleIssues (fs : FileSystem) (projectPath : string) (rule : MigrationRule)
    : list MigrationIssue :=
  flat_map
    (fun pat =>
       flat_map (fileIssues fs projectPath pat)
                (walkFiles fs projectPath (p_fileExtensions pat) 5 0))
    (patterns rule).

(** The (file, line, pattern) triple of an issue. *)
Definition triple (issue : MigrationIssue) : string * nat * string :=
  (file issue, line issue, pattern issue).

(** [f] is reached from [dir] through directory entries none of which has
    a name that starts with a dot, the entry of [f] itself included. *)
Inductive visible (fs : FileSystem) : string -> string -> Prop :=
| visible_file dir entries entry :
    readdirSync fs dir = Some entries ->
    entry ∈ entries ->
    JS.startsWith (name entry) "." = false ->
    isDirectory entry = false ->
    visible fs dir (pathJoin dir (name entry))
| visible_dir dir entries entry f :
    readdirSync fs dir = Some entries ->
    entry ∈ entries ->
    JS.startsWith (name entry) "." = false ->
    isDirectory entry = true ->
    visible fs (pathJoin dir (name entry)) f ->
    visible fs dir f.

(** An entry name contains no separator. *)
Fixpoint noSlash (s : string) : bool :=
  match s with
  | EmptyString => true
  | String a s' => negb (Ascii.eqb a "/") && noSlash s'
  end.

(** What follows an entry name in a path: nothing, or a separator. *)
Definition tailOk (s : string) : Prop :=
  match s with
  | EmptyString => True
  | String c _ => c = "/"%char
  end.

(** A name a directory can list: not empty and without separator. *)
Definition entryName (n : string) : bool := negb (JS.falsy_str n) && noSlash n.

(** Directories list every name once, and every name is an entry name. *)
Definition wellFormed (fs : FileSystem) : Prop :=
  forall dir entries,
    readdirSync fs dir = Some entries ->
    NoDup (map name entries) /\ Forall (fun e => entryName (name e) = true) entries.

(** A segment that [normalize] keeps as it is. *)
Definition plainSegment (n : string) : bool :=
  entryName n && negb (String.eqb n ".") && negb (String.eqb n "..").

(** A path in normal form, absolute or relative: segments that
    [normalize] keeps, one separator between two of them and none at the
    end. *)
Definition normalPath (p : string) : bool :=
  match p with
  | EmptyString => false
  | String c rest =>
      forallb plainSegment (JS.split "/" (if Ascii.eqb c "/" then rest else p))
  end.

End Migrate.

(** ** Further primitives: white space, spans and plain objects *)

Module Text.

(** The longest prefix whose characters satisfy [p], and what follows
    it: a greedy [[...]*] at the start of a pattern. *)
Fixpoint span (p : ascii -> bool) (s : string) : string * string :=
  match s with
  | EmptyString => (EmptyString, EmptyString)
  | String a s' =>
      if p a then let '(x, r) := span p s' in (String a x, r)
      else (EmptyString, s)
  end.

(** Every character of [s] satisfies [p]. *)
Fixpoint all (p : ascii -> bool) (s : string) : bool :=
  match s with
  | EmptyString => true
  | String a s' => p a && all p s'
  end.

(** [s.trimStart()], [s.trimEnd()] and [s.trim()]: the white space of
    [trim] is that of [\s]. *)
Fixpoint trimStart (s : string) : string :=
  match s with
  | EmptyString => EmptyString
  | String a s' => if JS.is_space a then trimStart s' else s
  end.

Definition trimEnd (s : string) : string := String.rev (trimStart (String.rev s)).

Definition trim (s : string) : string := trimEnd (trimStart s).

(** The line terminators among the modelled code units, LF and CR; the
    pattern [.] matches every other character. *)
Definition lineTerminator (a : ascii) : bool :=
  Ascii.eqb a JS.LF || Ascii.eqb a (ascii_of_nat 13).

Definition dot (a : ascii) : bool := negb (lineTerminator a).

(** [\S] *)
Definition nonSpace (a : ascii) : bool := negb (JS.is_space a).

(** [.+?] followed by the rest [k] of the pattern: one character, then as
    few more as the rest needs; [acc] holds the characters taken so far,
    last first. *)
Fixpoint lazyDot {R} (k : string -> option R) (acc : string) (s : string)
    : option (string * R) :=
  match s with
  | EmptyString => None
  | String a s' =>
      if dot a then
        match k s' with
        | Some r => Some (String.rev (String a acc), r)
        | None => lazyDot k (String a acc) s'
        end
      else None
  end.

End Text.

Module Obj.

(** A plain object is the list of its own properties in creation order;
    a decoder creates the properties of an object in the order of the
    text, each key once. *)

(** An array index: the canonical decimal form of an integer below
    [2^32 - 1]. *)
Definition arrayIndex (k : string) : option Z :=
  if Changelog.numeric_component k
     && (String.eqb k "0" || negb (JS.startsWith k "0"))
     && (Changelog.decimal k <=? 4294967294)
  then Some (Changelog.decimal k) else None.

Definition isIndex {V} (e : string * V) : bool :=
  match arrayIndex e.1 with Some _ => true | None => false end.

Definition indexLe {V} (x y : string * V) : Prop :=
  default 0 (arrayIndex x.1) <= default 0 (arrayIndex y.1).

#[global] Instance indexLe_dec {V} (x y : string * V) : Decision (indexLe x y).
Proof. unfold indexLe. apply _. Defined.

(** [Object.entries(o)]: the array indices in ascending order, then the
    other keys in creation order. *)
Definition entries {V} (o : list (string * V)) : list (string * V) :=
  merge_sort indexLe (List.filter isIndex o)
  ++ List.filter (fun e => negb (isIndex e)) o.

(** [o[k] = v] on an object that may already have the key. *)
Fixpoint define {V} (o : list (string * V)) (k : string) (v : V) : list (string * V) :=
  match o with
  | [] => [(k, v)]
  | (k', v') :: o' =>
      if String.eqb k' k then (k', v) :: o' else (k', v') :: define o' k v
  end.

(** [{ ...target, ...source }], given the copy of [target] made so far. *)
Definition spreadInto {V} (target source : list (string * V)) : list (string * V) :=
  fold_left (fun o e => define o e.1 e.2) (entries source) target.

(** [o[k]] for a key that [Object.prototype] does not define. *)
Definition get {V} (o : list (string * V)) (k : string) : option V :=
  snd <$> List.find (fun e => String.eqb e.1 k) o.

End Obj.

(** ** Installed packages ([getInstalledPackages] of [services/osv.ts]) *)

Module Inventory.

(** [existsSync] and [readFileSync(path, "utf-8")]; the latter is [None]
    when the call throws. *)
Record Files : Type := {
  existsSync : string -> bool;
  readFileSync : string -> option string;
}.

(** The decoded [package.json], with the two properties that are read;
    each is an object from package names to version ranges. *)
Record PackageJson : Type := {
  dependencies : option (list (string * string));
  devDependencies : option (list (string * string));
}.

(** [{ ...pkg.dependencies, ...pkg.devDependencies }] *)
Definition allDeps (pkg : PackageJson) : list (string * string) :=
  Obj.spreadInto (Obj.spreadInto [] (default [] (dependencies pkg)))
                 (default [] (devDependencies pkg)).

(** The class [[\^~>=<]] and [String(spec).replace(/^[\^~>=<]+/, "")]. *)
Definition rangeOperator (a : ascii) : bool :=
  (Ascii.eqb a "^" || Ascii.eqb a "~" || Ascii.eqb a ">" || Ascii.eqb a "="
   || Ascii.eqb a "<")%char.

Definition stripRange (spec : string) : string := snd (Text.span rangeOperator spec).

(** The class [[a-zA-Z0-9_-]]. *)
Definition nameChar (a : ascii) : bool :=
  let n := nat_of_ascii a in
  ((48 <=? n) && (n <=? 57) || (65 <=? n) && (n <=? 90) || (97 <=? n) && (n <=? 122)
   || (n =? 95) || (n =? 45))%nat.

(** [line.match(/^([a-zA-Z0-9_-]+)==(.+)/)]: the two groups. *)
Definition matchRequirement (line : string) : option (string * string) :=
  let '(name, rest) := Text.span nameChar line in
  if JS.falsy_str name then None
  else if JS.startsWith rest "==" then
    let '(version, _) := Text.span Text.dot (JS.drop_str 2 rest) in
    if JS.falsy_str version then None else Some (name, version)
  else None.

(** [line.match(/^(\S+)\s+v(\S+)/)]: the two groups. *)
Definition matchGoSum (line : string) : option (string * string) :=
  let '(name, rest) := Text.span Text.nonSpace line in
  if JS.falsy_str name then None
  else
    let '(blank, rest) := Text.span JS.is_space rest in
    if JS.falsy_str blank then None
    else match rest with
         | String c rest =>
             if Ascii.eqb c "v" then
               let '(version, _) := Text.span Text.nonSpace rest in
               if JS.falsy_str version then None else Some (name, version)
             else None
         | EmptyString => None
         end.

(** The pattern [/\[\[package\]\]\nname = "(.+?)"\nversion = "(.+?)"/]
    anchored at the start of [s]: the two groups and what follows the
    match. *)
Definition quote : ascii := ascii_of_nat 34.
Definition packageHead : string :=
  "[[package]]" +:+ JS.nl +:+ "name = " +:+ String quote EmptyString.
Definition packageMiddle : string :=
  String quote EmptyString +:+ JS.nl +:+ "version = " +:+ String quote EmptyString.

Definition closingQuote (s : string) : option string :=
  match s with
  | String c rest => if Ascii.eqb c quote then Some rest else None
  | EmptyString => None
  end.

Definition matchPackageHere (s : string) : option (string * (string * string)) :=
  if JS.startsWith s packageHead then
    Text.lazyDot
      (fun s1 =>
         if JS.startsWith s1 packageMiddle
         then Text.lazyDot closingQuote EmptyString
                (JS.drop_str (String.length packageMiddle) s1)
         else None)
      EmptyString (JS.drop_str (String.length packageHead) s)
  else None.

(** [while ((match = regex.exec(content))) packages.push(...)]: the
    matches from left to right, each search starting where the previous
    match ended; [skip] counts the characters of the last match that are
    still to be passed. *)
Fixpoint execAll (skip : nat) (s : string) : list Osv.Package :=
  match s with
  | EmptyString => []
  | String _ s' =>
      match skip with
      | S skip' => execAll skip' s'
      | O =>
          match matchPackageHere s with
          | Some (name, (version, rest)) =>
              {| Osv.name := name; Osv.version := version |}
              :: execAll (String.length s' - String.length rest) s'
          | None => execAll 0 s'
          end
      end
  end.

Definition rustPackages (content : string) : list Osv.Package := execAll 0 content.

(** The loop over the lines of [requirements.txt]. *)
Definition pythonPackages (content : string) : list Osv.Package :=
  fold_left
    (fun packages line =>
       match matchRequirement (Text.trim line) with
       | Some (name, version) =>
           packages ++ [ {| Osv.name := name; Osv.version := version |} ]
       | None => packages
       end)
    (JS.split JS.LF content) [].

(** The loop over the lines of [go.sum], with its [seen] set. *)
Fixpoint goLoop (lines : list string) (seen : gset string)
    (packages : list Osv.Package) : list Osv.Package :=
  match lines with
  | [] => packages
  | line :: rest =>
      match matchGoSum line with
      | Some (name, version) =>
          if bool_decide (name ∈ seen) then goLoop rest seen packages
          else goLoop rest ({[ name ]} ∪ seen)
                 (packages ++ [ {| Osv.name := name;
                                   Osv.version := Docs.stripSuffix version "/go.mod" |} ])
      | None => goLoop rest seen packages
      end
  end.

Definition goPackages (content : string) : list Osv.Package :=
  goLoop (JS.split JS.LF content) ∅ [].

(** *** Notions used to state the properties of the parsers *)

(** The line of [requirements.txt] that pins a package, and the packages
    such a line can pin: a name in the class of the pattern, and a version
    without white space. *)
Definition requirementLine (pkg : Osv.Package) : string :=
  Osv.name pkg +:+ "==" +:+ Osv.version pkg.

Definition pinnable (pkg : Osv.Package) : bool :=
  negb (JS.falsy_str (Osv.name pkg)) && Text.all nameChar (Osv.name pkg)
  && negb (JS.falsy_str (Osv.version pkg)) && Text.all Text.nonSpace (Osv.version pkg).

(** The block of [Cargo.lock] that declares a package, up to the quote
    that closes its version. *)
Definition packageBlock (pkg : Osv.Package) : string :=
  packageHead +:+ Osv.name pkg +:+ packageMiddle +:+ Osv.version pkg
  +:+ String quote EmptyString.

(** A lock file that declares the given packages, one block each, and
    the packages such a block can declare: name and version are not empty
    and hold neither a quote nor a line break. *)
Fixpoint lockFile (pkgs : list Osv.Package) : string :=
  match pkgs with
  | [] => EmptyString
  | pkg :: rest => packageBlock pkg +:+ JS.nl +:+ JS.nl +:+ lockFile rest
  end.

Definition plain (a : ascii) : bool := Text.dot a && negb (Ascii.eqb a quote).

Definition lockable (pkg : Osv.Package) : bool :=
  negb (JS.falsy_str (Osv.name pkg)) && Text.all plain (Osv.name pkg)
  && negb (JS.falsy_str (Osv.version pkg)) && Text.all plain (Osv.version pkg).

Section GetInstalledPackages.

Variable files : Files.

(** [JSON.parse] of a [package.json] at the type [PackageJson], and
    [JSON.parse(text).version] for the manifest of an installed package,
    which carries a version; [None] when the text cannot be decoded. *)
Variable parseManifest : string -> option PackageJson.
Variable parseVersion : string -> option string.

(** The version pushed for one dependency: the installed one when its
    manifest exists and can be read and decoded, the range without its
    operators otherwise. *)
Definition versionOf (projectPath name spec : string) : string :=
  let nmPkg := Migrate.join [projectPath; "node_modules"; name; "package.json"] in
  if existsSync files nmPkg then
    match readFileSync files nmPkg with
    | Some text =>
        match parseVersion text with
        | Some version => version
        | None => stripRange spec
        end
    | None => stripRange spec
    end
  else stripRange spec.

Definition nodePackages (projectPath : string) : list Osv.Package :=
  let pkgPath := Migrate.pathJoin projectPath "package.json" in
  if negb (existsSync files pkgPath) then []
  else
    match readFileSync files pkgPath with
    | None => []
    | Some text =>
        match parseManifest text with
        | None => []
        | Some pkg =>
            fold_left
              (fun packages e =>
                 packages ++ [ {| Osv.name := e.1;
                                  Osv.version := versionOf projectPath e.1 e.2 |} ])
              (Obj.entries (allDeps pkg)) []
        end
    end.

(** A lock file that exists is read outside any [try]: [None] when the
    read throws. *)
Definition fromLockFile (path : string) (parse : string -> list Osv.Package)
    : option (list Osv.Package) :=
  if existsSync files path then
    match readFileSync files path with
    | Some content => Some (parse content)
    | None => None
    end
  else Some [].

(** [getInstalledPackages]; [None] when it throws. *)
Definition getInstalledPackages (projectPath language : string)
    : option (list Osv.Package) :=
  if String.eqb language "node" then Some (nodePackages projectPath)
  else if String.eqb language "rust" then
    fromLockFile (Migrate.pathJoin projectPath "Cargo.lock") rustPackages
  else if String.eqb language "python" then
    fromLockFile (Migrate.pathJoin projectPath "requirements.txt") pythonPackages
  else if String.eqb language "go" then
    fromLockFile (Migrate.pathJoin projectPath "go.sum") goPackages
  else Some [].

End GetInstalledPackages.

End Inventory.

(** ** Notions used to state the shape of a filtered document *)

Module Shaping.

(** The marker pushed before every run of kept lines. *)
Definition gapMarker : string := JS.nl +:+ "..." +:+ JS.nl.

Definition notGap (l : string) : bool := negb (String.eqb l gapMarker).

(** The text of line [n]. *)
Definition lineAt (lines : list string) (n : nat) : string :=
  default EmptyString (lines !! n).

(** Line [j] is within [contextLines] lines of a line that holds a
    keyword. *)
Definition nearMatch (keywords : list string) (contextLines : nat)
    (lines : list string) (j : nat) : Prop :=
  (j < List.length lines)%nat
  /\ exists i line,
       lines !! i = Some line /\ Docs.lineMatches keywords line = true
       /\ (i - contextLines <= j <= i + contextLines)%nat.

(** Line [j] starts a run of kept lines: it is the first line of the
    text, or the line before it is not kept. *)
Definition startsRun (kept : list nat) (j : nat) : bool :=
  match j with
  | O => true
  | S j' => bool_decide (j' ∉ kept)
  end.

(** The kept lines, each with a gap marker before it when it starts a
    run. *)
Definition withGaps (lines : list string) (kept : list nat) : list string :=
  flat_map (fun j => (if startsRun kept j then [gapMarker] else []) ++ [lineAt lines j])
           kept.

End Shaping.

(** ** Framework version ([getFrameworkMajor] of [services/migrate.ts]) *)

Module Framework.

Definition fwPackages : gmap string string :=
  list_to_map
    [ ("svelte", "svelte"); ("sveltekit", "svelte"); ("next.js", "next");
      ("nuxt", "nuxt"); ("astro", "astro") ].

(** The lower-case keys every object literal inherits.  For such a
    framework name [fwPackages[...]] is an object and not a string: either
    [allDeps] has no such key, or [join] throws on it, and the result is
    [null] both ways. *)
Definition inherited (k : string) : bool :=
  String.eqb k "constructor" || String.eqb k "__proto__".

(** [v.split(".")[0]] *)
Definition firstComponent (v : string) : string :=
  default EmptyString (JS.split "." v !! 0%nat).

Section GetFrameworkMajor.

Variable files : Inventory.Files.
Variable parseManifest : string -> option Inventory.PackageJson.

(** [JSON.parse(text).version]; [None] when the text cannot be decoded or
    holds no version, in which case reading [nm.version.split] throws. *)
Variable parseVersion : string -> option string.

(** [parseInt(s, 10)]; [None] stands for [NaN]. *)
Variable parseInt : string -> option Z.

Definition packageOf (framework : string) : string :=
  let lower := JS.toLowerCase framework in
  JS.opt_or_str (fwPackages !! lower) lower.

(** [getFrameworkMajor]; [None] stands for [null] and for [NaN]. *)
Definition getFrameworkMajor (projectPath framework : string) : option Z :=
  let pkgPath := Migrate.pathJoin projectPath "package.json" in
  if negb (Inventory.existsSync files pkgPath) then None
  else
    match Inventory.readFileSync files pkgPath with
    | None => None
    | Some text =>
        match parseManifest text with
        | None => None
        | Some pkg =>
            if inherited (JS.toLowerCase framework) then None
            else
              let pkgName := packageOf framework in
              match Obj.get (Inventory.allDeps pkg) pkgName with
              | None => None
              | Some spec =>
                  if JS.falsy_str spec then None
                  else
                    let nmPkg :=
                      Migrate.join [projectPath; "node_modules"; pkgName; "package.json"] in
                    if Inventory.existsSync files nmPkg then
                      match Inventory.readFileSync files nmPkg with
                      | None => None
                      | Some nmText =>
                          match parseVersion nmText with
                          | None => None
                          | Some version => parseInt (firstComponent version)
                          end
                      end
                    else parseInt (firstComponent (Inventory.stripRange spec))
              end
        end
    end.

End GetFrameworkMajor.

(** A [parseInt] that reads an optional sign and the decimal digits that
    follow, after leading white space. *)
Definition parseIntDecimal (s : string) : option Z :=
  let s := Text.trimStart s in
  let '(negative, s) :=
    match s with
    | String c r =>
        if Ascii.eqb c "-" then (true, r)
        else if Ascii.eqb c "+" then (false, r) else (false, s)
    | EmptyString => (false, s)
    end in
  let '(digits, _) := Text.span Changelog.is_digit s in
  if JS.falsy_str digits then None
  else Some (if negative then - Changelog.decimal digits else Changelog.decimal digits).

End Framework.

(** ** Changelog report (the rest of [services/changelog.ts]) *)

Module Report.

Record ChangelogEntry : Type := {
  package : string;
  currentVersion : string;
  latestVersion : string;
  hasBreakingChanges : bool;
  changelogUrl : option string;
  releaseNotes : option string;
  updateType : Changelog.UpdateType;
}.

Record ChangelogResult : Type := {
  project : string;
  entries : list ChangelogEntry;
}.

(** What [execSync] can do: return the standard output, or throw an
    error that may carry what was written before. *)
Inductive ExecOutcome : Type :=
| Exits (stdout : string)
| Throws (stdout : option string).

(** A decoded JSON value. *)
#[local] Set Warnings "-register-all".
Inductive Json : Type :=
| JNull
| JBool (b : bool)
| JNumber (q : Q)
| JString (s : string)
| JArray (items : list Json)
| JObject (props : list (string * Json)).
#[local] Set Warnings "register-all".

(** An entry of the object printed by [npm outdated --json]; a property
    may be missing. *)
Record OutdatedInfo : Type := {
  o_current : option string;
  o_latest : option string;
}.

(** [order[t]] in the comparator of the final sort. *)
Definition order (t : Changelog.UpdateType) : Z :=
  match t with
  | Changelog.Major => 0
  | Changelog.Minor => 1
  | Changelog.Patch => 2
  end.

(** [a.sort(cmp)], which is stable: the elements are inserted from the
    last to the first, each before the first element it does not
    follow. *)
Fixpoint insertBy {A} (cmp : A -> A -> Z) (x : A) (l : list A) : list A :=
  match l with
  | [] => [x]
  | y :: l' => if cmp x y <=? 0 then x :: l else y :: insertBy cmp x l'
  end.

Fixpoint sortBy {A} (cmp : A -> A -> Z) (l : list A) : list A :=
  match l with
  | [] => []
  | x :: l' => insertBy cmp x (sortBy cmp l')
  end.

Definition byUpdateType (a b : ChangelogEntry) : Z :=
  order (updateType a) - order (updateType b).

(** [repoUrl.replace(/^git\+/, "").replace(/\.git$/, "").replace("git://", "https://")] *)
Definition cleanRepoUrl (repoUrl : string) : string :=
  JS.replace (Docs.stripSuffix (Docs.replacePrefix repoUrl "git+" "") ".git")
             "git://" "https://".

(** A property that is present and not the empty string. *)
Definition present (o : option string) : option string :=
  match o with
  | Some s => if JS.falsy_str s then None else Some s
  | None => None
  end.

Definition isMajor (t : Changelog.UpdateType) : bool :=
  match t with Changelog.Major => true | _ => false end.

#[global] Instance updateType_eq_dec : EqDecision Changelog.UpdateType.
Proof. solve_decision. Defined.

(** The test of the [continue], negated: both versions are present and
    they differ. *)
Definition changed (info : OutdatedInfo) : bool :=
  match present (o_current info), present (o_latest info) with
  | Some current, Some latest => negb (String.eqb current latest)
  | _, _ => false
  end.

(** The entries of one update type, in the order of the list. *)
Definition ofType (t : Changelog.UpdateType) (l : list ChangelogEntry)
    : list ChangelogEntry :=
  List.filter (fun e => order (updateType e) =? order t) l.

Section Commands.

(** The shell: the outcome of a command depends on the command, on the
    directory it runs in, on its time limit, and on how many commands
    were run before it. *)
Variable execSync : nat -> string -> string -> Z -> ExecOutcome.

(** [JSON.parse]; [None] when it throws. *)
Variable parseJson : string -> option Json.

(** [JSON.parse] at the type of the output of [npm outdated --json]: the
    entries of the object in the order of [Object.entries]. *)
Variable parseOutdated : string -> option (list (string * OutdatedInfo)).

Variable existsSync : string -> bool.
Variable toNumber : string -> JS.number.

(** [getReleaseNotes], which runs one command. *)
Variable getReleaseNotes : nat -> string -> string -> option string.

(** [cmd], run after [n] commands. *)
Definition cmd (n : nat) (command cwd : string) (timeout : Z) : option string :=
  match execSync n command cwd timeout with
  | Exits stdout => Some (Text.trim stdout)
  | Throws (Some stdout) =>
      let out := Text.trim stdout in
      if JS.falsy_str out then None else Some out
  | Throws None => None
  end.

Definition npmPage (packageName : string) : string :=
  "https://www.npmjs.com/package/" +:+ packageName +:+ "?activeTab=versions".

Definition getChangelogUrl (n : nat) (packageName : string) : option string :=
  match cmd n ("npm view " +:+ packageName +:+ " repository.url homepage --json")
            "/tmp" 8000 with
  | None => None
  | Some info =>
      if JS.falsy_str info then None
      else
        match parseJson info with
        | None => Some (npmPage packageName)
        | Some parsed =>
            let repoUrl :=
              match parsed with
              | JArray items => items !! 0%nat
              | _ => Some parsed
              end in
            match repoUrl with
            | Some (JString repoUrl) =>
                let clean := cleanRepoUrl repoUrl in
                if JS.includes clean "github.com"
                then Some (clean +:+ "/blob/main/CHANGELOG.md")
                else Some clean
            | _ => Some (npmPage packageName)
            end
        end
  end.

(** The entry pushed for an outdated package, after [n] commands: the
    changelog address costs one command, the release notes one more. *)
Definition mkEntry (n : nat) (name current latest : string) : ChangelogEntry :=
  let updateType := Changelog.getUpdateType toNumber current latest in
  let hasBreaking := isMajor updateType in
  {| package := name;
     currentVersion := current;
     latestVersion := latest;
     hasBreakingChanges := hasBreaking;
     changelogUrl := getChangelogUrl n name;
     releaseNotes := if hasBreaking then getReleaseNotes (S n) name latest else None;
     updateType := updateType |}.

(** [for (const [name, info] of Object.entries(outdated)) { ... }], after
    [n] commands. *)
Fixpoint entriesLoop (n : nat) (outdated : list (string * OutdatedInfo))
    (acc : list ChangelogEntry) : list ChangelogEntry :=
  match outdated with
  | [] => acc
  | (name, info) :: rest =>
      match present (o_current info), present (o_latest info) with
      | Some current, Some latest =>
          if String.eqb current latest then entriesLoop n rest acc
          else
            let entry := mkEntry n name current latest in
            entriesLoop (if hasBreakingChanges entry then S (S n) else S n) rest
              (acc ++ [entry])
      | _, _ => entriesLoop n rest acc
      end
  end.

Definition getProjectChangelog (projectPath projectName : string) : ChangelogResult :=
  let none := {| project := projectName; entries := [] |} in
  if negb (existsSync (Migrate.pathJoin projectPath "package.json")) then none
  else
    match cmd 0 "npm outdated --json" projectPath 30000 with
    | None => none
    | Some outdatedRaw =>
        if JS.falsy_str outdatedRaw then none
        else
          match parseOutdated outdatedRaw with
          | None => none
          | Some outdated =>
              {| project := projectName;
                 entries := sortBy byUpdateType (entriesLoop 1 outdated []) |}
          end
    end.

(** The entries before the final sort: none when the project has no
    [package.json] or when the report of npm cannot be used. *)
Definition reported (projectPath : string) : list ChangelogEntry :=
  if existsSync (Migrate.pathJoin projectPath "package.json") then
    match cmd 0 "npm outdated --json" projectPath 30000 with
    | Some outdatedRaw =>
        match parseOutdated outdatedRaw with
        | Some outdated => if JS.falsy_str outdatedRaw then [] else entriesLoop 1 outdated []
        | None => []
        end
    | None => []
    end
  else [].

End Commands.

End Report.

(** ** Dashboard server ([handleRequest] of the dashboard script) *)

Module Dashboard.

Record Request : Type := {
  method : string;
  url : string;
}.

Section Server.

(** The decoded cache file, and [readCache], which answers [None] when
    the file is missing or cannot be decoded. *)
Variable Cache : Type.
Variable readCache : option Cache.

Inductive Body : Type :=
| Status (cache : option Cache) (scanning : bool)  (* { ...cache, scanning } *)
| Failure (error : string)                         (* { error } *)
| Started.                                         (* { started: true } *)

Inductive Response : Type :=
| JsonResponse (status : nat) (body : Body)
| Html.

(** The module variable [scanning], and the number of calls of
    [handleRequest] that are suspended at [await runChecker()]. *)
Record State : Type := {
  scanning : bool;
  pending : nat;
}.

Definition initial : State := {| scanning := false; pending := 0 |}.

(** [handleRequest] up to its first suspension: the new state and the
    response written. *)
Definition handleRequest (st : State) (req : Request) : State * Response :=
  if String.eqb (url req) "/api/status" then
    (st, JsonResponse 200 (Status readCache (scanning st)))
  else if String.eqb (url req) "/api/scan" && String.eqb (method req) "POST" then
    if scanning st then (st, JsonResponse 409 (Failure "Scan already in progress"))
    else ({| scanning := true; pending := S (pending st) |}, JsonResponse 200 Started)
  else (st, Html).

(** What happens on the server: a request arrives, or a running checker
    settles, by returning or by throwing, and its handler resumes. *)
Inductive Event : Type :=
| Arrives (req : Request)
| Settles.

Definition step (st : State) (ev : Event) : State :=
  match ev with
  | Arrives req => fst (handleRequest st req)
  | Settles =>
      match pending st with
      | O => st
      | S k => {| scanning := false; pending := k |}
      end
  end.

Definition run (events : list Event) : State := fold_left step events initial.

End Server.

End Dashboard.


(** ** Concrete inputs

    Small environments on which the definitions above are run. *)

Module Demo.

(** *** Checker *)

Definition projects : list Checker.ProjectInfo :=
  [ {| Checker.info_name := "app"; Checker.info_path := "/home/dev/app";
       Checker.info_language := "node"; Checker.info_framework := "svelte" |};
    {| Checker.info_name := "lib"; Checker.info_path := "/home/dev/lib";
       Checker.info_language := "node"; Checker.info_framework := "none" |} ].

Definition leftPad : Checker.OutdatedPkg :=
  {| Checker.current := "1.0.0"; Checker.wanted := "1.0.0"; Checker.latest := "2.0.0" |}.

(** [app] has one outdated package, [lib] has none. *)
Definition getOutdated (path : string) (_ : Checker.ProjectInfo)
    : option (gmap string Checker.OutdatedPkg) :=
  if String.eqb path "/home/dev/app" then Some {[ "left-pad" := leftPad ]}
  else Some ∅.

Definition isMajorUpdate (current latest : string) : bool :=
  negb (String.eqb (default EmptyString (JS.split "." current !! 0%nat))
                   (default EmptyString (JS.split "." latest !! 0%nat))).

Definition now (_ : nat) : string := "2024-01-01T00:00:00.000Z".

(** *** OSV client *)

Definition packages : list Osv.Package :=
  map (fun i => {| Osv.name := "pkg" +:+ pretty i; Osv.version := "1.0.0" |}) (seq 0 250).

Definition advisory : Osv.Advisory :=
  {| Osv.adv_id := "GHSA-0000"; Osv.adv_summary := Some "Prototype pollution";
     Osv.adv_details := None;
     Osv.adv_severity := Some [ {| Osv.sev_score := Some (JS.ofZ 8) |} ];
     Osv.adv_affected :=
       Some [ {| Osv.ranges :=
                   Some [ {| Osv.events := Some [ {| Osv.ev_fixed := None |};
                                                  {| Osv.ev_fixed := Some "1.0.1" |} ] |} ] |} ];
     Osv.adv_references := None;
     Osv.adv_published := Some "2023-05-01" |}.

Definition vulnerable (q : Osv.Query) : bool :=
  String.eqb (Osv.q_name q) "pkg0" || String.eqb (Osv.q_name q) "pkg205".

(** One result per query, in order; the second request times out. *)
Definition fetch (sent : nat) (batch : list Osv.Query) : Osv.FetchOutcome :=
  if (sent =? 1)%nat then Osv.FetchRejects
  else Osv.Response true
         (Some {| Osv.results :=
                    Some (map (fun q => {| Osv.r_vulns :=
                                             if vulnerable q then Some [advisory] else None |})
                              batch) |}).

Definition targets : list Osv.AuditTarget :=
  [ {| Osv.t_name := "app"; Osv.t_path := "/home/dev/app"; Osv.t_language := "node" |};
    {| Osv.t_name := "lib"; Osv.t_path := "/home/dev/lib"; Osv.t_language := "node" |} ].

Definition getInstalledPackages (path _ : string) : list Osv.Package :=
  if String.eqb path "/home/dev/app"
  then [ {| Osv.name := "pkg0"; Osv.version := "1.0.0" |} ]
  else [ {| Osv.name := "pkg1"; Osv.version := "2.0.0" |} ].

(** *** Documentation aggregator *)

Definition registryBody : string := "{ registry document of widget }".

Definition npmJson : Docs.NpmRegistryData :=
  {| Docs.dist_tags_latest := Some "1.2.3";
     Docs.npm_description := Some "A widget";
     Docs.npm_homepage := None;
     Docs.repository_url := Some "git+https://github.com/acme/widget.git";
     Docs.npm_readme := None |}.

Definition parseNpmJson (body : string) : option Docs.NpmRegistryData :=
  if String.eqb body registryBody then Some npmJson else None.

Definition encodeURIComponent (s : string) : string := s.

(** A changelog of 201 lines, none of which mentions [zzz]. *)
Definition longChangelog : string :=
  JS.join JS.nl (repeat "fixed a bug" 201).

Definition widgetUrl : string := "https://registry.npmjs.org/widget".

(** The registry answers, the repository has a [CHANGELOG.md] only. *)
Definition net (_ : nat) (url : string) : Docs.HttpOutcome :=
  if String.eqb url widgetUrl then Docs.HttpResponse true (Some registryBody)
  else if String.eqb url (Docs.rawUrl "acme" "widget" "CHANGELOG.md")
       then Docs.HttpResponse true (Some longChangelog)
       else Docs.HttpResponse false None.

(** The registry answers, every other request fails. *)
Definition netDown (_ : nat) (url : string) : Docs.HttpOutcome :=
  if String.eqb url widgetUrl then Docs.HttpResponse true (Some registryBody)
  else Docs.HttpRejects.

(** The registry answers for the package [constructor], whose document
    names a repository on GitHub; every other request fails. *)
Definition constructorUrl : string := "https://registry.npmjs.org/constructor".

Definition netConstructor (_ : nat) (url : string) : Docs.HttpOutcome :=
  if String.eqb url constructorUrl then Docs.HttpResponse true (Some registryBody)
  else Docs.HttpRejects.

Definition allSections : Docs.Options :=
  {| Docs.opt_readme := None; Docs.opt_changelog := None; Docs.opt_migration := None |}.

(** *** Migration engine *)

Definition dirent (n : string) (d : bool) : Migrate.Dirent :=
  {| Migrate.name := n; Migrate.isDirectory := d |}.

(** A Svelte project with a hidden component next to the visible ones. *)
Definition fs : Migrate.FileSystem :=
  {| Migrate.readdirSync := fun dir =>
       if String.eqb dir "/p" then
         Some [ dirent "src" true; dirent ".hidden.svelte" false;
                dirent "node_modules" true; dirent "App.svelte" false ]
       else if String.eqb dir "/p/src" then
         Some [ dirent "Button.svelte" false; dirent "util.ts" false ]
       else if String.eqb dir "/p/node_modules" then
         Some [ dirent "Dep.svelte" false ]
       else None;
     Migrate.readFileSync := fun f =>
       if String.eqb f "/p/App.svelte" then
         Some ("<script>" +:+ JS.nl +:+ "  export let foo; export let bar;"
               +:+ JS.nl +:+ "</script>")
       else if String.eqb f "/p/.hidden.svelte" then Some "export let secret;"
       else if String.eqb f "/p/node_modules/Dep.svelte" then Some "export let dep;"
       else if String.eqb f "/p/src/Button.svelte" then
         Some "<button on:click={a} on:click={b}>"
       else None |}.

(** A project given by the relative path [./p]: the component
    [ab.svelte] at its root, and [b.svelte] in its directory [a./p]. *)
Definition relativeFs : Migrate.FileSystem :=
  {| Migrate.readdirSync := fun dir =>
       if String.eqb dir "./p" then Some [ dirent "ab.svelte" false; dirent "a." true ]
       else if String.eqb dir "p/a." then Some [ dirent "p" true ]
       else if String.eqb dir "p/a./p" then Some [ dirent "b.svelte" false ]
       else None;
     Migrate.readFileSync := fun f =>
       if String.eqb f "p/ab.svelte" then Some "export let x;"
       else if String.eqb f "p/a./p/b.svelte" then Some "export let y;"
       else None |}.

Definition getFrameworkMajor (_ _ : string) : option Z := Some 4.

Definition migrationTargets : list Migrate.Target :=
  [ {| Migrate.t_name := "p"; Migrate.t_path := "/p"; Migrate.t_framework := "SvelteKit" |};
    {| Migrate.t_name := "q"; Migrate.t_path := "/q"; Migrate.t_framework := "svelte" |} ].

End Demo.

(** ** Further concrete inputs *)

Module Samples.

(** *** A Node project and its manifests *)

Definition manifestText : string := "{ package.json of /home/dev/app }".
Definition nextText : string := "{ package.json of next }".

Definition manifest : Inventory.PackageJson :=
  {| Inventory.dependencies := Some [ ("svelte", "^4.2.0"); ("next", "~13.0.1") ];
     Inventory.devDependencies := Some [ ("vite", ">=5.0.0"); ("svelte", "^4.2.8") ] |}.

(** [next] is installed, [svelte] and [vite] are not. *)
Definition files : Inventory.Files :=
  {| Inventory.existsSync := fun p =>
       String.eqb p "/home/dev/app/package.json"
       || String.eqb p "/home/dev/app/node_modules/next/package.json";
     Inventory.readFileSync := fun p =>
       if String.eqb p "/home/dev/app/package.json" then Some manifestText
       else if String.eqb p "/home/dev/app/node_modules/next/package.json"
            then Some nextText else None |}.

(** The same project after an installation that was cut short: the
    manifest of [svelte] is there, and cannot be decoded. *)
Definition brokenInstall : Inventory.Files :=
  {| Inventory.existsSync := fun p =>
       Inventory.existsSync files p
       || String.eqb p "/home/dev/app/node_modules/svelte/package.json";
     Inventory.readFileSync := fun p =>
       if String.eqb p "/home/dev/app/node_modules/svelte/package.json"
       then Some "{ "
       else Inventory.readFileSync files p |}.

Definition parseManifest (text : string) : option Inventory.PackageJson :=
  if String.eqb text manifestText then Some manifest else None.

Definition parseVersion (text : string) : option string :=
  if String.eqb text nextText then Some "14.1.0" else None.

(** The packages an audit works on. *)
Definition installed (projectPath language : string) : list Osv.Package :=
  default [] (Inventory.getInstalledPackages files parseManifest parseVersion
                projectPath language).

(** *** Lock files *)

Definition requirements : list Osv.Package :=
  [ {| Osv.name := "flask"; Osv.version := "2.0.1" |};
    {| Osv.name := "typing_extensions"; Osv.version := "4.9.0" |} ].

Definition goSum : string :=
  JS.join JS.nl
    [ "github.com/a/b v1.2.3 h1:abc=";
      "github.com/a/b v1.2.3/go.mod h1:def=";
      "github.com/c/d v0.1.0/go.mod h1:ghi=";
      "github.com/a/b v1.3.0 h1:jkl=" ].

Definition serde : Osv.Package := {| Osv.name := "serde"; Osv.version := "1.0.2" |}.

Definition tokio : Osv.Package := {| Osv.name := "tokio"; Osv.version := "1.35.0" |}.

Definition cargoLock : string :=
  "version = 3" +:+ JS.nl +:+ JS.nl
  +:+ Inventory.packageBlock serde +:+ JS.nl +:+ "source = registry" +:+ JS.nl.

(** *** The changelog report *)

Definition outdatedText : string := "{ report of npm outdated }".
Definition repositoryText : string := "{ repository of left-pad }".

Definition execSync (_ : nat) (command _ : string) (_ : Z) : Report.ExecOutcome :=
  if String.eqb command "npm outdated --json"
  then Report.Throws (Some (outdatedText +:+ JS.nl))
  else if String.eqb command "npm view left-pad repository.url homepage --json"
       then Report.Exits (repositoryText +:+ JS.nl)
       else Report.Throws None.

Definition parseJson (text : string) : option Report.Json :=
  if String.eqb text repositoryText
  then Some (Report.JArray [ Report.JString "git+https://github.com/left-pad/left-pad.git";
                             Report.JString "https://github.com/left-pad/left-pad#readme" ])
  else None.

Definition info (current latest : option string) : Report.OutdatedInfo :=
  {| Report.o_current := current; Report.o_latest := latest |}.

Definition outdated : list (string * Report.OutdatedInfo) :=
  [ ("lodash", info (Some "4.17.20") (Some "4.17.21"));
    ("left-pad", info (Some "1.0.0") (Some "2.0.0"));
    ("express", info (Some "4.18.0") (Some "4.18.0"));
    ("react", info (Some "18.2.0") (Some "18.3.0"));
    ("vite", info None (Some "5.0.0")) ].

Definition parseOutdated (text : string) : option (list (string * Report.OutdatedInfo)) :=
  if String.eqb text outdatedText then Some outdated else None.

Definition existsSync (p : string) : bool := String.eqb p "/home/dev/app/package.json".

Definition getReleaseNotes (_ : nat) (name _ : string) : option string :=
  Some ("Release notes of " +:+ name).

(** *** A package hosted outside GitHub *)

Definition gadgetBody : string := "{ registry document of gadget }".

Definition gadgetJson : Docs.NpmRegistryData :=
  {| Docs.dist_tags_latest := Some "0.3.0";
     Docs.npm_description := Some "A gadget";
     Docs.npm_homepage := Some "https://gadget.example";
     Docs.repository_url := Some "git+https://gitlab.com/acme/gadget.git";
     Docs.npm_readme := Some "Gadget" |}.

Definition parseGadget (body : string) : option Docs.NpmRegistryData :=
  if String.eqb body gadgetBody then Some gadgetJson else None.

Definition gadgetNet (_ : nat) (url : string) : Docs.HttpOutcome :=
  if String.eqb url "https://registry.npmjs.org/gadget"
  then Docs.HttpResponse true (Some gadgetBody)
  else Docs.HttpRejects.

(** *** The dashboard *)

Definition scanRequest : Dashboard.Request :=
  {| Dashboard.method := "POST"; Dashboard.url := "/api/scan" |}.

Definition statusRequest : Dashboard.Request :=
  {| Dashboard.method := "GET"; Dashboard.url := "/api/status" |}.

(** Two requests to scan in a row, then the end of the scan, then a
    third request. *)
Definition traffic : list Dashboard.Event :=
  [ Dashboard.Arrives scanRequest; Dashboard.Arrives scanRequest;
    Dashboard.Settles; Dashboard.Arrives statusRequest; Dashboard.Arrives scanRequest ].

End Samples.


(** * Properties *)

(** ** Background checker *)

Section CheckerProps.
Import Checker.
Context (discoverProjects : list ProjectInfo)
        (getOutdated : string -> ProjectInfo -> option (gmap string OutdatedPkg))
        (isMajorUpdate : string -> string -> bool)
        (now : nat -> string).

(** The score computed step by step is the clamped expression. *)
Lemma healthScore_spec n m : healthScore n m = specScore n m.
Proof. unfold healthScore, specScore, clamp. f_equal. f_equal. lia. Qed.

Lemma healthScore_bounds n m : 0 <= healthScore n m <= 100.
Proof. unfold healthScore. lia. Qed.

(** The scan loop only appends: its entries are those of the projects
    that could be scanned. *)
Lemma scanLoop_acc i projects entries :
  scanLoop getOutdated isMajorUpdate now i projects entries
  = entries ++ scanLoop getOutdated isMajorUpdate now i projects [].
Proof.
  revert i entries. induction projects as [|info rest IH]; intros i entries; simpl.
  - by rewrite app_nil_r.
  - rewrite IH.
    rewrite (IH _ (match scanProject _ _ _ _ _ with Some e => [e] | None => [] end)).
    destruct (scanProject _ _ _ _ _); simpl; by rewrite <- ?app_assoc, ?app_nil_r.
Qed.

Lemma elem_of_scanLoop e i projects :
  e ∈ scanLoop getOutdated isMajorUpdate now i projects []
  <-> exists k info, projects !! k = Some info
        /\ scanProject getOutdated isMajorUpdate now (i + k) info = Some e.
Proof.
  revert i. induction projects as [|info rest IH]; intros i; simpl.
  - split; [by intros ?%elem_of_nil | by intros (k & ? & ? & _)].
  - rewrite scanLoop_acc, elem_of_app, IH. split.
    + intros [He | (k & info' & Hk & He)].
      * exists 0%nat, info. rewrite Nat.add_0_r. split; [done|].
        destruct (scanProject _ _ _ _ _); [|by apply elem_of_nil in He].
        apply list_elem_of_singleton in He. by subst.
      * exists (S k), info'. split; [done|]. by rewrite Nat.add_succ_r.
    + intros ([|k] & info' & Hk & He); simpl in Hk.
      * left. injection Hk as ->. rewrite Nat.add_0_r in He. rewrite He.
        by apply list_elem_of_singleton.
      * right. exists k, info'. split; [done|]. by rewrite Nat.add_succ_r in He.
Qed.

(** C2. For every project whose outdated packages could be listed, with
    [n] outdated packages of which [m] are a major version behind, the
    entry written by the checker has the score
    [clamp(100 - min(3 n, 40) - 10 m, 0, 100)]; the score is 100 for
    [n = 0, m = 0], 60 for [n = 20, m = 0] and 87 for [n = 1, m = 1]. *)
Theorem C2_health_score (run : Run) :
  main discoverProjects getOutdated isMajorUpdate now = Some run ->
  (forall k info outdated,
      discoverProjects !! k = Some info ->
      getOutdated (info_path info) info = Some outdated ->
      exists e, e ∈ written run
        /\ project e = info_name info
        /\ outdatedCount e = countOutdated outdated
        /\ majorCount e = countMajor isMajorUpdate outdated
        /\ score e = clamp 0 100
             (100 - Z.min (3 * countOutdated outdated) 40
                  - 10 * countMajor isMajorUpdate outdated))
  /\ (forall e, e ∈ written run ->
        score e = clamp 0 100 (100 - Z.min (3 * outdatedCount e) 40 - 10 * majorCount e))
  /\ healthScore 0 0 = 100 /\ healthScore 20 0 = 60 /\ healthScore 1 1 = 87.
Proof.
  unfold main. destruct (_ =? _)%nat; [done|]. intros [= <-]. simpl.
  split; [|split; [|done]].
  - intros k info outdated Hk Hout.
    eexists. split.
    + apply elem_of_scanLoop. exists k, info. split; [done|].
      unfold scanProject. rewrite Hout. reflexivity.
    + simpl. repeat split. apply healthScore_spec.
  - intros e (k & info & _ & He)%elem_of_scanLoop.
    unfold scanProject in He. destruct (getOutdated _ _); [|done].
    injection He as <-. simpl. apply healthScore_spec.
Qed.

End CheckerProps.

(** ** Numbers, severities and update types *)

Section JSFacts.

(** Comparisons and [|| 0] on integer-valued numbers. *)
Lemma Qle_bool_inject (a b : Z) : Qle_bool (inject_Z a) (inject_Z b) = (a <=? b).
Proof.
  destruct (Z.leb_spec a b) as [H|H].
  - apply Qle_bool_iff. by rewrite <- Zle_Qle.
  - destruct (Qle_bool _ _) eqn:E; [|done].
    apply Qle_bool_iff in E. rewrite <- Zle_Qle in E. lia.
Qed.

Lemma gt_ofZ (a b : Z) : JS.gt (JS.ofZ a) (JS.ofZ b) = (b <? a).
Proof. unfold JS.gt, JS.ofZ. rewrite Qle_bool_inject. rewrite Z.ltb_antisym. done. Qed.

Lemma orZero_ofZ (z : Z) : JS.orZero (Some (JS.ofZ z)) = JS.ofZ z.
Proof.
  unfold JS.orZero, JS.truthy, JS.ofZ.
  destruct (Qeq_bool (inject_Z z) 0%Q) eqn:E; simpl; [|done].
  apply Qeq_bool_iff in E. change 0%Q with (inject_Z 0) in E.
  by rewrite (proj1 (inject_Z_injective z 0) E).
Qed.

End JSFacts.

Section OsvSeverity.
Import Osv.

(** The threshold ladder, for a score that is present and truthy. *)
Lemma mapSeverity_ladder (s : JS.number) :
  JS.truthy s = true ->
  mapSeverity (Some s) =
    if JS.ge s (JS.ofZ 9) then Critical
    else if JS.ge s (JS.ofZ 7) then High
    else if JS.ge s (JS.ofZ 4) then Moderate
    else Low.
Proof. intros H. unfold mapSeverity, noScore. by rewrite H. Qed.

(** A score that reaches a positive threshold is truthy. *)
Lemma ge_truthy (s : JS.number) (z : Z) :
  0 < z -> JS.ge s (JS.ofZ z) = true -> JS.truthy s = true.
Proof.
  intros Hz. destruct s as [q| | |]; simpl; try done.
  intros H%Qle_bool_iff.
  destruct (Qeq_bool q 0%Q) eqn:E; [|done].
  apply Qeq_bool_iff in E. rewrite E in H.
  change 0%Q with (inject_Z 0) in H. rewrite <- Zle_Qle in H. lia.
Qed.

(** A score that reaches a threshold reaches every lower one. *)
Lemma ge_mono (s : JS.number) (a b : Z) :
  a <= b -> JS.ge s (JS.ofZ b) = true -> JS.ge s (JS.ofZ a) = true.
Proof.
  intros Hab. destruct s as [q| | |]; try done.
  unfold JS.ge, JS.ofZ. intros H%Qle_bool_iff. apply Qle_bool_iff.
  apply Qle_trans with (inject_Z b); [|done]. by rewrite <- Zle_Qle.
Qed.

Lemma ge_mono_false (s : JS.number) (a b : Z) :
  a <= b -> JS.ge s (JS.ofZ a) = false -> JS.ge s (JS.ofZ b) = false.
Proof.
  intros Hab Ha. destruct (JS.ge s (JS.ofZ b)) eqn:Hb; [|done].
  by rewrite (ge_mono s a b Hab Hb) in Ha.
Qed.

(** C3, as amended.  A present score [s] is mapped to [Critical] when
    [s >= 9.0], to [High] when [7.0 <= s < 9.0], to [Moderate] when
    [4.0 <= s < 7.0], and to [Low] when it is below [4.0] and truthy, that
    is, not zero; a score that is missing or falsy (zero, [NaN]) is mapped
    to [Moderate]. *)
Theorem C3_mapSeverity_thresholds (s : JS.number) :
  (JS.ge s (JS.ofZ 9) = true -> mapSeverity (Some s) = Critical)
  /\ (JS.ge s (JS.ofZ 7) = true -> JS.ge s (JS.ofZ 9) = false ->
        mapSeverity (Some s) = High)
  /\ (JS.ge s (JS.ofZ 4) = true -> JS.ge s (JS.ofZ 7) = false ->
        mapSeverity (Some s) = Moderate)
  /\ (JS.truthy s = true -> JS.ge s (JS.ofZ 4) = false ->
        mapSeverity (Some s) = Low)
  /\ (JS.truthy s = false -> mapSeverity (Some s) = Moderate)
  /\ mapSeverity None = Moderate.
Proof.
  repeat split.
  - intros H9. rewrite mapSeverity_ladder by (by apply (ge_truthy s 9)).
    by rewrite H9.
  - intros H7 H9. rewrite mapSeverity_ladder by (by apply (ge_truthy s 7)).
    by rewrite H9, H7.
  - intros H4 H7. rewrite mapSeverity_ladder by (by apply (ge_truthy s 4)).
    by rewrite (ge_mono_false s 7 9), H7, H4.
  - intros Ht H4. rewrite mapSeverity_ladder by done.
    by rewrite (ge_mono_false s 4 9), (ge_mono_false s 4 7), H4.
  - intros Hf. unfold mapSeverity, noScore. by rewrite Hf.
Qed.

End OsvSeverity.

Section ChangelogProps.
Import Changelog.
Context (toNumber : string -> JS.number).

(** [Number] reads a string of decimal digits exactly as long as its value
    is below [2^53]. *)
Hypothesis toNumber_decimal :
  forall s, numeric_component s = true -> decimal s < 2 ^ 53 ->
            toNumber s = JS.ofZ (decimal s).

Lemma orZero_component (s : string) (k : nat) :
  dotted_numeric s = true ->
  safe_components s = true ->
  JS.orZero (map toNumber (JS.split "." s) !! k) = JS.ofZ (component (components s) k).
Proof.
  unfold dotted_numeric, safe_components, components, component. intros H Hsafe.
  rewrite !list_lookup_fmap.
  destruct (JS.split "." s !! k) as [c|] eqn:E; simpl; [|done].
  assert (In c (JS.split "." s)) as Hc
    by (apply list_elem_of_In; by eapply list_elem_of_lookup_2).
  rewrite forallb_forall in H. rewrite forallb_forall in Hsafe.
  rewrite toNumber_decimal; [apply orZero_ofZ|by apply H|].
  apply Z.ltb_lt. by apply Hsafe.
Qed.

(** C9, as amended.  For dotted numeric versions whose components are
    below [2^53], with [latest] strictly greater than [current],
    [getUpdateType] classifies by the first differing component: [Major]
    when the leading components differ, [Minor] when they are equal and
    the second components differ, [Patch] otherwise; 3.2.0 to 4.0.0 is
    major, 3.2.0 to 3.5.0 is minor and 3.2.0 to 3.2.9 is patch.  The
    components are read as numbers, which is exact below [2^53]. *)
Theorem C9_update_type :
  (forall current latest,
      dotted_numeric current = true ->
      dotted_numeric latest = true ->
      safe_components current = true ->
      safe_components latest = true ->
      version_lt (components current) (components latest) ->
      getUpdateType toNumber current latest
      = classify (components current) (components latest))
  /\ getUpdateType toNumber "3.2.0" "4.0.0" = Major
  /\ getUpdateType toNumber "3.2.0" "3.5.0" = Minor
  /\ getUpdateType toNumber "3.2.0" "3.2.9" = Patch.
Proof.
  assert (forall current latest,
      dotted_numeric current = true ->
      dotted_numeric latest = true ->
      safe_components current = true ->
      safe_components latest = true ->
      version_lt (components current) (components latest) ->
      getUpdateType toNumber current latest
      = classify (components current) (components latest)) as Hgen.
  { intros current latest Hc Hl Sc Sl (k & Heq & Hlt). unfold getUpdateType, classify.
    rewrite !orZero_component, !gt_ofZ by done.
    destruct k as [|[|k]].
    - rewrite (proj2 (Z.ltb_lt _ _) Hlt).
      by rewrite (proj2 (Z.eqb_neq _ _)) by lia.
    - rewrite (Heq 0%nat) by lia. rewrite Z.ltb_irrefl, Z.eqb_refl.
      rewrite (proj2 (Z.ltb_lt _ _) Hlt).
      by rewrite (proj2 (Z.eqb_neq _ _)) by lia.
    - rewrite (Heq 0%nat), (Heq 1%nat) by lia.
      by rewrite !Z.ltb_irrefl, !Z.eqb_refl. }
  split; [exact Hgen|].
  split; [|split].
  - rewrite Hgen; [done..|]. exists 0%nat. split; [lia|done].
  - rewrite Hgen; [done..|]. exists 1%nat. split; [|done].
    intros [|j] ?; [done|lia].
  - rewrite Hgen; [done..|]. exists 2%nat. split; [|done].
    intros [|[|j]] ?; [done|done|lia].
Qed.

End ChangelogProps.

(** ** OSV batch client *)

Lemma flat_map_ext_elem {A B} (f g : A -> list B) (l : list A) :
  (forall x, x ∈ l -> f x = g x) -> flat_map f l = flat_map g l.
Proof.
  induction l as [|a l IH]; intros H; simpl; [done|].
  rewrite H by apply list_elem_of_here. f_equal.
  apply IH. intros x Hx. apply H. by apply list_elem_of_further.
Qed.

Section OsvClient.
Import Osv.
Local Open Scope nat_scope.
Context (fetch : nat -> list Query -> FetchOutcome).
Context (packages : list Package) (eco : string).

Local Notation "'qs'" := (queries packages eco).

(** The loops of [queryOsv] only append to [vulns]. *)
Lemma pushAll_eq pkg advs vulns :
  pushAll eco pkg advs vulns = vulns ++ map (mkVulnerability eco pkg) advs.
Proof.
  unfold pushAll. revert vulns.
  induction advs as [|v advs IH]; intros vulns; simpl.
  - by rewrite app_nil_r.
  - by rewrite IH, <- app_assoc.
Qed.

Lemma resultsLoop_acc i j rs vulns :
  resultsLoop packages eco i j rs vulns
  = vulns ++ resultsLoop packages eco i j rs [].
Proof.
  revert j vulns. induction rs as [|r rs IH]; intros j vulns; simpl.
  - by rewrite app_nil_r.
  - destruct (r_vulns r) as [[|v advs]|]; [apply IH| |apply IH].
    destruct (packages !! (i + j)) as [pkg|]; [|by rewrite app_nil_r].
    rewrite IH, (IH _ (pushAll _ _ _ [])), !pushAll_eq. simpl.
    by rewrite <- app_assoc.
Qed.

Lemma handleOutcome_acc i outcome vulns :
  handleOutcome packages eco i outcome vulns
  = vulns ++ handleOutcome packages eco i outcome [].
Proof.
  destruct outcome as [|[] [[[rs|]]|]]; simpl; rewrite ?app_nil_r; try done.
  apply resultsLoop_acc.
Qed.

Lemma slice_batch (k : nat) : slice qs (100 * k) (100 * k + 100) = batchOf qs k.
Proof. unfold slice, batchOf. f_equal. lia. Qed.

Lemma batchCount_more n k : 100 * k < n -> batchCount n - k = S (batchCount n - S k).
Proof.
  unfold batchCount. intros H.
  assert (S k <= (n + 99) / 100); [|lia].
  apply Nat.div_le_lower_bound; lia.
Qed.

Lemma batchCount_done n k : n <= 100 * k -> batchCount n - k = 0.
Proof.
  unfold batchCount. intros H.
  assert ((n + 99) / 100 <= k); [|lia].
  apply Nat.lt_succ_r. apply Nat.Div0.div_lt_upper_bound; lia.
Qed.

Lemma batchCount_lt n k : k < batchCount n <-> 100 * k < n.
Proof.
  split; intros H.
  - destruct (Nat.le_gt_cases n (100 * k)) as [Hle|]; [|done].
    apply (batchCount_done _ k) in Hle. lia.
  - apply (batchCount_more _ k) in H. lia.
Qed.

Lemma batchLoop_S fuel i st :
  batchLoop fetch packages eco (S fuel) i st
  = if i <? length qs then
      batchLoop fetch packages eco fuel (i + 100)
        {| st_vulns := handleOutcome packages eco i
                         (fetch (length (st_sent st)) (slice qs i (i + 100)))
                         (st_vulns st);
           st_sent := st_sent st ++ [slice qs i (i + 100)] |}
    else st.
Proof. reflexivity. Qed.

(** The batch loop, from batch [k] on. *)
Lemma batchLoop_from fuel k st :
  length qs <= 100 * k + fuel ->
  batchLoop fetch packages eco fuel (100 * k) st
  = {| st_vulns :=
         st_vulns st ++
         flat_map (fun k' => batchVulns packages eco k'
                     (fetch (length (st_sent st) + (k' - k)) (batchOf qs k')))
                  (seq k (batchCount (length qs) - k));
       st_sent := st_sent st ++ map (batchOf qs) (seq k (batchCount (length qs) - k)) |}.
Proof.
  revert k st. induction fuel as [|fuel IH]; intros k st Hfuel.
  - rewrite batchCount_done by lia. simpl. rewrite !app_nil_r. by destruct st.
  - rewrite batchLoop_S. destruct (Nat.ltb_spec (100 * k) (length qs)) as [Hlt|Hge].
    + rewrite slice_batch.
      replace (100 * k + 100) with (100 * S k) by lia.
      rewrite IH by lia. cbn [st_vulns st_sent].
      rewrite (batchCount_more _ k) by done. cbn [seq flat_map map].
      rewrite length_app. cbn [length].
      rewrite handleOutcome_acc, Nat.sub_diag, Nat.add_0_r, <- !app_assoc.
      f_equal. f_equal. unfold batchVulns at 2. f_equal.
      apply flat_map_ext_elem. intros k' Hk'%elem_of_seq.
      do 2 f_equal. lia.
    + rewrite batchCount_done by lia. simpl. rewrite !app_nil_r. by destruct st.
Qed.

(** [queryOsv] as the concatenation of the contributions of its batches. *)
Lemma queryOsvFrom_spec sent :
  queryOsvFrom fetch packages eco sent
  = {| st_vulns :=
         flat_map (fun k => batchVulns packages eco k
                     (fetch (length sent + k) (batchOf qs k)))
                  (seq 0 (batchCount (length packages)));
       st_sent := sent ++ map (batchOf qs) (seq 0 (batchCount (length packages))) |}.
Proof.
  unfold queryOsvFrom.
  rewrite (batchLoop_from _ 0) by lia. simpl.
  assert (length qs = length packages) as -> by apply length_map.
  rewrite Nat.sub_0_r. f_equal.
  apply flat_map_ext_elem. intros k _. by rewrite Nat.sub_0_r.
Qed.

Lemma queryOsv_spec :
  queryOsv fetch packages eco
  = flat_map (fun k => batchVulns packages eco k (fetch k (batchOf qs k)))
             (seq 0 (batchCount (length packages))).
Proof. unfold queryOsv. by rewrite queryOsvFrom_spec. Qed.

Lemma requestsOf_spec :
  requestsOf fetch packages eco
  = map (batchOf qs) (seq 0 (batchCount (length packages))).
Proof. unfold requestsOf. by rewrite queryOsvFrom_spec. Qed.

(** The batches, put end to end, give the list back. *)
Lemma concat_batches {A} (l : list A) m j :
  length l <= 100 * (j + m) ->
  concat (map (batchOf l) (seq j m)) = drop (100 * j) l.
Proof.
  revert j. induction m as [|m IH]; intros j H; simpl.
  - symmetry. apply drop_ge. lia.
  - rewrite IH by lia. unfold batchOf.
    replace (100 * S j) with (100 * j + 100) by lia.
    rewrite <- drop_drop. apply take_drop.
Qed.

Lemma batchCount_cover n : n <= 100 * batchCount n.
Proof.
  destruct (Nat.le_gt_cases n (100 * batchCount n)) as [|H]; [done|].
  apply batchCount_lt in H. lia.
Qed.

Lemma length_batchOf {A} (l : list A) k :
  length (batchOf l k) = Nat.min 100 (length l - 100 * k).
Proof. unfold batchOf. by rewrite length_take, length_drop. Qed.

(** Results that stay within the package list are attributed by
    position, without any of them being dropped. *)
Lemma resultsLoop_positional i rs j :
  (forall j', j' < length rs -> is_Some (packages !! (i + (j + j')))) ->
  resultsLoop packages eco i j rs []
  = concat (imap (fun j' r =>
                    match packages !! (i + (j + j')) with
                    | Some pkg => map (mkVulnerability eco pkg) (advisoriesOf r)
                    | None => []
                    end) rs).
Proof.
  revert j. induction rs as [|r rs IH]; intros j H; [done|].
  cbn [resultsLoop imap concat].
  assert (resultsLoop packages eco i (S j) rs []
          = concat (imap ((fun j' r0 =>
                    match packages !! (i + (j + j')) with
                    | Some pkg => map (mkVulnerability eco pkg) (advisoriesOf r0)
                    | None => []
                    end) ∘ S) rs)) as Hrest.
  { rewrite IH.
    - f_equal. apply imap_ext. intros j' r' _. simpl.
      by replace (i + S (j + j')) with (i + (j + S j')) by lia.
    - intros j' Hj'. replace (i + (S j + j')) with (i + (j + S j')) by lia.
      apply H. simpl. lia. }
  rewrite Nat.add_0_r.
  destruct (H 0) as [pkg Hpkg]; [simpl; lia|]. rewrite Nat.add_0_r in Hpkg.
  rewrite Hpkg. unfold advisoriesOf at 1.
  destruct (r_vulns r) as [[|v advs]|]; simpl; [done| |done].
  rewrite resultsLoop_acc, pushAll_eq, Hrest. done.
Qed.

(** Whatever the answer, an advisory that reaches the result is attributed
    to the package at the position of its result entry. *)
Lemma resultsLoop_sound i rs j x :
  x ∈ resultsLoop packages eco i j rs [] ->
  exists j' r advs v pkg,
    rs !! j' = Some r /\ r_vulns r = Some advs /\ v ∈ advs
    /\ packages !! (i + (j + j')) = Some pkg
    /\ x = mkVulnerability eco pkg v.
Proof.
  revert j. induction rs as [|r rs IH]; intros j; cbn [resultsLoop].
  - by intros ?%elem_of_nil.
  - assert (x ∈ resultsLoop packages eco i (S j) rs [] ->
            exists j' r0 advs v pkg,
              (r :: rs) !! j' = Some r0 /\ r_vulns r0 = Some advs /\ v ∈ advs
              /\ packages !! (i + (j + j')) = Some pkg
              /\ x = mkVulnerability eco pkg v) as Hrest.
    { intros (j' & r0 & advs & v & pkg & ? & ? & ? & Hp & ?)%IH.
      exists (S j'), r0, advs, v, pkg. repeat split; try done.
      by replace (i + (j + S j')) with (i + (S j + j')) by lia. }
    destruct (r_vulns r) as [[|v0 advs]|] eqn:Hr; [done| |done].
    destruct (packages !! (i + j)) as [pkg|] eqn:Hpkg; [|by intros ?%elem_of_nil].
    rewrite resultsLoop_acc, pushAll_eq. intros [Hx|Hx]%elem_of_app; [|auto].
    apply list_elem_of_In, in_map_iff in Hx as (v & <- & Hv%list_elem_of_In).
    exists 0, r, (v0 :: advs), v, pkg. rewrite !Nat.add_0_r. done.
Qed.

Lemma batchVulns_answer k outcome :
  batchVulns packages eco k outcome
  = resultsLoop packages eco (100 * k) 0 (answerOf outcome) [].
Proof. unfold batchVulns. by destruct outcome as [|[] [[[rs|]]|]]. Qed.

(** C1. [queryOsv] cuts the package list into consecutive batches of 100
    and sends one request per batch (three for 250 packages).  Every
    vulnerability it returns comes from an advisory at some index [j] of
    the answer to some batch [k], and carries the package at index
    [100 k + j] of the whole list; when no answer is longer than its
    batch, the result is exactly the positional attribution of all
    answers. *)
Theorem C1_batches_positional :
  (* partition into consecutive batches of 100 *)
  requestsOf fetch packages eco
    = map (batchOf qs) (seq 0 (batchCount (length packages)))
  /\ concat (requestsOf fetch packages eco) = qs
  /\ (forall k, S k < batchCount (length packages) -> length (batchOf qs k) = 100)
  /\ (length packages = 250 -> length (requestsOf fetch packages eco) = 3)
  (* every reported vulnerability belongs to the package at position 100 k + j *)
  /\ (forall x, x ∈ queryOsv fetch packages eco ->
        exists k j r advs v pkg,
          k < batchCount (length packages)
          /\ answerOf (fetch k (batchOf qs k)) !! j = Some r
          /\ r_vulns r = Some advs /\ v ∈ advs
          /\ packages !! (100 * k + j) = Some pkg
          /\ x = mkVulnerability eco pkg v)
  (* with one result per query at most, nothing is lost or moved *)
  /\ ((forall k, k < batchCount (length packages) ->
         length (answerOf (fetch k (batchOf qs k))) <= length (batchOf qs k)) ->
      queryOsv fetch packages eco
      = flat_map (fun k => positional packages eco k (answerOf (fetch k (batchOf qs k))))
                 (seq 0 (batchCount (length packages)))).
Proof.
  assert (length qs = length packages) as Hlen by apply length_map.
  split; [apply requestsOf_spec|].
  split.
  { rewrite requestsOf_spec, concat_batches; [done|].
    rewrite Hlen. apply batchCount_cover. }
  split.
  { intros k Hk. rewrite length_batchOf, Hlen.
    apply batchCount_lt in Hk. lia. }
  split.
  { intros H. rewrite requestsOf_spec, length_map, length_seq, H. reflexivity. }
  split.
  - intros x. rewrite queryOsv_spec, list_elem_of_In, in_flat_map.
    intros (k & Hk%in_seq & Hx%list_elem_of_In).
    rewrite batchVulns_answer in Hx.
    apply resultsLoop_sound in Hx as (j & r & advs & v & pkg & ? & ? & ? & ? & ?).
    exists k, j, r, advs, v, pkg. repeat split; try done. lia.
  - intros Hwf. rewrite queryOsv_spec.
    apply flat_map_ext_elem. intros k Hk%elem_of_seq.
    rewrite batchVulns_answer. apply resultsLoop_positional.
    intros j Hj. apply lookup_lt_is_Some.
    assert (length (answerOf (fetch k (batchOf qs k))) <= length (batchOf qs k)) as Hle
      by (apply Hwf; lia).
    rewrite length_batchOf, Hlen in Hle. lia.
Qed.

(** Whatever the answer holds, the loop over its entries attributes
    them by position: an entry beyond the end of the package list ends
    the loop when it has advisories, and the entries after it lie beyond
    the end as well. *)
Lemma resultsLoop_attributes i rs j :
  resultsLoop packages eco i j rs []
  = concat (imap (fun j' r =>
                    match packages !! (i + (j + j')) with
                    | Some pkg => map (mkVulnerability eco pkg) (advisoriesOf r)
                    | None => []
                    end) rs).
Proof.
  revert j. induction rs as [|r rs IH]; intros j; [done|].
  cbn [resultsLoop imap concat].
  assert (resultsLoop packages eco i (S j) rs []
          = concat (imap ((fun j' r0 =>
                    match packages !! (i + (j + j')) with
                    | Some pkg => map (mkVulnerability eco pkg) (advisoriesOf r0)
                    | None => []
                    end) ∘ S) rs)) as Hrest.
  { rewrite IH. f_equal. apply imap_ext. intros j' r' _. simpl.
    by replace (i + S (j + j')) with (i + (j + S j')) by lia. }
  rewrite Nat.add_0_r. unfold advisoriesOf at 1.
  destruct (r_vulns r) as [[|v advs]|] eqn:Hr; cbn [default].
  - rewrite Hrest. by destruct (packages !! (i + j)).
  - destruct (packages !! (i + j)) as [pkg|] eqn:Hpkg.
    + rewrite resultsLoop_acc, pushAll_eq, Hrest. done.
    + symmetry. cbn [app]. apply concat_nil_Forall, Forall_forall.
      intros l (j' & r' & -> & _)%elem_of_lookup_imap. simpl.
      rewrite (proj2 (lookup_ge_None packages (i + (j + S j')))); [done|].
      apply lookup_ge_None in Hpkg. lia.
  - rewrite Hrest. by destruct (packages !! (i + j)).
Qed.

Lemma batchVulns_positional k outcome :
  batchVulns packages eco k outcome = positional packages eco k (answerOf outcome).
Proof.
  rewrite batchVulns_answer, resultsLoop_attributes. reflexivity.
Qed.

(** C8. When the request for batch [k] fails, times out or is answered
    with a non-OK status, [queryOsv] does not stop: every batch is still
    requested, the failed batch adds nothing, and the result is made, in
    order, of what the answers to the other batches hold, every advisory
    of such an answer being reported for the package at its position. *)
Theorem C8_failed_batch_skipped (k : nat) :
  k < batchCount (length packages) ->
  failed (fetch k (batchOf qs k)) = true ->
  queryOsv fetch packages eco
  = flat_map (fun k' => positional packages eco k' (answerOf (fetch k' (batchOf qs k'))))
             (seq 0 k)
    ++ flat_map (fun k' => positional packages eco k' (answerOf (fetch k' (batchOf qs k'))))
                (seq (S k) (batchCount (length packages) - S k))
  /\ (forall k' rs j r advs v pkg,
        k' < batchCount (length packages) -> k' <> k ->
        fetch k' (batchOf qs k') = Response true (Some {| results := Some rs |}) ->
        rs !! j = Some r -> r_vulns r = Some advs -> v ∈ advs ->
        packages !! (100 * k' + j) = Some pkg ->
        mkVulnerability eco pkg v ∈ queryOsv fetch packages eco)
  /\ length (requestsOf fetch packages eco) = batchCount (length packages).
Proof.
  intros Hk Hfail.
  assert (queryOsv fetch packages eco
          = flat_map (fun k' => positional packages eco k'
                                  (answerOf (fetch k' (batchOf qs k'))))
                     (seq 0 (batchCount (length packages)))) as Hall.
  { rewrite queryOsv_spec. apply flat_map_ext_elem. intros k' _.
    apply batchVulns_positional. }
  split; [|split].
  - rewrite Hall.
    replace (batchCount (length packages))
      with (k + S (batchCount (length packages) - S k)) at 1 by lia.
    rewrite seq_app, flat_map_app. change (0 + k) with k. cbn [seq flat_map]. f_equal.
    assert (answerOf (fetch k (batchOf qs k)) = []) as ->
      by (by destruct (fetch k (batchOf qs k)) as [|[] ?]).
    done.
  - intros k' rs j r advs v pkg Hk' _ Hfetch Hr Hadvs Hv Hpkg.
    rewrite Hall. apply list_elem_of_In, in_flat_map.
    exists k'. split; [apply in_seq; lia|]. apply list_elem_of_In.
    rewrite Hfetch. cbn [answerOf results default]. unfold positional.
    apply list_elem_of_In, in_concat.
    exists (map (mkVulnerability eco pkg) (advisoriesOf r)). split.
    + apply list_elem_of_In, elem_of_lookup_imap. exists j, r. by rewrite Hpkg.
    + unfold advisoriesOf. rewrite Hadvs. simpl.
      apply in_map. by apply list_elem_of_In.
  - by rewrite requestsOf_spec, length_map, length_seq.
Qed.

End OsvClient.

(** ** Documentation aggregator *)

Section DocsShape.
Import Docs.
Local Open Scope nat_scope.

(** Lines that do not match mark nothing. *)
Lemma markLines_no_match keywords contextLines total i rest matched :
  Forall (fun l => lineMatches keywords l = false) rest ->
  markLines keywords contextLines total i rest matched = matched.
Proof.
  intros H. revert i. induction H as [|l rest Hl _ IH]; intros i; simpl; [done|].
  by rewrite Hl, IH.
Qed.

Lemma filterByQuery_no_match text q contextLines :
  Forall (fun l => lineMatches (keywordsOf q) l = false) (JS.split JS.LF text) ->
  filterByQuery text (Some q) contextLines = text.
Proof.
  intros H. unfold filterByQuery.
  destruct (JS.falsy_str q || JS.falsy_str text); [done|].
  by rewrite markLines_no_match.
Qed.

Lemma truncateDoc_short text maxLines :
  length (JS.split JS.LF text) <= maxLines -> truncateDoc text maxLines = text.
Proof.
  intros H. unfold truncateDoc.
  by rewrite (proj2 (Nat.leb_le _ _) H).
Qed.

(** C4, as amended.  For a non-empty query none of whose keywords occurs
    in any line of the text, [filterByQuery] returns the text unchanged;
    the section that is returned is that text after the usual truncation:
    the text itself when it has at most [maxLines] lines, and otherwise
    its first [maxLines] lines followed by the truncation marker. *)
Theorem C4_no_match_then_truncated (text q : string) (maxLines : nat) :
  q <> EmptyString ->
  Forall (fun l => lineMatches (keywordsOf q) l = false) (JS.split JS.LF text) ->
  filterByQuery text (Some q) 5 = text
  /\ shape text (Some q) maxLines = truncateDoc text maxLines
  /\ (length (JS.split JS.LF text) <= maxLines -> shape text (Some q) maxLines = text)
  /\ (maxLines < length (JS.split JS.LF text) ->
      shape text (Some q) maxLines
      = JS.join JS.nl (take maxLines (JS.split JS.LF text))
        +:+ JS.nl +:+ JS.nl +:+ "... (truncated, "
        +:+ JS.show_nat (length (JS.split JS.LF text) - maxLines) +:+ " more lines)").
Proof.
  intros Hq Hno.
  assert (filterByQuery text (Some q) 5 = text) as Hf
    by by apply filterByQuery_no_match.
  assert (shape text (Some q) maxLines = truncateDoc text maxLines) as Hs.
  { unfold shape. destruct q; [done|]. cbn [JS.falsy_str]. by rewrite Hf. }
  repeat split; [done|done| |].
  - intros Hle. rewrite Hs. by apply truncateDoc_short.
  - intros Hlt. rewrite Hs. unfold truncateDoc.
    by rewrite (proj2 (Nat.leb_gt _ _) Hlt).
Qed.

End DocsShape.

Section DocsErrors.
Import Docs.
Local Open Scope nat_scope.
Context (fetch : nat -> string -> HttpOutcome)
        (parseNpmJson : string -> option NpmRegistryData)
        (encodeURIComponent : string -> string).

Lemma find_all_None (l : list (option string)) :
  Forall (fun r => r = None) l -> List.find longEnough l = None.
Proof. induction 1 as [|r l -> _ IH]; [done|]. simpl. exact IH. Qed.

(** [fetchUrl] answers [null] exactly on a failed request. *)
Lemma fetchUrl_failed n url :
  httpFailed (fetch n url) = true -> fetchUrl fetch n url = None.
Proof. unfold fetchUrl. by destruct (fetch n url) as [|[] []]. Qed.

Lemma fetchUrl_Some n url body :
  fetchUrl fetch n url = Some body <-> fetch n url = HttpResponse true (Some body).
Proof.
  unfold fetchUrl. destruct (fetch n url) as [|[] []]; split; intros H; by simplify_eq.
Qed.

Lemma fetchUrl_None n url :
  fetchUrl fetch n url = None <-> httpFailed (fetch n url) = true.
Proof.
  unfold fetchUrl. by destruct (fetch n url) as [|[] []].
Qed.

(** When every candidate fails, each step leaves its field empty. *)
Lemma firstFound_fail n owner repo paths :
  (forall m p, p ∈ paths -> httpFailed (fetch m (rawUrl owner repo p)) = true) ->
  fetchFirstFound fetch n owner repo paths = (EmptyString, n + length paths).
Proof.
  intros H. apply injective_projections; [|done].
  unfold fetchFirstFound. simpl. rewrite find_all_None; [done|].
  apply Forall_forall. intros r (i & p & -> & Hp)%elem_of_lookup_imap.
  apply fetchUrl_failed, H. by eapply list_elem_of_lookup_2.
Qed.

Lemma readmeStep_fail n npmJson gh query :
  candidatesFail fetch gh README_FILES ->
  fst (readmeStep fetch n npmJson gh query) = embeddedReadme npmJson gh query.
Proof.
  intros Hfail. unfold readmeStep, embeddedReadme.
  destruct gh as [[owner repo]|].
  - destruct (JS.falsy_str (JS.opt_or_str (npm_readme npmJson) "")) eqn:E1; cbn [orb].
    + rewrite firstFound_fail by (intros; by eapply Hfail). done.
    + destruct (JS.length _ <? 100) eqn:E2.
      * rewrite firstFound_fail by (intros; by eapply Hfail). done.
      * rewrite E1. done.
  - by destruct (JS.falsy_str _).
Qed.

Lemma changelogStep_fail n pkg owner repo query :
  candidatesFail fetch (Some (owner, repo)) (changelogCandidates pkg) ->
  fst (changelogStep fetch n pkg owner repo query) = EmptyString.
Proof.
  intros Hfail. unfold changelogStep.
  rewrite firstFound_fail by (intros; by eapply Hfail). done.
Qed.

(** Step 5 throws exactly for a name that the table only inherits. *)
Lemma migrationStep_throws n pkg owner repo query :
  migrationStep fetch n pkg owner repo query = None <-> ownKey pkg = false.
Proof.
  unfold migrationStep, ownKey.
  destruct (knownPathsOf pkg) as [[ps|]|]; [|done|done].
  by destruct (fetchFirstFound fetch n owner repo ps).
Qed.

Lemma migrationStep_fail n pkg owner repo query guide n' :
  candidatesFail fetch (Some (owner, repo)) (migrationCandidates pkg) ->
  migrationStep fetch n pkg owner repo query = Some (guide, n') ->
  guide = EmptyString.
Proof.
  intros Hfail. unfold migrationStep, genericStep.
  assert (forall m p, p ∈ getMonorepoPaths (baseNameOf pkg) MIGRATION_FILES ->
            httpFailed (fetch m (rawUrl owner repo p)) = true) as Hgeneric.
  { intros m p Hp. eapply Hfail; [done|].
    unfold migrationCandidates. apply elem_of_app. by right. }
  pose proof Hfail as Hknown. unfold candidatesFail, migrationCandidates in Hknown.
  destruct (knownPathsOf pkg) as [[ps|]|]; [| done |].
  - rewrite firstFound_fail.
    + cbn [JS.falsy_str]. rewrite firstFound_fail by done. by intros [= <- _].
    + intros m p Hp. eapply Hknown; [done|]. apply elem_of_app. by left.
  - cbn [JS.falsy_str]. rewrite firstFound_fail by done. by intros [= <- _].
Qed.

(** With usable registry data, the call throws exactly when step 5 is
    entered for a name that the table only inherits. *)
Lemma fetchLibraryDocs_usable pkg query opts body npmJson :
  fetch 0 (registryUrl encodeURIComponent pkg) = HttpResponse true (Some body) ->
  body <> EmptyString ->
  parseNpmJson body = Some npmJson ->
  let gh := extractGitHubRepo (JS.opt_or_str (repository_url npmJson) "") in
  (ownKey pkg = false /\ gh <> None /\ enabled (opt_migration opts) = true
   /\ fetchLibraryDocs fetch parseNpmJson encodeURIComponent pkg query opts
      = inl MapIsNotAFunction)
  \/ ((ownKey pkg = true \/ gh = None \/ enabled (opt_migration opts) = false)
      /\ exists res,
           fetchLibraryDocs fetch parseNpmJson encodeURIComponent pkg query opts = inr res
           /\ (candidatesFail fetch gh README_FILES ->
               readme res = if enabled (opt_readme opts)
                            then embeddedReadme npmJson gh query else EmptyString)
           /\ (candidatesFail fetch gh (changelogCandidates pkg) ->
               changelog res = EmptyString)
           /\ (candidatesFail fetch gh (migrationCandidates pkg) ->
               migrationGuide res = EmptyString)).
Proof.
  intros Hfetch Hbody Hparse gh.
  unfold fetchLibraryDocs.
  rewrite (proj2 (fetchUrl_Some _ _ _) Hfetch).
  destruct body as [|a body]; [done|]. cbn [JS.falsy_str]. rewrite Hparse.
  fold gh.
  destruct (if enabled (opt_readme opts) then readmeStep fetch 1 npmJson gh query
            else (EmptyString, 1)) as [rd n1] eqn:E1.
  destruct (match gh with
            | Some (owner, repo) =>
                if enabled (opt_changelog opts)
                then changelogStep fetch n1 pkg owner repo query
                else (EmptyString, n1)
            | None => (EmptyString, n1)
            end) as [cl n2] eqn:E2.
  destruct (match gh with
            | Some (owner, repo) =>
                if enabled (opt_migration opts)
                then migrationStep fetch n2 pkg owner repo query
                else Some (EmptyString, n2)
            | None => Some (EmptyString, n2)
            end) as [[mg n3]|] eqn:E3.
  - right. split.
    { destruct gh as [[owner repo]|]; [|by auto].
      destruct (enabled (opt_migration opts)); [|by auto].
      left. destruct (ownKey pkg) eqn:Hk; [done|].
      apply (migrationStep_throws n2 pkg owner repo query) in Hk. congruence. }
    eexists. split; [reflexivity|]. cbn [readme changelog migrationGuide].
    split; [|split]; intros Hfail.
    + apply (f_equal fst) in E1. cbn [fst] in E1. subst rd.
      destruct (enabled (opt_readme opts)); [|done].
      by apply readmeStep_fail.
    + apply (f_equal fst) in E2. cbn [fst] in E2. subst cl.
      destruct gh as [[owner repo]|]; [|done].
      destruct (enabled (opt_changelog opts)); [|done].
      by apply changelogStep_fail.
    + destruct gh as [[owner repo]|]; [|by injection E3 as <- _].
      destruct (enabled (opt_migration opts)); [|by injection E3 as <- _].
      by eapply migrationStep_fail.
  - left. destruct gh as [[owner repo]|]; [|done].
    destruct (enabled (opt_migration opts)); [|done].
    apply migrationStep_throws in E3. done.
Qed.


End DocsErrors.

(** ** Migration pattern engine *)

(** A loop that appends to its accumulator computes a [flat_map]. *)
Lemma fold_left_push {A B} (step : list B -> A -> list B) (g : A -> list B)
    (l : list A) (acc : list B) :
  (forall acc x, step acc x = acc ++ g x) ->
  fold_left step l acc = acc ++ flat_map g l.
Proof.
  intros Hstep. revert acc. induction l as [|x l IH]; intros acc; simpl.
  - by rewrite app_nil_r.
  - by rewrite IH, Hstep, <- app_assoc.
Qed.

(** A [flat_map] over distinct elements whose images are duplicate-free and
    pairwise disjoint is duplicate-free. *)
Lemma NoDup_flat_map {A B} (g : A -> list B) (l : list A) :
  NoDup l ->
  (forall x, x ∈ l -> NoDup (g x)) ->
  (forall x y b, x ∈ l -> y ∈ l -> b ∈ g x -> b ∈ g y -> x = y) ->
  NoDup (flat_map g l).
Proof.
  induction 1 as [|x l Hx Hl IH]; intros Hg Hdisj; simpl; [constructor|].
  apply NoDup_app. split; [apply Hg, list_elem_of_here|]. split.
  - intros b Hb Hb'.
    apply list_elem_of_In, in_flat_map in Hb'
      as (y & Hy%list_elem_of_In & Hby%list_elem_of_In).
    assert (x = y) as ->; [|done].
    eapply Hdisj; eauto using list_elem_of_here, list_elem_of_further.
  - apply IH.
    + intros y Hy. apply Hg. by apply list_elem_of_further.
    + intros y z b Hy Hz. apply Hdisj; by apply list_elem_of_further.
Qed.

Lemma map_flat_map {A B C} (f : B -> C) (g : A -> list B) (l : list A) :
  map f (flat_map g l) = flat_map (fun x => map f (g x)) l.
Proof. induction l as [|x l IH]; simpl; [done|]. by rewrite map_app, IH. Qed.

Lemma NoDup_map_inv {A B} (f : A -> B) (l : list A) : NoDup (map f l) -> NoDup l.
Proof. apply (NoDup_fmap_1 f). Qed.

(** A function whose image of [l] has no duplicate is injective on [l]. *)
Lemma map_inj_on {A B} (f : A -> B) (l : list A) x y :
  NoDup (map f l) -> x ∈ l -> y ∈ l -> f x = f y -> x = y.
Proof.
  induction l as [|a l IH]; simpl; intros Hnd Hx Hy Hf; [by apply elem_of_nil in Hx|].
  apply NoDup_cons in Hnd as [Ha Hnd].
  apply elem_of_cons in Hx as [->|Hx], Hy as [->|Hy]; [done| | |by apply IH].
  - exfalso. apply Ha. rewrite Hf. apply list_elem_of_In, in_map. by apply list_elem_of_In.
  - exfalso. apply Ha. rewrite <- Hf. apply list_elem_of_In, in_map. by apply list_elem_of_In.
Qed.

Section StringFacts.

Lemma append_nil (b : string) : "" +:+ b = b.
Proof. reflexivity. Qed.

Lemma append_cons (x : ascii) (a b : string) : String x a +:+ b = String x (a +:+ b).
Proof. reflexivity. Qed.

Lemma append_assoc (a b c : string) : (a +:+ b) +:+ c = a +:+ (b +:+ c).
Proof.
  induction a as [|x a IH]; [reflexivity|]. by rewrite !append_cons, IH.
Qed.

Lemma startsWith_append (p s : string) : JS.startsWith (p +:+ s) p = true.
Proof.
  induction p as [|x p IH]; [rewrite append_nil; by destruct s|].
  rewrite append_cons. simpl. by rewrite Ascii.eqb_refl.
Qed.

Lemma drop_str_append (p s : string) : JS.drop_str (String.length p) (p +:+ s) = s.
Proof. induction p as [|x p IH]; [reflexivity|]. rewrite append_cons. exact IH. Qed.

Lemma replace_prefix (p s : string) : JS.replace (p +:+ s) p "" = s.
Proof.
  destruct (p +:+ s) eqn:E.
  - destruct p; [|done]. rewrite append_nil in E. by subst.
  - rewrite <- E. rewrite E at 1. cbn [JS.replace]. rewrite <- E.
    by rewrite startsWith_append, drop_str_append.
Qed.

Lemma append_nil_r (a : string) : a +:+ "" = a.
Proof. induction a as [|x a IH]; [reflexivity|]. by rewrite append_cons, IH. Qed.

(** The first component of a relative path determines the entry. *)
Lemma name_of_path (n1 n2 s1 s2 : string) :
  Migrate.noSlash n1 = true -> Migrate.noSlash n2 = true ->
  Migrate.tailOk s1 -> Migrate.tailOk s2 ->
  n1 +:+ s1 = n2 +:+ s2 -> n1 = n2.
Proof.
  revert n2. induction n1 as [|a n1 IH]; intros [|b n2]; simpl;
    rewrite ?append_nil, ?append_cons; intros H1 H2 T1 T2 E.
  - done.
  - subst s1. simpl in T1. subst b. by rewrite Ascii.eqb_refl in H2.
  - subst s2. simpl in T2. subst a. by rewrite Ascii.eqb_refl in H1.
  - injection E as -> E.
    apply andb_true_iff in H1 as [_ H1]. apply andb_true_iff in H2 as [_ H2].
    f_equal. by apply IH.
Qed.

End StringFacts.

Section MigrateScan.
Import Migrate.
Local Open Scope nat_scope.
Context (fs : FileSystem).

(** The walk of a directory, entry by entry. *)
Lemma walk_S levels dir extensions :
  walk fs (S levels) dir extensions
  = match readdirSync fs dir with
    | None => []
    | Some entries => flat_map (entryFiles fs levels dir extensions) entries
    end.
Proof.
  simpl. destruct (readdirSync fs dir) as [entries|]; [|done].
  rewrite (fold_left_push _ (entryFiles fs levels dir extensions)); [done|].
  intros files entry. unfold entryFiles.
  destruct (skipped _); [by rewrite app_nil_r|].
  destruct (isDirectory entry); [done|].
  destruct (includesExt _ _); [done|by rewrite app_nil_r].
Qed.

Lemma skipped_hidden entryName :
  skipped entryName = false -> JS.startsWith entryName "." = false.
Proof. unfold skipped. by intros [? _]%orb_false_iff. Qed.

(** Only visible files are walked. *)
Lemma walk_visible levels dir extensions f :
  f ∈ walk fs levels dir extensions -> visible fs dir f.
Proof.
  revert dir. induction levels as [|levels IH]; intros dir.
  - by intros ?%elem_of_nil.
  - rewrite walk_S. destruct (readdirSync fs dir) as [entries|] eqn:Hdir;
      [|by intros ?%elem_of_nil].
    rewrite list_elem_of_In, in_flat_map.
    intros (entry & Hentry%list_elem_of_In & Hf%list_elem_of_In).
    unfold entryFiles in Hf.
    destruct (skipped (name entry)) eqn:Hskip; [by apply elem_of_nil in Hf|].
    apply skipped_hidden in Hskip.
    destruct (isDirectory entry) eqn:Hisdir.
    + eapply visible_dir; eauto.
    + destruct (includesExt _ _); [|by apply elem_of_nil in Hf].
      apply list_elem_of_singleton in Hf as ->.
      eapply visible_file; eauto.
Qed.

Context (projectPath : string).

(** A test from cursor 0 answers whether the pattern occurs. *)
Lemma test_from_start rx l : fst (test rx 0 l) = occursIn rx l.
Proof.
  unfold test, occursIn. simpl.
  by destruct (searchFrom _ _ _).
Qed.

(** The three loops of the scan, as the issues they add. *)
Lemma scanLines_spec pat file i rest lastIndex found :
  fst (scanLines projectPath pat file i rest lastIndex found)
  = found ++ lineIssues projectPath pat file i rest.
Proof.
  revert i lastIndex found. induction rest as [|l rest IH]; intros i lastIndex found.
  - simpl. by rewrite app_nil_r.
  - cbn [scanLines lineIssues].
    pose proof (test_from_start (p_regex pat) l) as Ht.
    destruct (test (p_regex pat) 0 l) as [hit li]. simpl in Ht. subst hit.
    rewrite IH. destruct (occursIn _ _); simpl; by rewrite <- ?app_assoc.
Qed.

Lemma scanFiles_spec pat files lastIndex found :
  fst (scanFiles fs projectPath pat files lastIndex found)
  = found ++ flat_map (fileIssues fs projectPath pat) files.
Proof.
  revert lastIndex found. induction files as [|f files IH]; intros lastIndex found.
  - simpl. by rewrite app_nil_r.
  - cbn [scanFiles flat_map]. unfold fileIssues at 1.
    destruct (readFileSync fs f) as [content|]; [|apply IH].
    pose proof (scanLines_spec pat f 0 (JS.split JS.LF content) lastIndex found) as Hl.
    destruct (scanLines _ _ _ _ _ _ _) as [found' li]. simpl in Hl. subst found'.
    by rewrite IH, <- app_assoc.
Qed.

Lemma scanPatterns_spec pats cursors found :
  fst (scanPatterns fs projectPath pats cursors found)
  = found ++ flat_map
      (fun pat => flat_map (fileIssues fs projectPath pat)
                    (walkFiles fs projectPath (p_fileExtensions pat) 5 0)) pats.
Proof.
  revert cursors found. induction pats as [|pat pats IH]; intros cursors found.
  - simpl. by rewrite app_nil_r.
  - cbn [scanPatterns flat_map].
    pose proof (scanFiles_spec pat (walkFiles fs projectPath (p_fileExtensions pat) 5 0)
                  (default 0 (cursors !! source (p_regex pat))) found) as Hf.
    destruct (scanFiles _ _ _ _ _ _) as [found' li]. simpl in Hf. subst found'.
    by rewrite IH, <- app_assoc.
Qed.

Context (getFrameworkMajor : string -> string -> option Z).

(** The two shapes of a result: nothing scanned, or the issues of one rule
    of the table. *)
Lemma detectMigration_cases cursors projectName framework :
  let r := fst (detectMigration fs getFrameworkMajor cursors projectPath projectName framework) in
  (issues r = [] /\ migrationNeeded r = false)
  \/ (exists rule, rule ∈ MIGRATION_RULES
        /\ issues r = ruleIssues fs projectPath rule
        /\ migrationNeeded r = (0 <? length (issues r))).
Proof.
  unfold detectMigration.
  destruct (match getFrameworkMajor projectPath framework with
            | Some z => if (z =? 0)%Z then None else Some z
            | None => None end) as [major|]; [|by left].
  destruct (List.filter _ MIGRATION_RULES) as [|rule rules] eqn:Hrules; [by left|].
  right. exists rule.
  assert (rule ∈ MIGRATION_RULES) as Hin.
  { apply list_elem_of_In.
    eapply (proj1 (filter_In _ rule MIGRATION_RULES)).
    rewrite Hrules. by left. }
  pose proof (scanPatterns_spec (patterns rule) cursors []) as Hs.
  destruct (scanPatterns _ _ _ _ _) as [found cursors']. simpl in Hs. subst found.
  simpl. done.
Qed.

Lemma detectMigration_needed cursors projectName framework :
  let r := fst (detectMigration fs getFrameworkMajor cursors projectPath projectName framework) in
  migrationNeeded r = true <-> issues r <> [].
Proof.
  intros r. destruct (detectMigration_cases cursors projectName framework)
    as [[Hi Hn]|(rule & _ & _ & Hn)]; fold r in Hn |- *.
  - fold r in Hi. rewrite Hi, Hn. done.
  - rewrite Hn. destruct (issues r); simpl; split; done.
Qed.

Lemma lineIssues_file pat f i rest issue :
  issue ∈ lineIssues projectPath pat f i rest ->
  file issue = JS.replace f (projectPath +:+ "/") ""
  /\ pattern issue = source (p_regex pat) /\ i < line issue.
Proof.
  revert i. induction rest as [|l rest IH]; intros i; simpl.
  - by intros ?%elem_of_nil.
  - intros [H|H]%elem_of_app.
    + destruct (occursIn _ _); [|by apply elem_of_nil in H].
      apply list_elem_of_singleton in H as ->. simpl. repeat split. lia.
    + apply IH in H as (? & ? & ?). repeat split; [done..|lia].
Qed.

Lemma ruleIssues_origin rule issue :
  issue ∈ ruleIssues fs projectPath rule ->
  exists pat f,
    pat ∈ patterns rule
    /\ f ∈ walkFiles fs projectPath (p_fileExtensions pat) 5 0
    /\ issue ∈ fileIssues fs projectPath pat f.
Proof.
  unfold ruleIssues. rewrite list_elem_of_In, in_flat_map.
  intros (pat & Hpat%list_elem_of_In & H).
  apply in_flat_map in H as (f & Hf%list_elem_of_In & Hi%list_elem_of_In).
  eauto.
Qed.

(** C10. The walk of a directory is made of what its entries contribute,
    and an entry whose name starts with a dot contributes nothing, be it
    a directory or a file.  So every walked file, and the file of every
    issue reported by [detectMigration], was reached from the project
    root through entries none of which has a name starting with a dot,
    the entry of the file itself included. *)
Theorem C10_hidden_entries_never_reported cursors projectName framework :
  (forall levels dir extensions,
      walk fs (S levels) dir extensions
      = match readdirSync fs dir with
        | None => []
        | Some entries => flat_map (entryFiles fs levels dir extensions) entries
        end)
  /\ (forall levels dir extensions entry,
        JS.startsWith (name entry) "." = true ->
        entryFiles fs levels dir extensions entry = [])
  /\ (forall dir extensions maxDepth depth f,
        f ∈ walkFiles fs dir extensions maxDepth depth -> visible fs dir f)
  /\ (forall issue,
        issue ∈ issues (fst (detectMigration fs getFrameworkMajor cursors
                               projectPath projectName framework)) ->
        exists f,
          visible fs projectPath f
          /\ file issue = JS.replace f (projectPath +:+ "/") "").
Proof.
  split; [apply walk_S|].
  split; [intros levels dir extensions entry H; unfold entryFiles, skipped; by rewrite H|].
  split; [intros dir extensions maxDepth depth f; apply walk_visible|].
  intros issue.
  destruct (detectMigration_cases cursors projectName framework)
    as [[-> _]|(rule & _ & -> & _)]; [by intros ?%elem_of_nil|].
  intros (pat & f & _ & Hf & Hi)%ruleIssues_origin.
  exists f. split; [by eapply walk_visible|].
  unfold fileIssues in Hi. destruct (readFileSync fs f); [|by apply elem_of_nil in Hi].
  by apply lineIssues_file in Hi as [? _].
Qed.

(** *** At most one issue per (file, line, pattern) *)

Lemma lineIssues_NoDup pat f i rest :
  NoDup (map triple (lineIssues projectPath pat f i rest)).
Proof.
  revert i. induction rest as [|l rest IH]; intros i; simpl; [constructor|].
  rewrite map_app. apply NoDup_app. split; [|split].
  - destruct (occursIn _ _); simpl; [apply NoDup_singleton|constructor].
  - intros t Ht Ht'.
    destruct (occursIn _ _); [|by apply elem_of_nil in Ht].
    apply list_elem_of_singleton in Ht as ->.
    apply list_elem_of_In, in_map_iff in Ht' as (issue & E & Hi%list_elem_of_In).
    apply lineIssues_file in Hi as (_ & _ & Hlt).
    unfold triple in E. simpl in E. injection E as _ E _. lia.
  - apply IH.
Qed.

Lemma fileIssues_triple pat f t :
  t ∈ map triple (fileIssues fs projectPath pat f) ->
  t.1.1 = JS.replace f (projectPath +:+ "/") "" /\ t.2 = source (p_regex pat).
Proof.
  intros (issue & <- & Hi%list_elem_of_In)%list_elem_of_In%in_map_iff.
  unfold fileIssues in Hi. destruct (readFileSync fs f); [|by apply elem_of_nil in Hi].
  apply lineIssues_file in Hi as (? & ? & _). done.
Qed.

(** Within each rule of the table the patterns have distinct sources. *)
Lemma table_sources_distinct :
  Forall (fun rule => NoDup (map (fun pat => source (p_regex pat)) (patterns rule)))
         MIGRATION_RULES.
Proof.
  unfold MIGRATION_RULES.
  repeat (apply Forall_cons; split); [..|apply Forall_nil];
    simpl; (apply (bool_decide_unpack _); by vm_compute).
Qed.

(** The result does not depend on the cursors left by earlier scans. *)
Lemma detectMigration_cursor_free cursors cursors' projectName framework :
  fst (detectMigration fs getFrameworkMajor cursors projectPath projectName framework)
  = fst (detectMigration fs getFrameworkMajor cursors' projectPath projectName framework).
Proof.
  unfold detectMigration.
  destruct (match getFrameworkMajor projectPath framework with
            | Some z => if (z =? 0)%Z then None else Some z
            | None => None end) as [major|]; [|done].
  destruct (List.filter _ MIGRATION_RULES) as [|rule rules]; [done|].
  pose proof (scanPatterns_spec (patterns rule) cursors []) as H1.
  pose proof (scanPatterns_spec (patterns rule) cursors' []) as H2.
  destruct (scanPatterns _ _ _ cursors _) as [found1 c1].
  destruct (scanPatterns _ _ _ cursors' _) as [found2 c2].
  simpl in *. by subst.
Qed.

End MigrateScan.

(** ** Batch summaries *)

Section Summaries.
Local Open Scope nat_scope.
Context (discoverProjects : list Checker.ProjectInfo)
        (getOutdated : string -> Checker.ProjectInfo -> option (gmap string Checker.OutdatedPkg))
        (isMajorUpdate : string -> string -> bool)
        (clock : nat -> string).
Context (fetch : nat -> list Osv.Query -> Osv.FetchOutcome)
        (getInstalledPackages : string -> string -> list Osv.Package).
Context (fs : Migrate.FileSystem)
        (getFrameworkMajor : string -> string -> option Z).

(** The audit loop keeps the audits with a vulnerability. *)
Lemma auditLoop_spec sent projects acc :
  Osv.auditLoop fetch getInstalledPackages clock sent projects acc
  = acc ++ filter (fun r => Osv.vulnerabilities r <> [])
             (Osv.auditsFrom fetch getInstalledPackages clock sent projects).
Proof.
  revert sent acc. induction projects as [|p rest IH]; intros sent acc; simpl.
  - by rewrite app_nil_r.
  - destruct (Osv.liveAuditProject _ _ _ _ _ _ _) as [result sent'].
    rewrite IH. destruct (Osv.vulnerabilities result) eqn:E; simpl.
    + rewrite filter_cons_False; [done|]. rewrite E. by intros ?.
    + rewrite filter_cons_True; [by rewrite <- app_assoc|]. by rewrite E.
Qed.

Lemma detectEach_elem cursors projects r :
  r ∈ Migrate.detectEach fs getFrameworkMajor cursors projects ->
  exists cursors' p,
    p ∈ projects
    /\ r = fst (Migrate.detectMigration fs getFrameworkMajor cursors'
                  (Migrate.t_path p) (Migrate.t_name p) (Migrate.t_framework p)).
Proof.
  revert cursors. induction projects as [|p rest IH]; intros cursors; simpl.
  - by intros ?%elem_of_nil.
  - destruct (Migrate.detectMigration _ _ cursors _ _ _) as [r0 cursors0] eqn:E.
    intros [->|H]%elem_of_cons.
    + exists cursors, p. rewrite E. split; [apply list_elem_of_here|done].
    + apply IH in H as (c & q & ? & ?). exists c, q.
      split; [by apply list_elem_of_further|done].
Qed.


End Summaries.

(** ** Strings: reversal, prefixes and suffixes *)

Section ReverseFacts.

Lemma string_rev_app_spec (s t : string) : String.rev_app s t = String.rev s +:+ t.
Proof.
  unfold String.rev. revert t. induction s as [|a s IH]; intros t; [reflexivity|].
  simpl. rewrite IH, (IH (String a "")), append_assoc. reflexivity.
Qed.

Lemma string_rev_cons (a : ascii) (s : string) :
  String.rev (String a s) = String.rev s +:+ String a "".
Proof. unfold String.rev at 1. simpl. apply string_rev_app_spec. Qed.

Lemma string_rev_append (s t : string) : String.rev (s +:+ t) = String.rev t +:+ String.rev s.
Proof.
  induction s as [|a s IH].
  - rewrite append_nil. change (String.rev "") with "". by rewrite append_nil_r.
  - by rewrite append_cons, !string_rev_cons, IH, append_assoc.
Qed.

Lemma string_rev_involutive (s : string) : String.rev (String.rev s) = s.
Proof.
  induction s as [|a s IH]; [reflexivity|].
  by rewrite string_rev_cons, string_rev_append, IH.
Qed.

Lemma string_length_append (s t : string) :
  String.length (s +:+ t) = (String.length s + String.length t)%nat.
Proof. induction s as [|a s IH]; [reflexivity|]. rewrite append_cons. simpl. by rewrite IH. Qed.

Lemma string_length_rev (s : string) : String.length (String.rev s) = String.length s.
Proof.
  induction s as [|a s IH]; [reflexivity|].
  rewrite string_rev_cons, string_length_append, IH. simpl. lia.
Qed.

(** A suffix that is there is stripped, a prefix that is there is
    replaced. *)
Lemma stripSuffix_append (s p : string) : Docs.stripSuffix (s +:+ p) p = s.
Proof.
  unfold Docs.stripSuffix. rewrite string_rev_append, startsWith_append.
  rewrite <- (string_length_rev p), drop_str_append. apply string_rev_involutive.
Qed.

Lemma replacePrefix_append (p s r : string) : Docs.replacePrefix (p +:+ s) p r = r +:+ s.
Proof. unfold Docs.replacePrefix. by rewrite startsWith_append, drop_str_append. Qed.

End ReverseFacts.

(** ** Background checker: the entries of a run *)

Lemma filter_ext_elem {A} (P Q : A -> Prop) `{!forall x, Decision (P x)}
    `{!forall x, Decision (Q x)} (l : list A) :
  (forall x, x ∈ l -> P x <-> Q x) -> filter P l = filter Q l.
Proof.
  induction l as [|a l IH]; intros Hpq; [done|].
  rewrite !filter_cons.
  rewrite IH by (intros x Hx; apply Hpq; by apply list_elem_of_further).
  pose proof (Hpq a (list_elem_of_here _ _)) as Ha.
  destruct (decide (P a)), (decide (Q a)); tauto.
Qed.

Section CheckerEntries.
Import Checker.
Context (discoverProjects : list ProjectInfo)
        (getOutdated : string -> ProjectInfo -> option (gmap string OutdatedPkg))
        (isMajorUpdate : string -> string -> bool)
        (now : nat -> string).

Lemma countMajor_bounds outdated :
  0 <= countMajor isMajorUpdate outdated <= countOutdated outdated.
Proof.
  unfold countMajor, countOutdated. split; [lia|].
  apply Nat2Z.inj_le. rewrite <- length_map_to_list.
  apply length_filter.
Qed.

(** An entry of the scan loop, with the project it was made from. *)
Lemma scanLoop_entry e i projects :
  e ∈ scanLoop getOutdated isMajorUpdate now i projects [] ->
  exists info outdated,
    info ∈ projects
    /\ getOutdated (info_path info) info = Some outdated
    /\ project e = info_name info
    /\ outdatedCount e = countOutdated outdated
    /\ majorCount e = countMajor isMajorUpdate outdated
    /\ securityIssues e = 0
    /\ score e = healthScore (outdatedCount e) (majorCount e).
Proof.
  intros (k & info & Hk & He)%elem_of_scanLoop.
  unfold scanProject in He.
  destruct (getOutdated (info_path info) info) as [outdated|] eqn:Hout; [|done].
  injection He as <-. exists info, outdated. simpl.
  repeat split; try done. by eapply list_elem_of_lookup_2.
Qed.

(** X1. Every entry the checker writes has a major count between zero
    and its outdated count, a score between 0 and 100, and zero security
    issues. *)
Theorem checker_entries_bounded (run : Run) :
  main discoverProjects getOutdated isMajorUpdate now = Some run ->
  forall e, e ∈ written run ->
    0 <= majorCount e <= outdatedCount e
    /\ 0 <= score e <= 100
    /\ securityIssues e = 0.
Proof.
  unfold main. destruct (_ =? _)%nat; [done|]. intros [= <-] e He. simpl in He.
  apply scanLoop_entry in He as (info & outdated & _ & _ & _ & Hn & Hm & Hs & Hsc).
  rewrite Hn, Hm, Hsc. split; [apply countMajor_bounds|].
  split; [apply healthScore_bounds|done].
Qed.

(** X2. An entry has the full score of 100 exactly when its project has
    no outdated package, so the alerts of a run are its entries with a
    score below 100. *)
Theorem checker_full_score_iff_up_to_date (run : Run) :
  main discoverProjects getOutdated isMajorUpdate now = Some run ->
  (forall e, e ∈ written run -> (score e = 100 <-> outdatedCount e = 0))
  /\ alerts run = length (filter (fun e => score e < 100) (written run)).
Proof.
  unfold main. destruct (_ =? _)%nat; [done|]. intros [= <-]. simpl.
  assert (forall e, e ∈ scanLoop getOutdated isMajorUpdate now 0 discoverProjects [] ->
            (score e = 100 <-> outdatedCount e = 0)
            /\ (0 < outdatedCount e <-> score e < 100)) as H.
  { intros e He.
    apply scanLoop_entry in He as (info & outdated & _ & _ & _ & Hn & Hm & _ & Hsc).
    pose proof (countMajor_bounds outdated) as Hb.
    rewrite Hsc, Hn, Hm. unfold healthScore. lia. }
  split; [intros e He; by apply H|].
  f_equal. apply filter_ext_elem. intros e He. by apply H.
Qed.

Lemma scanLoop_projects i projects :
  map project (scanLoop getOutdated isMajorUpdate now i projects [])
  = map info_name
      (filter (fun info => is_Some (getOutdated (info_path info) info)) projects).
Proof.
  revert i. induction projects as [|info rest IH]; intros i; [done|].
  cbn [scanLoop]. rewrite scanLoop_acc, map_app, IH.
  unfold scanProject.
  destruct (getOutdated (info_path info) info) as [outdated|] eqn:Hout.
  - rewrite filter_cons_True by (by rewrite Hout). done.
  - rewrite filter_cons_False; [done|]. rewrite Hout. by intros [? ?].
Qed.

(** X3. The entries of a run are those of the projects whose outdated
    packages could be listed, one entry per project, in the order in which
    the projects were discovered; a project whose listing throws leaves no
    entry and does not stop the scan. *)
Theorem checker_entries_in_project_order (run : Run) :
  main discoverProjects getOutdated isMajorUpdate now = Some run ->
  map project (written run)
  = map info_name
      (filter (fun info => is_Some (getOutdated (info_path info) info)) discoverProjects)
  /\ (length (written run) <= length discoverProjects)%nat.
Proof.
  unfold main. destruct (_ =? _)%nat; [done|]. intros [= <-]. simpl.
  pose proof (scanLoop_projects 0 discoverProjects) as H.
  split; [done|].
  apply (f_equal length) in H. rewrite !length_map in H. rewrite H.
  apply length_filter.
Qed.

End CheckerEntries.

(** X4. The score never rises when packages become outdated: it is
    antitone in both counts, the penalty for outdated packages is
    exhausted at fourteen of them, and ten packages a major version behind
    bring the score to zero. *)
Theorem healthScore_antitone (n n' m m' : Z) :
  n <= n' -> m <= m' ->
  Checker.healthScore n' m' <= Checker.healthScore n m
  /\ (14 <= n -> Checker.healthScore n' m = Checker.healthScore n m)
  /\ (0 <= n -> 10 <= m -> Checker.healthScore n m = 0).
Proof. unfold Checker.healthScore. lia. Qed.

(** ** Update types and the changelog report *)

Section UpdateTypeMore.
Import Changelog.
Context (toNumber : string -> JS.number).

Hypothesis toNumber_decimal :
  forall s, numeric_component s = true -> decimal s < 2 ^ 53 ->
            toNumber s = JS.ofZ (decimal s).

(** X5. For dotted numeric versions, whatever their order,
    [getUpdateType] answers [Major] exactly when the leading component of
    [latest] is greater than that of [current]; otherwise [Minor] exactly
    when its second component is greater; otherwise [Patch].  So a
    version whose leading component went down is never a major update,
    and is a minor one when its second component went up. *)
Theorem getUpdateType_leading_components (current latest : string) :
  dotted_numeric current = true ->
  dotted_numeric latest = true ->
  safe_components current = true ->
  safe_components latest = true ->
  let c := components current in
  let l := components latest in
  (getUpdateType toNumber current latest = Major <-> component c 0 < component l 0)
  /\ (getUpdateType toNumber current latest = Minor
      <-> component l 0 <= component c 0 /\ component c 1 < component l 1)
  /\ (getUpdateType toNumber current latest = Patch
      <-> component l 0 <= component c 0 /\ component l 1 <= component c 1).
Proof.
  intros Hc Hl Sc Sl c l. unfold getUpdateType.
  rewrite !(orZero_component toNumber toNumber_decimal), !gt_ofZ by done.
  fold c l.
  destruct (Z.ltb_spec (component c 0) (component l 0)),
           (Z.ltb_spec (component c 1) (component l 1));
    repeat split; intros; try done; try lia.
Qed.

End UpdateTypeMore.

Section ReportProps.
Import Report.
Context (execSync : nat -> string -> string -> Z -> ExecOutcome)
        (parseJson : string -> option Json)
        (parseOutdated : string -> option (list (string * OutdatedInfo)))
        (existsSync : string -> bool)
        (toNumber : string -> JS.number)
        (getReleaseNotes : nat -> string -> string -> option string).

Local Notation "'mkEntry'" :=
  (Report.mkEntry execSync parseJson toNumber getReleaseNotes).
Local Notation "'entriesLoop'" :=
  (Report.entriesLoop execSync parseJson toNumber getReleaseNotes).
Local Notation "'getProjectChangelog'" :=
  (Report.getProjectChangelog execSync parseJson parseOutdated existsSync toNumber
     getReleaseNotes).
Local Notation "'reported'" :=
  (Report.reported execSync parseJson parseOutdated existsSync toNumber getReleaseNotes).

(** *** The stable sort *)

Lemma insertBy_here {A} (cmp : A -> A -> Z) x l :
  (forall y, y ∈ l -> cmp x y <= 0) -> insertBy cmp x l = x :: l.
Proof.
  destruct l as [|y l]; [done|]. intros H. simpl.
  by rewrite (proj2 (Z.leb_le _ _)) by (apply H, list_elem_of_here).
Qed.

Lemma insertBy_pass {A} (cmp : A -> A -> Z) x l1 l2 :
  (forall y, y ∈ l1 -> 0 < cmp x y) ->
  insertBy cmp x (l1 ++ l2) = l1 ++ insertBy cmp x l2.
Proof.
  induction l1 as [|y l1 IH]; intros H; [done|]. simpl.
  rewrite (proj2 (Z.leb_gt _ _)) by (apply H, list_elem_of_here).
  f_equal. apply IH. intros z Hz. apply H. by apply list_elem_of_further.
Qed.

Lemma elem_of_ofType t l e :
  e ∈ ofType t l <-> e ∈ l /\ updateType e = t.
Proof.
  unfold ofType. rewrite list_elem_of_In, filter_In, <- list_elem_of_In, Z.eqb_eq.
  split; intros [? H]; (split; [done|]).
  - by destruct (updateType e), t.
  - by rewrite H.
Qed.

Lemma ofType_cons t e l :
  ofType t (e :: l) = if decide (updateType e = t) then e :: ofType t l else ofType t l.
Proof.
  unfold ofType. simpl.
  destruct (decide (updateType e = t)) as [->|Hne]; [by rewrite Z.eqb_refl|].
  rewrite (proj2 (Z.eqb_neq _ _)); [done|]. by destruct (updateType e), t.
Qed.

(** The sort groups the entries by update type and keeps the order within
    every group. *)
Lemma sortBy_byUpdateType (l : list ChangelogEntry) :
  sortBy byUpdateType l
  = ofType Changelog.Major l ++ ofType Changelog.Minor l ++ ofType Changelog.Patch l.
Proof.
  induction l as [|x l IH]; [done|].
  cbn [sortBy]. rewrite IH, !ofType_cons.
  destruct (updateType x) eqn:Hx; repeat case_decide; try done.
  - (* patch *)
    rewrite insertBy_pass, insertBy_pass, insertBy_here; [done| | |].
    + intros y [_ Hy]%elem_of_ofType. unfold byUpdateType. rewrite Hx, Hy. done.
    + intros y [_ Hy]%elem_of_ofType. unfold byUpdateType. rewrite Hx, Hy. done.
    + intros y [_ Hy]%elem_of_ofType. unfold byUpdateType. rewrite Hx, Hy. done.
  - (* minor *)
    rewrite insertBy_pass, insertBy_here; [done| |].
    + intros y [[_ Hy]%elem_of_ofType|[_ Hy]%elem_of_ofType]%elem_of_app;
        unfold byUpdateType; rewrite Hx, Hy; done.
    + intros y [_ Hy]%elem_of_ofType. unfold byUpdateType. rewrite Hx, Hy. done.
  - (* major *)
    rewrite insertBy_here; [done|].
    intros y _. unfold byUpdateType. rewrite Hx. by destruct (updateType y).
Qed.

Lemma elem_of_sortBy_byUpdateType e l : e ∈ sortBy byUpdateType l <-> e ∈ l.
Proof.
  rewrite sortBy_byUpdateType, !elem_of_app, !elem_of_ofType. split.
  - by intros [[? _]|[[? _]|[? _]]].
  - intros He. destruct (updateType e); auto.
Qed.

(** *** The report *)

Lemma getProjectChangelog_entries projectPath projectName :
  entries (getProjectChangelog projectPath projectName)
  = sortBy byUpdateType (reported projectPath).
Proof.
  unfold Report.getProjectChangelog, Report.reported.
  destruct (existsSync _); [|done]. simpl.
  destruct (cmd execSync 0 _ _ _) as [raw|]; [|done].
  destruct (JS.falsy_str raw); [by destruct (parseOutdated raw)|].
  by destruct (parseOutdated raw).
Qed.

(** X6. The entries of a changelog report are sorted by update type,
    major first, then minor, then patch, and within each type they keep
    the order in which npm reported the packages. *)
Theorem changelog_entries_sorted (projectPath projectName : string) :
  entries (getProjectChangelog projectPath projectName)
  = ofType Changelog.Major (reported projectPath)
    ++ ofType Changelog.Minor (reported projectPath)
    ++ ofType Changelog.Patch (reported projectPath).
Proof. by rewrite getProjectChangelog_entries, sortBy_byUpdateType. Qed.

Lemma entriesLoop_acc n outdated acc :
  entriesLoop n outdated acc = acc ++ entriesLoop n outdated [].
Proof.
  revert n acc. induction outdated as [|[name info] rest IH]; intros n acc; simpl.
  - by rewrite app_nil_r.
  - destruct (present (o_current info)) as [current|]; [|apply IH].
    destruct (present (o_latest info)) as [latest|]; [|apply IH].
    destruct (String.eqb current latest); [apply IH|].
    rewrite IH, (IH _ [_]). by rewrite <- app_assoc.
Qed.

Lemma present_Some o s : present o = Some s <-> o = Some s /\ s <> EmptyString.
Proof.
  unfold present. destruct o as [[|a t]|]; simpl; split; try done.
  - by intros [[= <-] ?].
  - intros [= <-]. done.
  - by intros [[= <-] _].
  - by intros [? _].
Qed.

Lemma changed_true info :
  changed info = true <->
  exists current latest,
    o_current info = Some current /\ o_latest info = Some latest
    /\ current <> EmptyString /\ latest <> EmptyString /\ current <> latest.
Proof.
  unfold changed.
  destruct (present (o_current info)) as [current|] eqn:Ec;
    [destruct (present (o_latest info)) as [latest|] eqn:El|].
  - apply present_Some in Ec as [Ec ?], El as [El ?].
    rewrite negb_true_iff, String.eqb_neq. split.
    + intros ?. by exists current, latest.
    + intros (c & l & Hc & Hl & _ & _ & ?). congruence.
  - split; [done|]. intros (c & l & Hc & Hl & ? & ? & _).
    assert (present (o_latest info) = Some l) by by apply present_Some. congruence.
  - split; [done|]. intros (c & l & Hc & Hl & ? & ? & _).
    assert (present (o_current info) = Some c) by by apply present_Some. congruence.
Qed.

(** One step of the loop. *)
Lemma entriesLoop_cons n name info rest :
  entriesLoop n ((name, info) :: rest) []
  = if changed info then
      let e := mkEntry n name (default EmptyString (o_current info))
                              (default EmptyString (o_latest info)) in
      e :: entriesLoop (if hasBreakingChanges e then S (S n) else S n) rest []
    else entriesLoop n rest [].
Proof.
  cbn [Report.entriesLoop]. unfold changed.
  destruct (present (o_current info)) as [current|] eqn:Ec; [|done].
  destruct (present (o_latest info)) as [latest|] eqn:El; [|done].
  apply present_Some in Ec as [-> _], El as [-> _]. simpl.
  destruct (String.eqb current latest); [done|]. simpl.
  by rewrite entriesLoop_acc.
Qed.

Lemma entriesLoop_sound e n outdated :
  e ∈ entriesLoop n outdated [] ->
  exists name info n',
    (name, info) ∈ outdated /\ changed info = true
    /\ o_current info = Some (currentVersion e)
    /\ o_latest info = Some (latestVersion e)
    /\ e = mkEntry n' name (currentVersion e) (latestVersion e).
Proof.
  revert n. induction outdated as [|[name info] rest IH]; intros n.
  - by intros ?%elem_of_nil.
  - rewrite entriesLoop_cons.
    assert (forall m, e ∈ entriesLoop m rest [] ->
              exists name0 info0 n',
                (name0, info0) ∈ (name, info) :: rest /\ changed info0 = true
                /\ o_current info0 = Some (currentVersion e)
                /\ o_latest info0 = Some (latestVersion e)
                /\ e = mkEntry n' name0 (currentVersion e) (latestVersion e)) as Hrest.
    { intros m (name0 & info0 & n' & ? & ?)%IH. exists name0, info0, n'.
      split; [by apply list_elem_of_further|done]. }
    destruct (changed info) eqn:Hc; [|apply Hrest].
    cbv zeta. intros [->|He]%elem_of_cons; [|by eapply Hrest].
    pose proof Hc as (current & latest & Hcur & Hlat & _)%changed_true.
    exists name, info, n. rewrite Hcur, Hlat. simpl.
    split; [apply list_elem_of_here|done].
Qed.

Lemma entriesLoop_packages n outdated :
  map package (entriesLoop n outdated [])
  = map fst (List.filter (fun p => changed p.2) outdated).
Proof.
  revert n. induction outdated as [|[name info] rest IH]; intros n; [done|].
  rewrite entriesLoop_cons. simpl. destruct (changed info); [|apply IH].
  simpl. by rewrite IH.
Qed.

Lemma insertBy_Permutation {A} (cmp : A -> A -> Z) x l : insertBy cmp x l ≡ₚ x :: l.
Proof.
  induction l as [|y l IH]; [done|]. simpl.
  destruct (cmp x y <=? 0); [done|]. by rewrite IH, Permutation_swap.
Qed.

Lemma sortBy_Permutation {A} (cmp : A -> A -> Z) l : sortBy cmp l ≡ₚ l.
Proof.
  induction l as [|x l IH]; [done|]. simpl. by rewrite insertBy_Permutation, IH.
Qed.

(** X7. When npm's report can be used, the changelog report has one entry
    for every package of it whose current and latest versions are both
    present and differ, and no other entry: a package that is up to date,
    or whose current version is unknown, is left out. *)
Theorem changelog_entries_are_changed_packages (projectPath projectName raw : string)
    (outdated : list (string * OutdatedInfo)) :
  existsSync (Migrate.pathJoin projectPath "package.json") = true ->
  cmd execSync 0 "npm outdated --json" projectPath 30000 = Some raw ->
  raw <> EmptyString ->
  parseOutdated raw = Some outdated ->
  let r := getProjectChangelog projectPath projectName in
  map package (entries r) ≡ₚ map fst (List.filter (fun p => changed p.2) outdated)
  /\ (forall e, e ∈ entries r ->
        currentVersion e <> EmptyString /\ latestVersion e <> EmptyString
        /\ currentVersion e <> latestVersion e
        /\ exists info, (package e, info) ∈ outdated
                        /\ o_current info = Some (currentVersion e)
                        /\ o_latest info = Some (latestVersion e)).
Proof.
  intros Hex Hcmd Hraw Hparse r.
  assert (entries r = sortBy byUpdateType (entriesLoop 1 outdated [])) as Hr.
  { unfold r. rewrite getProjectChangelog_entries. unfold Report.reported.
    rewrite Hex, Hcmd, Hparse. by destruct raw. }
  rewrite Hr. split.
  - by rewrite sortBy_Permutation, entriesLoop_packages.
  - intros e He. rewrite elem_of_sortBy_byUpdateType in He.
    apply entriesLoop_sound in He as (name & info & n' & Hin & Hc & Hcur & Hlat & He).
    apply changed_true in Hc as (c & l & Hc' & Hl' & ? & ? & ?).
    assert (c = currentVersion e) as <- by congruence.
    assert (l = latestVersion e) as <- by congruence.
    repeat split; [done..|].
    exists info. rewrite He. simpl. done.
Qed.

(** X8. In every entry of a changelog report the update type is the one
    [getUpdateType] gives to its two versions, the entry is marked as
    breaking exactly when that type is major, and release notes are
    looked up for breaking entries only. *)
Theorem changelog_breaking_iff_major (projectPath projectName : string) :
  forall e, e ∈ entries (getProjectChangelog projectPath projectName) ->
    updateType e = Changelog.getUpdateType toNumber (currentVersion e) (latestVersion e)
    /\ (hasBreakingChanges e = true <-> updateType e = Changelog.Major)
    /\ (updateType e <> Changelog.Major -> releaseNotes e = None).
Proof.
  intros e. rewrite getProjectChangelog_entries, elem_of_sortBy_byUpdateType.
  unfold Report.reported.
  destruct (existsSync _); [|by intros ?%elem_of_nil].
  destruct (cmd execSync 0 _ _ _) as [raw|]; [|by intros ?%elem_of_nil].
  destruct (parseOutdated raw) as [outdated|]; [|by intros ?%elem_of_nil].
  destruct (JS.falsy_str raw); [by intros ?%elem_of_nil|].
  intros (name & info & n' & _ & _ & _ & _ & He)%entriesLoop_sound.
  rewrite He. cbn [Report.mkEntry updateType hasBreakingChanges releaseNotes
                   currentVersion latestVersion].
  destruct (Changelog.getUpdateType toNumber _ _); simpl; repeat split; done.
Qed.

(** X9. For a repository address in the form npm stores it in,
    [git+<address>.git], [getChangelogUrl] drops the prefix and the
    suffix and turns a [git://] scheme into [https://]; when the address
    is on GitHub it answers the [CHANGELOG.md] of the [main] branch.
    When npm prints something that is not JSON, it answers the versions
    page of the package on npmjs.com. *)
Theorem getChangelogUrl_normal_form (n : nat) (packageName out : string) :
  execSync n ("npm view " +:+ packageName +:+ " repository.url homepage --json")
           "/tmp" 8000 = Exits out ->
  Text.trim out <> EmptyString ->
  (forall address rest,
      (parseJson (Text.trim out) = Some (JString ("git+" +:+ address +:+ ".git"))
       \/ parseJson (Text.trim out)
          = Some (JArray (JString ("git+" +:+ address +:+ ".git") :: rest))) ->
      let clean := JS.replace address "git://" "https://" in
      getChangelogUrl execSync parseJson n packageName
      = Some (if JS.includes clean "github.com"
              then clean +:+ "/blob/main/CHANGELOG.md" else clean))
  /\ (parseJson (Text.trim out) = None ->
      getChangelogUrl execSync parseJson n packageName
      = Some ("https://www.npmjs.com/package/" +:+ packageName +:+ "?activeTab=versions")).
Proof.
  intros Hexec Hout. unfold getChangelogUrl, cmd. rewrite Hexec.
  destruct (Text.trim out) as [|a info] eqn:Htrim; [done|]. cbn [JS.falsy_str].
  split.
  - intros address rest Hparse.
    assert (cleanRepoUrl ("git+" +:+ address +:+ ".git")
            = JS.replace address "git://" "https://") as Hclean.
    { unfold cleanRepoUrl. by rewrite replacePrefix_append, append_nil, stripSuffix_append. }
    destruct Hparse as [-> | ->]; simpl; rewrite Hclean; by destruct (JS.includes _ _).
  - by intros ->.
Qed.

End ReportProps.

(** ** Spans, lines and white space *)

Section SpanFacts.

Lemma span_append (p : ascii -> bool) (s : string) :
  (Text.span p s).1 +:+ (Text.span p s).2 = s.
Proof.
  induction s as [|a s IH]; [reflexivity|]. simpl.
  destruct (p a); [|reflexivity].
  destruct (Text.span p s) as [x r]. simpl in *. by rewrite append_cons, IH.
Qed.

Lemma span_all (p : ascii -> bool) (s : string) : Text.all p (Text.span p s).1 = true.
Proof.
  induction s as [|a s IH]; [reflexivity|]. simpl.
  destruct (p a) eqn:Ha; [|reflexivity].
  destruct (Text.span p s) as [x r]. simpl in *. by rewrite Ha.
Qed.

(** What follows a span does not start with a character of the class. *)
Lemma span_stop (p : ascii -> bool) (s : string) :
  match (Text.span p s).2 with
  | String a _ => p a = false
  | EmptyString => True
  end.
Proof.
  induction s as [|a s IH]; [done|]. simpl.
  destruct (p a) eqn:Ha; [|done].
  by destruct (Text.span p s) as [x r].
Qed.

(** A span over a prefix of the class goes on into what follows. *)
Lemma span_prefix (p : ascii -> bool) (x s : string) :
  Text.all p x = true ->
  Text.span p (x +:+ s) = (x +:+ (Text.span p s).1, (Text.span p s).2).
Proof.
  induction x as [|a x IH]; intros H.
  - rewrite !append_nil. by destruct (Text.span p s).
  - simpl in H. apply andb_true_iff in H as [Ha Hx].
    rewrite !append_cons. simpl. rewrite Ha, IH by done. reflexivity.
Qed.

Lemma span_whole (p : ascii -> bool) (x : string) :
  Text.all p x = true -> Text.span p x = (x, EmptyString).
Proof.
  intros H. rewrite <- (append_nil_r x) at 1. rewrite span_prefix by done.
  simpl. by rewrite append_nil_r.
Qed.

Lemma span_idem (p : ascii -> bool) (s : string) :
  Text.span p (Text.span p s).2 = (EmptyString, (Text.span p s).2).
Proof.
  pose proof (span_stop p s) as H.
  destruct (Text.span p s).2 as [|a r]; [done|]. simpl. by rewrite H.
Qed.

Lemma all_append (p : ascii -> bool) (s t : string) :
  Text.all p (s +:+ t) = Text.all p s && Text.all p t.
Proof.
  induction s as [|a s IH]; [reflexivity|].
  rewrite append_cons. simpl. by rewrite IH, andb_assoc.
Qed.

Lemma all_rev (p : ascii -> bool) (s : string) : Text.all p (String.rev s) = Text.all p s.
Proof.
  induction s as [|a s IH]; [reflexivity|].
  rewrite string_rev_cons, all_append, IH. simpl. by rewrite andb_true_r, andb_comm.
Qed.

Lemma all_impl (p q : ascii -> bool) (s : string) :
  (forall a, p a = true -> q a = true) -> Text.all p s = true -> Text.all q s = true.
Proof.
  intros Hpq. induction s as [|a s IH]; [done|]. simpl.
  intros [Ha Hs]%andb_true_iff. by rewrite (Hpq a Ha), IH.
Qed.

(** A string without white space is not changed by [trim]. *)
Lemma trimStart_nonSpace (s : string) :
  Text.all Text.nonSpace s = true -> Text.trimStart s = s.
Proof.
  destruct s as [|a s]; [done|]. simpl. unfold Text.nonSpace.
  intros [Ha _]%andb_true_iff. apply negb_true_iff in Ha. by rewrite Ha.
Qed.

Lemma trim_nonSpace (s : string) : Text.all Text.nonSpace s = true -> Text.trim s = s.
Proof.
  intros H. unfold Text.trim, Text.trimEnd.
  rewrite (trimStart_nonSpace s) by done.
  rewrite trimStart_nonSpace by (by rewrite all_rev).
  apply string_rev_involutive.
Qed.

End SpanFacts.

(** ** Lines *)

Section LineFacts.

Lemma split_go_spec (c : ascii) (cur s : string) :
  JS.split_go c cur s
  = (String.rev cur +:+ hd EmptyString (JS.split c s)) :: tl (JS.split c s).
Proof.
  unfold JS.split. revert cur. induction s as [|a s IH]; intros cur; simpl.
  - by rewrite append_nil_r.
  - destruct (Ascii.eqb a c).
    + by rewrite append_nil_r.
    + rewrite IH, (IH (String a "")), string_rev_cons. simpl.
      by rewrite append_assoc.
Qed.

Lemma split_sep (c : ascii) (s : string) :
  JS.split c (String c s) = EmptyString :: JS.split c s.
Proof. unfold JS.split. simpl. by rewrite Ascii.eqb_refl. Qed.

Lemma split_other (c a : ascii) (s : string) :
  Ascii.eqb a c = false ->
  JS.split c (String a s)
  = String a (hd EmptyString (JS.split c s)) :: tl (JS.split c s).
Proof. intros H. unfold JS.split at 1. simpl. rewrite H. apply split_go_spec. Qed.

Lemma split_nonempty (c : ascii) (s : string) : JS.split c s <> [].
Proof. unfold JS.split. rewrite split_go_spec. done. Qed.

(** A string in which the separator does not occur is one piece. *)
Lemma split_whole (c : ascii) (s : string) :
  Text.all (fun a => negb (Ascii.eqb a c)) s = true -> JS.split c s = [s].
Proof.
  induction s as [|a s IH]; [done|]. simpl.
  intros [Ha Hs]%andb_true_iff. apply negb_true_iff in Ha.
  by rewrite split_other, IH.
Qed.

(** The pieces of [x c s] are [x], when the separator does not occur in
    it, and the pieces of [s]. *)
Lemma split_cons_piece (c : ascii) (x s : string) :
  Text.all (fun a => negb (Ascii.eqb a c)) x = true ->
  JS.split c (x +:+ String c s) = x :: JS.split c s.
Proof.
  induction x as [|a x IH].
  - intros _. rewrite append_nil. apply split_sep.
  - simpl. intros [Ha Hx]%andb_true_iff. apply negb_true_iff in Ha.
    rewrite append_cons, split_other, IH by done. reflexivity.
Qed.

Lemma join_cons (sep x y : string) (l : list string) :
  JS.join sep (x :: y :: l) = x +:+ sep +:+ JS.join sep (y :: l).
Proof. reflexivity. Qed.

(** [split] undoes [join] on lines without a line break. *)
Lemma split_join (l : list string) :
  l <> [] ->
  Forall (fun x => Text.all (fun a => negb (Ascii.eqb a JS.LF)) x = true) l ->
  JS.split JS.LF (JS.join JS.nl l) = l.
Proof.
  intros Hne H. induction H as [|x l Hx Hl IH]; [done|].
  destruct l as [|y l].
  - simpl. by apply split_whole.
  - rewrite join_cons. unfold JS.nl at 1. rewrite append_cons, append_nil.
    rewrite split_cons_piece by done. by rewrite IH.
Qed.

(** [join] undoes [split]. *)
Lemma join_split (s : string) : JS.join JS.nl (JS.split JS.LF s) = s.
Proof.
  induction s as [|a s IH]; [reflexivity|].
  destruct (Ascii.eqb a JS.LF) eqn:Ha.
  - apply Ascii.eqb_eq in Ha as ->. rewrite split_sep.
    pose proof (split_nonempty JS.LF s) as Hne.
    destruct (JS.split JS.LF s) as [|x l] eqn:E; [done|].
    rewrite join_cons, IH. reflexivity.
  - rewrite split_other by done.
    pose proof (split_nonempty JS.LF s) as Hne.
    destruct (JS.split JS.LF s) as [|x [|y l]] eqn:E; [done| |].
    + simpl in *. by rewrite IH.
    + cbn [hd tl]. rewrite join_cons in *. by rewrite append_cons, IH.
Qed.

(** The pieces of a split do not contain the separator. *)
Lemma split_pieces (c : ascii) (s : string) :
  Forall (fun x => Text.all (fun a => negb (Ascii.eqb a c)) x = true) (JS.split c s).
Proof.
  induction s as [|a s IH]; [by repeat constructor|].
  pose proof (split_nonempty c s) as Hne.
  destruct (Ascii.eqb a c) eqn:Ha.
  - apply Ascii.eqb_eq in Ha as ->. rewrite split_sep. by constructor.
  - rewrite split_other by done.
    destruct (JS.split c s) as [|x l]; [done|].
    apply Forall_cons in IH as [Hx Hl]. constructor; [|done].
    simpl. by rewrite Ha, Hx.
Qed.

End LineFacts.

(** ** Paths in normal form *)

Section PathFacts.
Import Migrate.
Local Open Scope nat_scope.

Lemma noSlash_all (s : string) :
  noSlash s = Text.all (fun a => negb (Ascii.eqb a "/")) s.
Proof. induction s as [|a s IH]; [done|]. simpl. by rewrite IH. Qed.

(** A separator in the middle of a string separates its pieces. *)
Lemma split_middle (c : ascii) (x s : string) :
  JS.split c (x +:+ String c s) = JS.split c x ++ JS.split c s.
Proof.
  induction x as [|a x IH].
  - rewrite append_nil. apply split_sep.
  - rewrite append_cons. destruct (Ascii.eqb a c) eqn:Ha.
    + apply Ascii.eqb_eq in Ha as ->. by rewrite !split_sep, IH.
    + rewrite !split_other, IH by done.
      pose proof (split_nonempty c x) as Hne.
      by destruct (JS.split c x).
Qed.

Lemma join_split_char (c : ascii) (s : string) :
  JS.join (String c "") (JS.split c s) = s.
Proof.
  induction s as [|a s IH]; [reflexivity|].
  pose proof (split_nonempty c s) as Hne.
  destruct (Ascii.eqb a c) eqn:Ha.
  - apply Ascii.eqb_eq in Ha as ->. rewrite split_sep.
    destruct (JS.split c s) as [|x l] eqn:E; [done|].
    rewrite join_cons, IH. reflexivity.
  - rewrite split_other by done.
    destruct (JS.split c s) as [|x [|y l]] eqn:E; [done| |].
    + simpl in *. by rewrite IH.
    + cbn [hd tl]. rewrite join_cons in *. by rewrite append_cons, IH.
Qed.

Lemma join_snoc (sep x : string) (l : list string) :
  l <> [] -> JS.join sep (l ++ [x]) = JS.join sep l +:+ sep +:+ x.
Proof.
  induction l as [|y l IH]; [done|]. intros _.
  destruct l as [|z l]; [reflexivity|].
  change ((y :: z :: l) ++ [x]) with (y :: (z :: l) ++ [x]).
  cbn [app]. rewrite !join_cons. cbn [app] in IH. rewrite IH by done.
  by rewrite !append_assoc.
Qed.

Lemma endsWithSlash_append (x n : string) :
  n <> EmptyString -> endsWithSlash (x +:+ n) = endsWithSlash n.
Proof.
  intros Hn. induction x as [|a x IH]; [done|].
  rewrite append_cons. cbn [endsWithSlash].
  destruct (x +:+ n) eqn:E; [|done].
  destruct x; [by rewrite append_nil in E|done].
Qed.

Lemma endsWithSlash_noSlash (n : string) : noSlash n = true -> endsWithSlash n = false.
Proof.
  induction n as [|a n IH]; [done|]. simpl. intros [Ha Hn]%andb_true_iff.
  destruct n; [by apply negb_true_iff in Ha|by apply IH].
Qed.

(** [normalize] keeps plain segments as they are. *)
Lemma normalizeSegments_plain (allowAboveRoot : bool) (segments res : list string) :
  forallb plainSegment segments = true ->
  normalizeSegments allowAboveRoot segments res = rev res ++ segments.
Proof.
  revert res. induction segments as [|s segments IH]; intros res H; simpl.
  - by rewrite app_nil_r.
  - simpl in H. apply andb_true_iff in H as [Hs H].
    unfold plainSegment, entryName in Hs.
    apply andb_true_iff in Hs as [[[Hne _]%andb_true_iff Hdot]%andb_true_iff Hdots].
    apply negb_true_iff in Hdot, Hdots.
    assert ((s =? "")%string = false) as ->.
    { destruct s; [done|reflexivity]. }
    rewrite Hdot, Hdots. cbn [orb]. rewrite IH by done. simpl.
    by rewrite <- app_assoc.
Qed.

Lemma plainSegment_spec (n : string) :
  plainSegment n = true -> n <> EmptyString /\ noSlash n = true.
Proof.
  unfold plainSegment, entryName.
  intros [[[Hne Hs]%andb_true_iff _]%andb_true_iff _]%andb_true_iff.
  split; [by destruct n|done].
Qed.

(** Joining a path in normal form and a plain segment puts a separator
    between them, and gives a path in normal form. *)
Lemma pathJoin_normal (p n : string) :
  normalPath p = true -> plainSegment n = true ->
  pathJoin p n = p +:+ "/" +:+ n /\ normalPath (p +:+ "/" +:+ n) = true.
Proof.
  intros Hp Hn. destruct (plainSegment_spec n Hn) as [Hne Hslash].
  change (p +:+ "/" +:+ n) with (p +:+ String "/" n).
  assert (JS.split "/" n = [n]) as Hsplit.
  { apply split_whole. by rewrite <- noSlash_all. }
  assert (endsWithSlash (p +:+ String "/" n) = false) as Hend.
  { replace (p +:+ String "/" n) with ((p +:+ "/") +:+ n) by (by rewrite append_assoc).
    rewrite endsWithSlash_append by done. by apply endsWithSlash_noSlash. }
  assert (pathJoin p n = normalize (p +:+ String "/" n)) as ->.
  { unfold pathJoin, join. destruct p as [|c rest]; [done|]. by destruct n. }
  destruct p as [|c rest]; [done|].
  unfold normalize, normalPath in *. rewrite append_cons in *.
  rewrite Hend.
  destruct (Ascii.eqb c "/") eqn:Hc.
  - apply Ascii.eqb_eq in Hc as ->. cbn [negb].
    rewrite split_sep, split_middle, Hsplit. cbn [normalizeSegments String.eqb orb].
    assert (forallb plainSegment (JS.split "/" rest ++ [n]) = true) as Hall.
    { rewrite forallb_app, Hp. simpl. by rewrite Hn. }
    rewrite normalizeSegments_plain by done. rewrite Hall.
    cbn [rev app]. rewrite join_snoc by apply split_nonempty.
    rewrite (join_split_char "/").
    destruct rest as [|r0 rest']; [done|].
    rewrite !append_cons, append_nil, append_nil_r. done.
  - cbn [negb].
    change (String c (rest +:+ String "/" n)) with (String c rest +:+ String "/" n).
    rewrite split_middle, Hsplit.
    assert (forallb plainSegment (JS.split "/" (String c rest) ++ [n]) = true) as Hall.
    { rewrite forallb_app, Hp. simpl. by rewrite Hn. }
    rewrite normalizeSegments_plain by done. rewrite Hall.
    cbn [rev app]. rewrite join_snoc by apply split_nonempty.
    rewrite (join_split_char "/").
    rewrite !append_cons, append_nil, append_nil_r. done.
Qed.

End PathFacts.

(** ** Migration pattern engine: one issue per (file, line, pattern) *)

Section MigrateTriples.
Import Migrate.
Local Open Scope nat_scope.
Context (fs : FileSystem).
Hypothesis fs_wellFormed : wellFormed fs.

(** An entry that is not skipped has a plain name. *)
Lemma entry_plain dir entries entry :
  readdirSync fs dir = Some entries -> entry ∈ entries ->
  skipped (name entry) = false ->
  plainSegment (name entry) = true.
Proof.
  intros Hdir Hentry Hskip. destruct (fs_wellFormed _ _ Hdir) as [_ Hnames].
  rewrite Forall_forall in Hnames. specialize (Hnames _ Hentry).
  apply skipped_hidden in Hskip.
  unfold plainSegment. rewrite Hnames.
  destruct (String.eqb_spec (name entry) ".") as [E|_]; [by rewrite E in Hskip|].
  destruct (String.eqb_spec (name entry) "..") as [E|_]; [by rewrite E in Hskip|].
  done.
Qed.

(** Walked files lie under the directory walked. *)
Lemma walk_under levels dir extensions f :
  normalPath dir = true ->
  f ∈ walk fs levels dir extensions -> exists rest, f = dir +:+ String "/" rest.
Proof.
  revert dir f. induction levels as [|levels IH]; intros dir f Hnormal.
  - by intros ?%elem_of_nil.
  - rewrite walk_S. destruct (readdirSync fs dir) as [entries|] eqn:Hdir;
      [|by intros ?%elem_of_nil].
    rewrite list_elem_of_In, in_flat_map.
    intros (entry & Hentry%list_elem_of_In & Hf%list_elem_of_In). unfold entryFiles in Hf.
    destruct (skipped _) eqn:Hskip; [by apply elem_of_nil in Hf|].
    destruct (pathJoin_normal dir (name entry) Hnormal
                (entry_plain _ _ _ Hdir Hentry Hskip)) as [Hjoin Hnormal'].
    rewrite Hjoin in Hf.
    destruct (isDirectory entry).
    + apply IH in Hf as [rest ->]; [|done].
      exists (name entry +:+ String "/" rest).
      by rewrite !append_assoc.
    + destruct (includesExt _ _); [|by apply elem_of_nil in Hf].
      apply list_elem_of_singleton in Hf as ->. by exists (name entry).
Qed.

Lemma entryFiles_shape levels dir entries extensions entry f :
  normalPath dir = true ->
  readdirSync fs dir = Some entries -> entry ∈ entries ->
  f ∈ entryFiles fs levels dir extensions entry ->
  exists suffix, f = (dir +:+ "/") +:+ (name entry +:+ suffix) /\ tailOk suffix.
Proof.
  intros Hnormal Hdir Hentry. unfold entryFiles.
  destruct (skipped _) eqn:Hskip; [by intros ?%elem_of_nil|].
  destruct (pathJoin_normal dir (name entry) Hnormal
              (entry_plain _ _ _ Hdir Hentry Hskip)) as [Hjoin Hnormal'].
  rewrite Hjoin.
  destruct (isDirectory entry).
  - intros [rest ->]%walk_under; [|done]. exists (String "/" rest). split; [|done].
    by rewrite !append_assoc.
  - destruct (includesExt _ _); [|by intros ?%elem_of_nil].
    intros ->%list_elem_of_singleton. exists "". split; [|done].
    by rewrite append_nil_r, append_assoc.
Qed.

(** No file is walked twice. *)
Lemma walk_NoDup levels dir extensions :
  normalPath dir = true -> NoDup (walk fs levels dir extensions).
Proof.
  revert dir. induction levels as [|levels IH]; intros dir Hnormal; [constructor|].
  rewrite walk_S. destruct (readdirSync fs dir) as [entries|] eqn:Hdir; [|constructor].
  destruct (fs_wellFormed _ _ Hdir) as [Hnames Hslash].
  apply NoDup_flat_map.
  - by apply (NoDup_map_inv name).
  - intros entry Hentry. unfold entryFiles.
    destruct (skipped _) eqn:Hskip; [constructor|].
    destruct (isDirectory entry).
    + destruct (pathJoin_normal dir (name entry) Hnormal
                  (entry_plain _ _ _ Hdir Hentry Hskip)) as [-> Hnormal'].
      by apply IH.
    + destruct (includesExt _ _); [apply NoDup_singleton|constructor].
  - intros e1 e2 f H1 H2 (s1 & -> & T1)%(entryFiles_shape _ _ entries)
                         (s2 & E & T2)%(entryFiles_shape _ _ entries); try done.
    apply String.app_inj in E.
    rewrite Forall_forall in Hslash.
    apply (map_inj_on name entries); [done..|].
    apply (name_of_path _ _ s1 s2); auto.
    + specialize (Hslash _ H1). unfold entryName in Hslash.
      by apply andb_true_iff in Hslash as [_ ?].
    + specialize (Hslash _ H2). unfold entryName in Hslash.
      by apply andb_true_iff in Hslash as [_ ?].
Qed.

Context (projectPath : string).

Lemma ruleIssues_NoDup rule :
  normalPath projectPath = true ->
  NoDup (map (fun pat => source (p_regex pat)) (patterns rule)) ->
  NoDup (map triple (ruleIssues fs projectPath rule)).
Proof.
  intros Hnormal Hsrc. unfold ruleIssues. rewrite map_flat_map.
  apply NoDup_flat_map.
  - by apply (NoDup_map_inv (fun pat => source (p_regex pat))).
  - intros pat _. rewrite map_flat_map. apply NoDup_flat_map.
    + by apply walk_NoDup.
    + intros f _. unfold fileIssues. destruct (readFileSync fs f); [|constructor].
      apply lineIssues_NoDup.
    + intros f1 f2 t Hf1 Hf2 [E1 _]%fileIssues_triple [E2 _]%fileIssues_triple.
      apply walk_under in Hf1 as [r1 ->]; [|done].
      apply walk_under in Hf2 as [r2 ->]; [|done].
      change (String "/" r1) with ("/" +:+ r1) in *.
      change (String "/" r2) with ("/" +:+ r2) in *.
      rewrite <- !append_assoc, !replace_prefix in *. congruence.
  - intros p1 p2 t Hp1 Hp2 H1 H2.
    rewrite map_flat_map in H1, H2.
    apply list_elem_of_In, in_flat_map in H1 as (f1 & _ & [_ E1]%list_elem_of_In%fileIssues_triple).
    apply list_elem_of_In, in_flat_map in H2 as (f2 & _ & [_ E2]%list_elem_of_In%fileIssues_triple).
    apply (map_inj_on (fun pat => source (p_regex pat)) (patterns rule)); [done..|].
    congruence.
Qed.

End MigrateTriples.

Section MigrateOnePerTriple.
Import Migrate.
Local Open Scope nat_scope.
Context (fs : FileSystem) (projectPath : string)
        (getFrameworkMajor : string -> string -> option Z).


End MigrateOnePerTriple.

(** ** Installed packages *)

Section InventoryProps.
Import Inventory.

(** X10. Stripping the range operators of a version range does not
    depend on which operators lead it, nor on how many: what is left is
    the range from its first character that is not an operator.  It does
    not start with an operator, and stripping it again changes nothing;
    a range without a leading operator is left as it is. *)
Theorem stripRange_operators (operators spec : string) :
  Text.all rangeOperator operators = true ->
  stripRange (operators +:+ spec) = stripRange spec
  /\ stripRange (stripRange spec) = stripRange spec
  /\ match stripRange spec with
     | String a _ => rangeOperator a = false
     | EmptyString => True
     end
  /\ (match spec with
      | String a _ => rangeOperator a = false
      | EmptyString => True
      end -> stripRange spec = spec).
Proof.
  intros Hops. unfold stripRange. split; [|split; [|split]].
  - by rewrite span_prefix.
  - by rewrite span_idem.
  - apply span_stop.
  - destruct spec as [|a spec]; [done|]. simpl. by intros ->.
Qed.

(** *** [requirements.txt] *)

Lemma nameChar_nonSpace a : nameChar a = true -> Text.nonSpace a = true.
Proof.
  destruct a as [[] [] [] [] [] [] [] []]; by vm_compute.
Qed.

Lemma nonSpace_dot a : Text.nonSpace a = true -> Text.dot a = true.
Proof.
  destruct a as [[] [] [] [] [] [] [] []]; by vm_compute.
Qed.

Lemma nonSpace_not_LF a : Text.nonSpace a = true -> negb (Ascii.eqb a JS.LF) = true.
Proof.
  destruct a as [[] [] [] [] [] [] [] []]; by vm_compute.
Qed.

Lemma pinnable_spec pkg :
  pinnable pkg = true ->
  Osv.name pkg <> EmptyString /\ Text.all nameChar (Osv.name pkg) = true
  /\ Osv.version pkg <> EmptyString /\ Text.all Text.nonSpace (Osv.version pkg) = true.
Proof.
  unfold pinnable. intros [[[Hn Ha]%andb_true_iff Hv]%andb_true_iff Hs]%andb_true_iff.
  repeat split; try done.
  - by destruct (Osv.name pkg).
  - by destruct (Osv.version pkg).
Qed.

Lemma requirementLine_nonSpace pkg :
  pinnable pkg = true -> Text.all Text.nonSpace (requirementLine pkg) = true.
Proof.
  intros (_ & Hn & _ & Hv)%pinnable_spec. unfold requirementLine.
  rewrite !all_append, Hv, (all_impl _ _ _ nameChar_nonSpace Hn). reflexivity.
Qed.

Lemma matchRequirement_line pkg :
  pinnable pkg = true ->
  matchRequirement (requirementLine pkg) = Some (Osv.name pkg, Osv.version pkg).
Proof.
  intros (Hne & Hn & Hve & Hv)%pinnable_spec. unfold matchRequirement, requirementLine.
  rewrite span_prefix by done. cbn [Text.span nameChar]. simpl.
  rewrite append_nil_r.
  destruct (Osv.name pkg) as [|a n] eqn:En; [done|]. cbn [JS.falsy_str].
  rewrite span_whole by (by apply (all_impl _ _ _ nonSpace_dot)).
  by destruct (Osv.version pkg).
Qed.

Lemma pythonLoop_spec (lines : list string) (acc : list Osv.Package) :
  fold_left
    (fun packages line =>
       match matchRequirement (Text.trim line) with
       | Some (name, version) =>
           packages ++ [ {| Osv.name := name; Osv.version := version |} ]
       | None => packages
       end) lines acc
  = acc ++ omap (fun line =>
                   match matchRequirement (Text.trim line) with
                   | Some (name, version) =>
                       Some {| Osv.name := name; Osv.version := version |}
                   | None => None
                   end) lines.
Proof.
  revert acc. induction lines as [|line lines IH]; intros acc; simpl.
  - by rewrite app_nil_r.
  - rewrite IH. destruct (matchRequirement (Text.trim line)) as [[n v]|]; simpl;
      by rewrite <- ?app_assoc.
Qed.

(** X11. Reading back a [requirements.txt] that pins each package on a
    line of its own, [name==version], gives the packages in the order of
    the file, for names made of letters, digits, [_] and [-] and versions
    without white space. *)
Theorem pythonPackages_round_trip (pkgs : list Osv.Package) :
  Forall (fun pkg => pinnable pkg = true) pkgs ->
  pythonPackages (JS.join JS.nl (map requirementLine pkgs)) = pkgs.
Proof.
  intros Hpkgs. unfold pythonPackages. rewrite pythonLoop_spec. simpl.
  destruct pkgs as [|pkg0 pkgs0]; [done|].
  rewrite split_join; [|done|].
  - induction Hpkgs as [|pkg pkgs Hpkg _ IH]; [done|].
    cbn [map omap list_omap].
    rewrite trim_nonSpace by (by apply requirementLine_nonSpace).
    rewrite matchRequirement_line by done. rewrite IH. by destruct pkg.
  - apply Forall_fmap. eapply Forall_impl; [exact Hpkgs|].
    intros pkg Hpkg. simpl.
    by apply (all_impl _ _ _ nonSpace_not_LF), requirementLine_nonSpace.
Qed.

(** *** [go.sum] *)

Lemma goLoop_names (lines : list string) (seen : gset string) (acc : list Osv.Package) :
  NoDup (map Osv.name acc) ->
  (forall n, n ∈ map Osv.name acc -> n ∈ seen) ->
  NoDup (map Osv.name (goLoop lines seen acc)).
Proof.
  revert seen acc. induction lines as [|line lines IH]; intros seen acc Hnd Hseen; [done|].
  simpl. destruct (matchGoSum line) as [[n v]|]; [|by apply IH].
  case_bool_decide as Hn; [by apply IH|].
  apply IH.
  - rewrite map_app. simpl. apply NoDup_app. split; [done|]. split.
    + intros m Hm ->%list_elem_of_singleton. by apply Hn, Hseen.
    + apply NoDup_singleton.
  - intros m. rewrite map_app, elem_of_app. simpl.
    intros [Hm|Hm].
    + apply elem_of_union_r. by apply Hseen.
    + apply list_elem_of_singleton in Hm as ->. by apply elem_of_union_l, elem_of_singleton.
Qed.

(** The packages of the loop: those found before, and for every module
    not seen before, the version of the first line that names it. *)
Lemma goLoop_elem (lines : list string) (seen : gset string) (acc : list Osv.Package)
    (pkg : Osv.Package) :
  pkg ∈ goLoop lines seen acc <->
  pkg ∈ acc
  \/ ((Osv.name pkg ∉ seen)
      /\ exists i line v,
           lines !! i = Some line
           /\ matchGoSum line = Some (Osv.name pkg, v)
           /\ Osv.version pkg = Docs.stripSuffix v "/go.mod"
           /\ forall j line' v', (j < i)%nat -> lines !! j = Some line' ->
                matchGoSum line' <> Some (Osv.name pkg, v')).
Proof.
  revert seen acc. induction lines as [|line lines IH]; intros seen acc.
  - simpl. split; [by left|]. intros [?|(_ & i & ? & ? & ? & _)]; done.
  - cbn [goLoop].
    assert ((exists i line0 v,
               (line :: lines) !! i = Some line0
               /\ matchGoSum line0 = Some (Osv.name pkg, v)
               /\ Osv.version pkg = Docs.stripSuffix v "/go.mod"
               /\ forall j line' v', (j < i)%nat -> (line :: lines) !! j = Some line' ->
                    matchGoSum line' <> Some (Osv.name pkg, v'))
            <-> (exists v, matchGoSum line = Some (Osv.name pkg, v)
                           /\ Osv.version pkg = Docs.stripSuffix v "/go.mod")
                \/ ((forall v', matchGoSum line <> Some (Osv.name pkg, v'))
                    /\ exists i line0 v,
                         lines !! i = Some line0
                         /\ matchGoSum line0 = Some (Osv.name pkg, v)
                         /\ Osv.version pkg = Docs.stripSuffix v "/go.mod"
                         /\ forall j line' v', (j < i)%nat -> lines !! j = Some line' ->
                              matchGoSum line' <> Some (Osv.name pkg, v'))) as Hsplit.
    { split.
      - intros ([|i] & line0 & v & Hi & Hm & Hv & Hfirst).
        + left. simpl in Hi. injection Hi as <-. eauto.
        + right. split.
          * intros v'. apply (Hfirst 0%nat); [lia|done].
          * exists i, line0, v. repeat split; try done.
            intros j line' v' Hj Hl. apply (Hfirst (S j)); [lia|done].
      - intros [(v & Hm & Hv)|(Hno & i & line0 & v & Hi & Hm & Hv & Hfirst)].
        + exists 0%nat, line, v. repeat split; try done. intros j ? ? Hj. lia.
        + exists (S i), line0, v. repeat split; try done.
          intros [|j] line' v' Hj Hl.
          * simpl in Hl. injection Hl as <-. apply Hno.
          * apply (Hfirst j); [lia|done]. }
    rewrite Hsplit. clear Hsplit.
    destruct (matchGoSum line) as [[n v]|] eqn:Hline.
    + case_bool_decide as Hn.
      * rewrite IH. split.
        -- intros [?|(Hs & Hex)]; [by left|]. right. split; [done|]. right.
           split; [|done]. intros v' [= -> _]. done.
        -- intros [?|(Hs & [(v0 & [= -> _] & _)|(_ & Hex)])]; [by left|done|].
           right. done.
      * rewrite IH, elem_of_app, list_elem_of_singleton. split.
        -- intros [[?|Hpkg]|(Hs & Hex)].
           ++ by left.
           ++ right. subst pkg. simpl. split; [done|]. left. by exists v.
           ++ apply not_elem_of_union in Hs as [Hne%not_elem_of_singleton Hs].
              right. split; [done|]. right. split; [|done].
              intros v' [= Hname _]. by apply Hne.
        -- intros [?|(Hs & [(v0 & Hm & Hv)|(Hno & Hex)])].
           ++ by left; left.
           ++ left. right. injection Hm as Hname Hv0.
              destruct pkg as [pn pv]. simpl in *. by subst.
           ++ right. split; [|done].
              apply not_elem_of_union. split; [|done].
              apply not_elem_of_singleton. intros Hname.
              apply (Hno v). by rewrite Hname.
    + rewrite IH. split.
      * intros [?|(Hs & Hex)]; [by left|]. right. split; [done|]. right. done.
      * intros [?|(Hs & [(v0 & [=] & _)|(_ & Hex)])]; [by left|]. right. done.
Qed.

(** X12. [go.sum] names a module on several lines; the inventory keeps
    each module once, with the version of the first line that names it,
    without the [/go.mod] suffix of that line. *)
Theorem goPackages_first_line_wins (content : string) :
  NoDup (map Osv.name (goPackages content))
  /\ forall pkg,
       pkg ∈ goPackages content <->
       exists i line v,
         JS.split JS.LF content !! i = Some line
         /\ matchGoSum line = Some (Osv.name pkg, v)
         /\ Osv.version pkg = Docs.stripSuffix v "/go.mod"
         /\ forall j line' v', (j < i)%nat -> JS.split JS.LF content !! j = Some line' ->
              matchGoSum line' <> Some (Osv.name pkg, v').
Proof.
  unfold goPackages. split.
  - apply goLoop_names; [constructor|]. by intros n ?%elem_of_nil.
  - intros pkg. rewrite goLoop_elem. split.
    + by intros [?%elem_of_nil|[_ ?]].
    + intros H. right. split; [apply not_elem_of_empty|done].
Qed.

(** *** [Cargo.lock] *)

Lemma startsWith_drop (s p : string) :
  JS.startsWith s p = true -> s = p +:+ JS.drop_str (String.length p) s.
Proof.
  revert s. induction p as [|b p IH]; intros s; [by rewrite append_nil|].
  destruct s as [|a s]; [done|]. simpl.
  destruct (Ascii.eqb a b) eqn:E; [|done]. apply Ascii.eqb_eq in E as ->.
  intros H. rewrite append_cons. f_equal. by apply IH.
Qed.

Lemma lazyDot_sound {R} (k : string -> option R) (acc s x : string) (r : R) :
  Text.lazyDot k acc s = Some (x, r) ->
  exists y s', x = String.rev acc +:+ y /\ y <> EmptyString
               /\ Text.all Text.dot y = true /\ s = y +:+ s' /\ k s' = Some r.
Proof.
  revert acc. induction s as [|a s IH]; intros acc; [done|]. simpl.
  destruct (Text.dot a) eqn:Ha; [|done].
  destruct (k s) as [r0|] eqn:Hk.
  - intros [= <- <-]. exists (String a ""), s. rewrite string_rev_cons.
    repeat split; try done. simpl. by rewrite Ha.
  - intros (y & s' & -> & _ & Hy & -> & Hr)%IH.
    exists (String a y), s'. rewrite string_rev_cons, append_assoc.
    repeat split; try done. simpl. by rewrite Ha, Hy.
Qed.

Lemma matchPackageHere_sound (s name version rest : string) :
  matchPackageHere s = Some (name, (version, rest)) ->
  s = packageBlock {| Osv.name := name; Osv.version := version |} +:+ rest
  /\ name <> EmptyString /\ version <> EmptyString
  /\ Text.all Text.dot name = true /\ Text.all Text.dot version = true.
Proof.
  unfold matchPackageHere, packageBlock.
  destruct (JS.startsWith s packageHead) eqn:Hhead; [|done].
  apply startsWith_drop in Hhead. rewrite Hhead at 2.
  intros (n & s1 & -> & Hn & Hdn & -> & Hk)%lazyDot_sound.
  destruct (JS.startsWith s1 packageMiddle) eqn:Hmid; [|done].
  apply startsWith_drop in Hmid. rewrite Hmid.
  apply lazyDot_sound in Hk as (v & s2 & -> & Hv & Hdv & -> & Hq).
  destruct s2 as [|c s2]; [done|]. simpl in Hq.
  destruct (Ascii.eqb c quote) eqn:Hc; [|done]. apply Ascii.eqb_eq in Hc as ->.
  injection Hq as <-.
  change (String.rev "") with "". rewrite !append_nil. cbn [Osv.name Osv.version].
  repeat split; try done.
  by rewrite !append_assoc.
Qed.

Lemma execAll_sound (skip : nat) (s : string) (pkg : Osv.Package) :
  pkg ∈ execAll skip s ->
  exists before after,
    s = before +:+ packageBlock pkg +:+ after
    /\ Osv.name pkg <> EmptyString /\ Osv.version pkg <> EmptyString
    /\ Text.all Text.dot (Osv.name pkg) = true
    /\ Text.all Text.dot (Osv.version pkg) = true.
Proof.
  revert skip. induction s as [|a s IH]; intros skip; [by intros ?%elem_of_nil|].
  assert (forall k, pkg ∈ execAll k s ->
            exists before after,
              String a s = before +:+ packageBlock pkg +:+ after
              /\ Osv.name pkg <> EmptyString /\ Osv.version pkg <> EmptyString
              /\ Text.all Text.dot (Osv.name pkg) = true
              /\ Text.all Text.dot (Osv.version pkg) = true) as Hrest.
  { intros k (before & after & -> & ?)%IH. by exists (String a before), after. }
  cbn [execAll]. destruct skip as [|skip]; [|apply Hrest].
  destruct (matchPackageHere (String a s)) as [[name [version rest]]|] eqn:Hm;
    [|apply Hrest].
  intros [->|H]%elem_of_cons; [|by eapply Hrest].
  apply matchPackageHere_sound in Hm as (Hs & ?).
  exists "", rest. by rewrite append_nil.
Qed.

Lemma includes_append (before s after : string) :
  JS.includes (before +:+ s +:+ after) s = true.
Proof.
  induction before as [|a before IH].
  - rewrite append_nil. destruct (s +:+ after) eqn:E.
    + destruct s; [done|]. by rewrite append_cons in E.
    + rewrite <- E. cbn [JS.includes]. rewrite E at 1. cbn [JS.includes].
      rewrite <- E. by rewrite startsWith_append.
  - rewrite append_cons. cbn [JS.includes]. rewrite IH. apply orb_true_r.
Qed.

(** X13. Every package the inventory reads from [Cargo.lock] is declared
    there: the file contains the block
    [[[package]]], [name = "..."], [version = "..."] with that name and
    that version, which are not empty and hold no line break. *)
Theorem rustPackages_declared (content : string) (pkg : Osv.Package) :
  pkg ∈ rustPackages content ->
  JS.includes content (packageBlock pkg) = true
  /\ Osv.name pkg <> EmptyString /\ Osv.version pkg <> EmptyString
  /\ Text.all Text.dot (Osv.name pkg) = true
  /\ Text.all Text.dot (Osv.version pkg) = true.
Proof.
  intros (before & after & -> & ?)%execAll_sound.
  split; [apply includes_append|done].
Qed.

End InventoryProps.

Section CargoRoundTrip.
Import Inventory.
Local Open Scope nat_scope.

(** A lazy group stops at the first place where the rest of the pattern
    matches. *)
Lemma lazyDot_exact {R} (k : string -> option R) (acc x rest : string) (r : R) :
  x <> EmptyString -> Text.all plain x = true ->
  (forall c t, plain c = true -> k (String c t) = None) ->
  k rest = Some r ->
  Text.lazyDot k acc (x +:+ rest) = Some (String.rev acc +:+ x, r).
Proof.
  intros Hne Hx Hk Hrest. revert acc.
  induction x as [|a x IH]; intros acc; [done|].
  simpl in Hx. apply andb_true_iff in Hx as [Ha Hx].
  assert (Text.dot a = true) as Hdot by (by apply andb_true_iff in Ha as [? _]).
  rewrite append_cons. cbn [Text.lazyDot]. rewrite Hdot.
  destruct x as [|b x].
  - rewrite append_nil, Hrest, string_rev_cons. done.
  - simpl in Hx. apply andb_true_iff in Hx as [Hb Hx'].
    rewrite append_cons, (Hk b _ Hb), <- append_cons.
    rewrite IH; [|done|by simpl; rewrite Hb, Hx'].
    by rewrite string_rev_cons, append_assoc.
Qed.

Lemma lockable_spec pkg :
  lockable pkg = true ->
  Osv.name pkg <> EmptyString /\ Text.all plain (Osv.name pkg) = true
  /\ Osv.version pkg <> EmptyString /\ Text.all plain (Osv.version pkg) = true.
Proof.
  unfold lockable. intros [[[Hn Ha]%andb_true_iff Hv]%andb_true_iff Hs]%andb_true_iff.
  repeat split; try done.
  - by destruct (Osv.name pkg).
  - by destruct (Osv.version pkg).
Qed.

Lemma plain_not_quote c : plain c = true -> Ascii.eqb c quote = false.
Proof. unfold plain. intros [_ H]%andb_true_iff. by apply negb_true_iff in H. Qed.

Lemma matchPackageHere_block pkg rest :
  lockable pkg = true ->
  matchPackageHere (packageBlock pkg +:+ rest)
  = Some (Osv.name pkg, (Osv.version pkg, rest)).
Proof.
  intros (Hn & Han & Hv & Hav)%lockable_spec. unfold matchPackageHere, packageBlock.
  rewrite !append_assoc, startsWith_append, drop_str_append.
  rewrite (lazyDot_exact _ "" (Osv.name pkg) _ (Osv.version pkg, rest)); [done..| |].
  - intros c t Hc. unfold packageMiddle.
    rewrite append_cons. cbn [JS.startsWith]. by rewrite (plain_not_quote c Hc).
  - rewrite startsWith_append, drop_str_append.
    rewrite (lazyDot_exact _ "" (Osv.version pkg) _ rest); [done..| |].
    + intros c t Hc. cbn [closingQuote]. by rewrite (plain_not_quote c Hc).
    + rewrite append_cons. cbn [closingQuote]. by rewrite Ascii.eqb_refl.
Qed.

Lemma execAll_skip (x s : string) : execAll (String.length x) (x +:+ s) = execAll 0 s.
Proof.
  induction x as [|a x IH]; [by rewrite append_nil|].
  rewrite append_cons. exact IH.
Qed.

Lemma matchPackageHere_LF (s : string) : matchPackageHere (String JS.LF s) = None.
Proof. reflexivity. Qed.

(** X14. Reading back a lock file that declares each package in a block
    of its own gives the packages in the order of the file, for names and
    versions that hold neither a quote nor a line break. *)
Theorem rustPackages_round_trip (pkgs : list Osv.Package) :
  Forall (fun pkg => lockable pkg = true) pkgs ->
  rustPackages (lockFile pkgs) = pkgs.
Proof.
  unfold rustPackages. induction 1 as [|pkg pkgs Hpkg _ IH]; [done|].
  cbn [lockFile].
  pose proof (matchPackageHere_block pkg (JS.nl +:+ JS.nl +:+ lockFile pkgs) Hpkg) as Hm.
  destruct (packageBlock pkg) as [|a block] eqn:Eb; [done|].
  rewrite !append_cons in *. cbn [execAll]. rewrite Hm.
  rewrite string_length_append, Nat.add_sub, execAll_skip.
  unfold JS.nl. rewrite !append_cons, !append_nil.
  cbn [execAll]. rewrite !matchPackageHere_LF, IH. by destruct pkg.
Qed.

End CargoRoundTrip.

(** ** Plain objects *)

Section ObjFacts.
Context {V : Type}.
Implicit Types (o es target source : list (string * V)) (k : string) (v : V).

Lemma get_Some o k v : Obj.get o k = Some v -> (k, v) ∈ o.
Proof.
  unfold Obj.get. induction o as [|[k' v'] o IH]; [done|]. simpl.
  destruct (String.eqb k' k) eqn:E.
  - apply String.eqb_eq in E as ->. intros [= <-]. apply list_elem_of_here.
  - intros H. apply list_elem_of_further. by apply IH.
Qed.

Lemma get_None o k : Obj.get o k = None <-> k ∉ map fst o.
Proof.
  unfold Obj.get. induction o as [|[k' v'] o IH]; simpl.
  - split; [intros _; apply not_elem_of_nil|done].
  - rewrite not_elem_of_cons. destruct (String.eqb k' k) eqn:E.
    + apply String.eqb_eq in E as ->. split; [done|]. by intros [? _].
    + apply String.eqb_neq in E. rewrite IH. split; [|by intros [_ ?]].
      intros ?. split; [congruence|done].
Qed.

Lemma get_elem o k v : NoDup (map fst o) -> (k, v) ∈ o -> Obj.get o k = Some v.
Proof.
  unfold Obj.get. induction o as [|[k' v'] o IH]; [by intros _ ?%elem_of_nil|].
  simpl. intros [Hk' Hnd]%NoDup_cons [[= -> ->]|Hin]%elem_of_cons.
  - by rewrite String.eqb_refl.
  - destruct (String.eqb k' k) eqn:E; [|by apply IH].
    apply String.eqb_eq in E as ->. exfalso. apply Hk'.
    apply list_elem_of_In. apply (in_map fst _ (k, v)). by apply list_elem_of_In.
Qed.

Lemma get_define o k v k' :
  Obj.get (Obj.define o k v) k' = if String.eqb k k' then Some v else Obj.get o k'.
Proof.
  unfold Obj.get. induction o as [|[k0 v0] o IH]; simpl.
  - by destruct (String.eqb k k').
  - destruct (String.eqb k0 k) eqn:E0; simpl.
    + apply String.eqb_eq in E0 as ->. by destruct (String.eqb k k').
    + destruct (String.eqb k0 k') eqn:E1; [|apply IH].
      apply String.eqb_eq in E1 as ->. rewrite String.eqb_sym in E0. by rewrite E0.
Qed.

Lemma keys_define o k v :
  map fst (Obj.define o k v)
  = if decide (k ∈ map fst o) then map fst o else map fst o ++ [k].
Proof.
  induction o as [|[k0 v0] o IH].
  - cbn [Obj.define map fst app].
    destruct (decide (k ∈ [])) as [H|H]; [by apply elem_of_nil in H|done].
  - cbn [Obj.define]. destruct (String.eqb k0 k) eqn:E0; cbn [map fst].
    + apply String.eqb_eq in E0 as ->.
      destruct (decide (k ∈ k :: map fst o)) as [H|H]; [done|].
      exfalso. apply H, list_elem_of_here.
    + apply String.eqb_neq in E0. rewrite IH.
      destruct (decide (k ∈ map fst o)) as [Hin|Hnin];
        destruct (decide (k ∈ k0 :: map fst o)) as [H|H]; try done.
      * exfalso. apply H. by apply list_elem_of_further.
      * apply elem_of_cons in H as [?|?]; [congruence|done].
Qed.

Lemma NoDup_define o k v : NoDup (map fst o) -> NoDup (map fst (Obj.define o k v)).
Proof.
  intros H. rewrite keys_define. case_decide as Hk; [done|].
  apply NoDup_app. split; [done|]. split; [|apply NoDup_singleton].
  intros x Hx ->%list_elem_of_singleton. done.
Qed.

(** Copying properties one by one: the keys stay distinct, a copied key
    carries the value copied last, the others keep theirs. *)
Lemma NoDup_copy es o :
  NoDup (map fst o) ->
  NoDup (map fst (fold_left (fun o e => Obj.define o e.1 e.2) es o)).
Proof.
  revert o. induction es as [|e es IH]; intros o H; [done|]. simpl.
  by apply IH, NoDup_define.
Qed.

Lemma keys_copy es o k :
  k ∈ map fst (fold_left (fun o e => Obj.define o e.1 e.2) es o)
  <-> k ∈ map fst o \/ k ∈ map fst es.
Proof.
  revert o. induction es as [|e es IH]; intros o; simpl.
  - split; [by left|]. by intros [?|?%elem_of_nil].
  - rewrite IH, keys_define, elem_of_cons. case_decide as He.
    + split; [intros [?|?]; auto|]. intros [?|[->|?]]; auto.
    + rewrite elem_of_app, list_elem_of_singleton. split.
      * intros [[?|?]|?]; auto.
      * intros [?|[?|?]]; auto.
Qed.

Lemma get_copy es o k :
  NoDup (map fst es) ->
  Obj.get (fold_left (fun o e => Obj.define o e.1 e.2) es o) k
  = match Obj.get es k with Some v => Some v | None => Obj.get o k end.
Proof.
  revert o. induction es as [|[k0 v0] es IH]; intros o; [done|].
  simpl. intros [Hk0 Hnd]%NoDup_cons. rewrite IH by done.
  unfold Obj.get at 3. simpl.
  destruct (String.eqb k0 k) eqn:E.
  - apply String.eqb_eq in E as ->.
    rewrite (proj2 (get_None es k)) by done.
    by rewrite get_define, String.eqb_refl.
  - fold (Obj.get es k). destruct (Obj.get es k); [done|].
    by rewrite get_define, E.
Qed.

Lemma entries_filter_partition (p : string * V -> bool) o :
  List.filter p o ++ List.filter (fun e => negb (p e)) o ≡ₚ o.
Proof.
  induction o as [|e o IH]; [done|]. simpl. destruct (p e); simpl.
  - by rewrite IH.
  - by rewrite <- Permutation_middle, IH.
Qed.

(** [Object.entries] lists every property once. *)
Lemma entries_Permutation o : Obj.entries o ≡ₚ o.
Proof.
  unfold Obj.entries. rewrite merge_sort_Permutation. apply entries_filter_partition.
Qed.

Lemma get_Permutation o o' k :
  NoDup (map fst o) -> o ≡ₚ o' -> Obj.get o k = Obj.get o' k.
Proof.
  intros Hnd Hp.
  assert (NoDup (map fst o')) as Hnd' by (by rewrite <- Hp).
  destruct (Obj.get o k) as [v|] eqn:E.
  - symmetry. apply get_elem; [done|]. rewrite <- Hp. by apply get_Some.
  - symmetry. apply get_None. rewrite <- Hp. by apply get_None.
Qed.

Lemma get_spreadInto target source k :
  NoDup (map fst source) ->
  Obj.get (Obj.spreadInto target source) k
  = match Obj.get source k with Some v => Some v | None => Obj.get target k end.
Proof.
  intros Hnd. unfold Obj.spreadInto.
  rewrite get_copy by (by rewrite entries_Permutation).
  rewrite (get_Permutation (Obj.entries source) source k);
    [done| |apply entries_Permutation].
  by rewrite entries_Permutation.
Qed.

Lemma keys_spreadInto target source k :
  k ∈ map fst (Obj.spreadInto target source)
  <-> k ∈ map fst target \/ k ∈ map fst source.
Proof. unfold Obj.spreadInto. by rewrite keys_copy, entries_Permutation. Qed.

End ObjFacts.

Section NodeProps.
Import Inventory.
Context (files : Files)
        (parseManifest : string -> option PackageJson)
        (parseVersion : string -> option string).

Lemma allDeps_NoDup pkg : NoDup (map fst (allDeps pkg)).
Proof. unfold allDeps, Obj.spreadInto. apply NoDup_copy, NoDup_copy. constructor. Qed.

Lemma nodePackages_spec projectPath text pkg :
  existsSync files (Migrate.pathJoin projectPath "package.json") = true ->
  readFileSync files (Migrate.pathJoin projectPath "package.json") = Some text ->
  parseManifest text = Some pkg ->
  nodePackages files parseManifest parseVersion projectPath
  = map (fun e => {| Osv.name := e.1;
                     Osv.version := versionOf files parseVersion projectPath e.1 e.2 |})
        (Obj.entries (allDeps pkg)).
Proof.
  intros Hex Hread Hparse. unfold nodePackages. rewrite Hex, Hread, Hparse. simpl.
  rewrite (fold_left_push _ (fun e => [ {| Osv.name := e.1;
             Osv.version := versionOf files parseVersion projectPath e.1 e.2 |} ]));
    [|done].
  simpl. induction (Obj.entries (allDeps pkg)) as [|e l IH]; [done|].
  simpl. by rewrite IH.
Qed.


End NodeProps.

(** ** Live audits *)

Section AuditProps.
Import Osv.
Local Open Scope nat_scope.
Context (fetch : nat -> list Query -> FetchOutcome)
        (getInstalledPackages : string -> string -> list Package)
        (now : nat -> string).

Lemma opt_or_str_nonempty (o : option string) (d : string) :
  d <> EmptyString -> JS.opt_or_str o d <> EmptyString.
Proof. intros Hd. by destruct o as [[|a s]|]. Qed.

Lemma summaryOf_nonempty vuln : summaryOf vuln <> EmptyString.
Proof.
  unfold summaryOf. destruct (adv_summary vuln) as [[|a s]|]; simpl; try done;
    by apply opt_or_str_nonempty.
Qed.

Lemma urlOf_nonempty vuln : urlOf vuln <> EmptyString.
Proof.
  unfold urlOf. destruct (adv_references vuln) as [[|r rs]|]; try done.
  by apply opt_or_str_nonempty.
Qed.

(** X16. Every vulnerability [queryOsv] returns carries the ecosystem
    that was queried and the name of one of the packages given, with that
    package's version as its affected range; its summary and its address
    are never empty, and a fixed version, when there is one, is not the
    empty string. *)
Theorem queryOsv_vulnerability_fields (packages : list Package) (eco : string)
    (x : OsvVulnerability) :
  x ∈ queryOsv fetch packages eco ->
  ecosystem x = eco
  /\ summary x <> EmptyString
  /\ url x <> EmptyString
  /\ fixedVersion x <> Some EmptyString
  /\ exists pkg, pkg ∈ packages /\ package x = name pkg
                 /\ affectedRange x = version pkg +:+ " (installed)".
Proof.
  rewrite queryOsv_spec, list_elem_of_In, in_flat_map.
  intros (k & _ & Hx%list_elem_of_In). rewrite batchVulns_answer in Hx.
  apply resultsLoop_sound in Hx as (j & r & advs & v & pkg & _ & _ & _ & Hpkg & ->).
  cbn [mkVulnerability ecosystem summary url fixedVersion package affectedRange].
  split; [done|]. split; [apply summaryOf_nonempty|]. split; [apply urlOf_nonempty|].
  split.
  - destruct (fixedRangeOf v) as [e|]; [|done].
    by destruct (ev_fixed e) as [[|a s]|].
  - exists pkg. split; [by eapply list_elem_of_lookup_2|done].
Qed.

End AuditProps.

Section AuditInventory.
Import Osv.
Local Open Scope nat_scope.
Context (fetch : nat -> list Query -> FetchOutcome)
        (now : nat -> string)
        (files : Inventory.Files)
        (parseManifest : string -> option Inventory.PackageJson)
        (parseVersion : string -> option string).

(** X17. [getInstalledPackages] has an inventory for Node, Rust, Python
    and Go only: for any other language, PHP, Ruby and Dart included, it
    returns no package without reading a file, and the audit of such a
    project sends no request and reports no vulnerability and no queried
    package. *)
Theorem audit_without_inventory (sent : list (list Query))
    (projectPath projectName language : string)
    (installed : string -> string -> list Package) :
  language ∉ ["node"; "rust"; "python"; "go"] ->
  (forall packages,
      Inventory.getInstalledPackages files parseManifest parseVersion projectPath language
      = Some packages ->
      installed projectPath language = packages) ->
  Inventory.getInstalledPackages files parseManifest parseVersion projectPath language
  = Some []
  /\ liveAuditProject fetch installed now sent projectPath projectName language
     = ({| project := projectName; vulnerabilities := []; packagesQueried := 0;
           source := "osv.dev"; queriedAt := now (length sent) |}, sent).
Proof.
  intros Hlang Hinst.
  assert (Inventory.getInstalledPackages files parseManifest parseVersion projectPath language
          = Some []) as Hnone.
  { unfold Inventory.getInstalledPackages.
    assert (forall s, s ∈ ["node"; "rust"; "python"; "go"] ->
              String.eqb language s = false) as Hne.
    { intros s Hs. apply String.eqb_neq. by intros ->. }
    by rewrite !Hne by (apply list_elem_of_In; simpl; tauto). }
  split; [done|].
  unfold liveAuditProject. rewrite (Hinst _ Hnone).
  by destruct (ECOSYSTEM_MAP !! language).
Qed.

End AuditInventory.

(** ** Documentation aggregator: repositories and candidate paths *)

Section RepoProps.
Import Docs.

Lemma spanRepo_span (s : string) : spanRepo s = Text.span repoChar s.
Proof.
  induction s as [|a s IH]; [done|]. simpl. rewrite IH. done.
Qed.

Lemma matchRepoHere_shape (s owner repo : string) :
  matchRepoHere s = Some (owner, repo) ->
  owner <> EmptyString /\ repo <> EmptyString
  /\ Text.all repoChar owner = true /\ Text.all repoChar repo = true.
Proof.
  unfold matchRepoHere. destruct (JS.startsWith s "github.com"); [|done].
  destruct (JS.drop_str 10 s) as [|c r]; [done|].
  destruct (Ascii.eqb c "/" || Ascii.eqb c ":"); [|done].
  rewrite spanRepo_span.
  pose proof (span_all repoChar r) as Ho.
  destruct (Text.span repoChar r) as [o r1]. simpl in Ho.
  destruct o as [|a o]; [done|]. destruct r1 as [|c1 r2]; [done|].
  destruct (Ascii.eqb c1 "/"); [|done].
  rewrite spanRepo_span.
  pose proof (span_all repoChar r2) as Hr.
  destruct (Text.span repoChar r2) as [rp r3]. simpl in Hr.
  destruct rp as [|b rp]; [done|].
  intros [= <- <-]. done.
Qed.

Lemma matchRepo_shape (s owner repo : string) :
  matchRepo s = Some (owner, repo) ->
  owner <> EmptyString /\ repo <> EmptyString
  /\ Text.all repoChar owner = true /\ Text.all repoChar repo = true.
Proof.
  induction s as [|a s IH]; cbn [matchRepo].
  - destruct (matchRepoHere "") as [m|] eqn:E; [|done].
    intros [= ->]. by apply matchRepoHere_shape in E.
  - destruct (matchRepoHere (String a s)) as [m|] eqn:E; [|exact IH].
    intros [= ->]. by apply matchRepoHere_shape in E.
Qed.

(** X18. Whatever the address, the owner and the repository name that
    [extractGitHubRepo] finds are not empty and are made of letters,
    digits, [_], [.] and [-] only; in particular they hold no [/]. *)
Theorem extractGitHubRepo_components (repoUrl owner repo : string) :
  extractGitHubRepo repoUrl = Some (owner, repo) ->
  owner <> EmptyString /\ repo <> EmptyString
  /\ Text.all repoChar owner = true /\ Text.all repoChar repo = true.
Proof. apply matchRepo_shape. Qed.

(** *** The forms of an address *)

Lemma repoChar_span_stop (x rest : string) (c : ascii) :
  Text.all repoChar x = true -> repoChar c = false ->
  spanRepo (x +:+ String c rest) = (x, String c rest).
Proof.
  intros Hx Hc. rewrite spanRepo_span, span_prefix by done.
  simpl. rewrite Hc. simpl. by rewrite append_nil_r.
Qed.

Lemma matchRepoHere_canonical (owner repo : string) (c : ascii) :
  c = "/"%char \/ c = ":"%char ->
  owner <> EmptyString -> repo <> EmptyString ->
  Text.all repoChar owner = true -> Text.all repoChar repo = true ->
  matchRepoHere ("github.com" +:+ String c (owner +:+ "/" +:+ repo)) = Some (owner, repo).
Proof.
  intros Hc Ho Hr Hao Har. unfold matchRepoHere.
  rewrite startsWith_append.
  change 10%nat with (String.length "github.com"). rewrite drop_str_append.
  assert (Ascii.eqb c "/" || Ascii.eqb c ":" = true) as ->
    by (by destruct Hc as [-> | ->]).
  change ("/" +:+ repo) with (String "/" repo).
  rewrite repoChar_span_stop by done.
  destruct owner as [|a owner]; [done|].
  rewrite Ascii.eqb_refl, spanRepo_span, span_whole by done.
  by destruct repo.
Qed.

Lemma matchRepo_skip (a : ascii) (s : string) :
  JS.startsWith (String a s) "github.com" = false ->
  matchRepo (String a s) = matchRepo s.
Proof. intros H. cbn [matchRepo]. unfold matchRepoHere. by rewrite H. Qed.

Lemma replacePrefix_other (s p r : string) :
  JS.startsWith s p = false -> replacePrefix s p r = s.
Proof. intros H. unfold replacePrefix. by rewrite H. Qed.

Lemma matchRepo_https (owner repo : string) :
  owner <> EmptyString -> repo <> EmptyString ->
  Text.all repoChar owner = true -> Text.all repoChar repo = true ->
  matchRepo ("https://github.com/" +:+ owner +:+ "/" +:+ repo) = Some (owner, repo).
Proof.
  intros Ho Hr Hao Har.
  pose proof (matchRepoHere_canonical owner repo "/" (or_introl eq_refl) Ho Hr Hao Har) as H.
  change ("https://github.com/" +:+ owner +:+ "/" +:+ repo)
    with (String "h" (String "t" (String "t" (String "p" (String "s" (String ":"
           (String "/" (String "/"
             ("github.com" +:+ String "/" (owner +:+ "/" +:+ repo)))))))))).
  do 8 (rewrite matchRepo_skip by reflexivity).
  destruct ("github.com" +:+ _) eqn:E; [done|].
  cbn [matchRepo]. by rewrite H.
Qed.

(** A suffix is not stripped from a name that does not end with it, even
    when the name is the end of a longer path. *)
Lemma startsWith_stop (a b p : string) (c : ascii) :
  Text.all (fun x => negb (Ascii.eqb x c)) p = true ->
  JS.startsWith a p = false ->
  JS.startsWith (a +:+ String c b) p = false.
Proof.
  revert a. induction p as [|x p IH]; intros a Hp Ha.
  - by destruct a.
  - simpl in Hp. apply andb_true_iff in Hp as [Hx Hp]. apply negb_true_iff in Hx.
    destruct a as [|y a].
    + rewrite append_nil. simpl. rewrite Ascii.eqb_sym. by rewrite Hx.
    + rewrite append_cons. simpl in *. destruct (Ascii.eqb y x); [|done]. by apply IH.
Qed.

Lemma stripSuffix_keeps (s p : string) :
  p <> EmptyString -> Docs.stripSuffix s p = s ->
  JS.startsWith (String.rev s) (String.rev p) = false.
Proof.
  unfold Docs.stripSuffix. intros Hp.
  destruct (JS.startsWith (String.rev s) (String.rev p)) eqn:E; [|done].
  intros H. apply (f_equal String.length) in H. rewrite string_length_rev in H.
  apply startsWith_drop in E. apply (f_equal String.length) in E.
  rewrite string_length_append, !string_length_rev in E.
  destruct p; [done|]. simpl in *. lia.
Qed.

Lemma stripSuffix_path (dir name p : string) :
  p <> EmptyString ->
  Text.all (fun x => negb (Ascii.eqb x "/")) p = true ->
  Docs.stripSuffix name p = name ->
  Docs.stripSuffix (dir +:+ String "/" name) p = dir +:+ String "/" name.
Proof.
  intros Hp Hslash Hname. apply stripSuffix_keeps in Hname; [|done].
  unfold Docs.stripSuffix.
  change (String "/" name) with ("/" +:+ name).
  rewrite !string_rev_append. change (String.rev "/") with "/".
  rewrite append_assoc. change ("/" +:+ String.rev dir) with (String "/" (String.rev dir)).
  rewrite startsWith_stop; [done| |done].
  by rewrite all_rev.
Qed.

(** X19. The usual ways of writing the address of a GitHub repository
    are read alike: the plain [https] address, the address with the
    [git+] prefix and the [.git] suffix that npm stores, the [git://]
    and [ssh://] addresses, all give the same owner and repository name.
    The plain form needs a name that does not itself end in [.git]. *)
Theorem extractGitHubRepo_forms (owner repo : string) :
  owner <> EmptyString -> repo <> EmptyString ->
  Text.all repoChar owner = true -> Text.all repoChar repo = true ->
  extractGitHubRepo ("git+https://github.com/" +:+ owner +:+ "/" +:+ repo +:+ ".git")
    = Some (owner, repo)
  /\ extractGitHubRepo ("git://github.com/" +:+ owner +:+ "/" +:+ repo +:+ ".git")
    = Some (owner, repo)
  /\ extractGitHubRepo ("git+ssh://git@github.com/" +:+ owner +:+ "/" +:+ repo +:+ ".git")
    = Some (owner, repo)
  /\ (stripSuffix repo ".git" = repo ->
      extractGitHubRepo ("https://github.com/" +:+ owner +:+ "/" +:+ repo)
      = Some (owner, repo)).
Proof.
  intros Ho Hr Hao Har.
  pose proof (matchRepo_https owner repo Ho Hr Hao Har) as Hm.
  unfold extractGitHubRepo. repeat split.
  - replace ("git+https://github.com/" +:+ owner +:+ "/" +:+ repo +:+ ".git")
      with ("git+" +:+ ("https://github.com/" +:+ owner +:+ "/" +:+ repo) +:+ ".git")
      by (by rewrite !append_assoc).
    rewrite replacePrefix_append, append_nil, stripSuffix_append.
    rewrite (replacePrefix_other _ "ssh://git@github.com/") by reflexivity.
    by rewrite (replacePrefix_other _ "git://github.com/") by reflexivity.
  - replace ("git://github.com/" +:+ owner +:+ "/" +:+ repo +:+ ".git")
      with (("git://github.com/" +:+ owner +:+ "/" +:+ repo) +:+ ".git")
      by (by rewrite !append_assoc).
    rewrite (replacePrefix_other _ "git+") by reflexivity.
    rewrite stripSuffix_append.
    rewrite (replacePrefix_other _ "ssh://git@github.com/") by reflexivity.
    by rewrite replacePrefix_append.
  - replace ("git+ssh://git@github.com/" +:+ owner +:+ "/" +:+ repo +:+ ".git")
      with ("git+" +:+ ("ssh://git@github.com/" +:+ owner +:+ "/" +:+ repo) +:+ ".git")
      by (by rewrite !append_assoc).
    rewrite replacePrefix_append, append_nil, stripSuffix_append.
    rewrite replacePrefix_append.
    by rewrite (replacePrefix_other _ "git://github.com/") by reflexivity.
  - intros Hrepo.
    rewrite (replacePrefix_other _ "git+") by reflexivity.
    replace ("https://github.com/" +:+ owner +:+ "/" +:+ repo)
      with (("https://github.com/" +:+ owner) +:+ String "/" repo)
      by (by rewrite !append_assoc).
    rewrite stripSuffix_path by done.
    replace (("https://github.com/" +:+ owner) +:+ String "/" repo)
      with ("https://github.com/" +:+ owner +:+ "/" +:+ repo)
      by (by rewrite !append_assoc).
    rewrite (replacePrefix_other _ "ssh://git@github.com/") by reflexivity.
    by rewrite (replacePrefix_other _ "git://github.com/") by reflexivity.
Qed.

(** *** Candidate paths *)

Lemma flat_map_singleton {A B} (g : A -> B) (l : list A) :
  flat_map (fun x => [g x]) l = map g l.
Proof. induction l as [|x l IH]; [done|]. simpl. by rewrite IH. Qed.

Lemma getMonorepoPaths_spec (baseName : string) (files : list string) :
  getMonorepoPaths baseName files
  = files ++ map (fun f => "packages/" +:+ baseName +:+ "/" +:+ f) files.
Proof.
  unfold getMonorepoPaths.
  rewrite (fold_left_push _ (fun f => ["packages/" +:+ baseName +:+ "/" +:+ f])); [|done].
  by rewrite flat_map_singleton.
Qed.

(** X20. The candidate paths of a package are the given file names at
    the root of the repository, in their order, followed by the same
    names under [packages/<base name>/]: twice as many paths, the root
    ones first. *)
Theorem getMonorepoPaths_root_first (baseName : string) (files : list string) :
  getMonorepoPaths baseName files
  = files ++ map (fun f => "packages/" +:+ baseName +:+ "/" +:+ f) files
  /\ length (getMonorepoPaths baseName files) = (2 * length files)%nat
  /\ take (length files) (getMonorepoPaths baseName files) = files.
Proof.
  rewrite getMonorepoPaths_spec. split; [done|]. split.
  - rewrite length_app, length_map. lia.
  - by rewrite take_app_length.
Qed.

End RepoProps.

(** ** Documentation aggregator: fetching and shaping *)

Section FirstFound.
Import Docs.
Local Open Scope nat_scope.
Context (fetch : nat -> string -> HttpOutcome).

Lemma find_at_first {A} (p : A -> bool) (l : list A) (i : nat) (x : A) :
  l !! i = Some x -> p x = true ->
  (forall j y, j < i -> l !! j = Some y -> p y = false) ->
  List.find p l = Some x.
Proof.
  revert i. induction l as [|a l IH]; intros i Hi Hx Hbefore; [done|].
  destruct i as [|i]; simpl in *.
  - injection Hi as ->. by rewrite Hx.
  - rewrite (Hbefore 0 a) by (done || lia).
    apply (IH i); [done..|]. intros j y Hj Hy. apply (Hbefore (S j)); [lia|done].
Qed.

Lemma find_nowhere {A} (p : A -> bool) (l : list A) :
  (forall j y, l !! j = Some y -> p y = false) -> List.find p l = None.
Proof.
  induction l as [|a l IH]; intros H; [done|]. simpl.
  rewrite (H 0 a) by done. apply IH. intros j y Hy. by apply (H (S j)).
Qed.

(** X21. [fetchFirstFound] requests every candidate path and answers
    the first document, in the order of the paths, that could be fetched
    and is longer than 50 characters; what it answers is such a document
    or the empty string, never a shorter text. *)
Theorem fetchFirstFound_priority (n : nat) (owner repo : string) (paths : list string) :
  let found := fst (fetchFirstFound fetch n owner repo paths) in
  (found = EmptyString \/ 50 < JS.length found)
  /\ snd (fetchFirstFound fetch n owner repo paths) = n + length paths
  /\ (forall i p body,
        paths !! i = Some p ->
        fetchUrl fetch (n + i) (rawUrl owner repo p) = Some body ->
        50 < JS.length body ->
        (forall j q, j < i -> paths !! j = Some q ->
           longEnough (fetchUrl fetch (n + j) (rawUrl owner repo q)) = false) ->
        found = body)
  /\ ((forall j q, paths !! j = Some q ->
         longEnough (fetchUrl fetch (n + j) (rawUrl owner repo q)) = false) ->
      found = EmptyString).
Proof.
  unfold fetchFirstFound. cbn [fst snd].
  set (results := imap (fun i p => fetchUrl fetch (n + i) (rawUrl owner repo p)) paths).
  assert (forall j r, results !! j = Some r ->
            exists q, paths !! j = Some q
                      /\ r = fetchUrl fetch (n + j) (rawUrl owner repo q)) as Hres.
  { intros j r. unfold results. rewrite list_lookup_imap.
    destruct (paths !! j) as [q|]; [|done]. intros [= <-]. eauto. }
  split; [|split; [done|split]].
  - destruct (List.find longEnough results) as [[r|]|] eqn:E; [|by left..].
    apply find_some in E as [_ E]. simpl in E.
    apply andb_true_iff in E as [_ E%Nat.ltb_lt]. by right.
  - intros i p body Hp Hbody Hlong Hbefore.
    rewrite (find_at_first longEnough results i (Some body)); [done| | |].
    + unfold results. by rewrite list_lookup_imap, Hp, <- Hbody.
    + simpl. apply andb_true_iff. split; [|by apply Nat.ltb_lt].
      destruct body; [simpl in Hlong; lia|done].
    + intros j r Hj (q & Hq & ->)%Hres. by apply Hbefore.
  - intros Hnone. rewrite find_nowhere; [done|].
    intros j r (q & Hq & ->)%Hres. by apply Hnone.
Qed.

End FirstFound.

Section Shaping.
Import Docs.
Local Open Scope nat_scope.

(** *** Decimal numerals hold no line break *)

Lemma pretty_N_char_digit (x : N) : Changelog.is_digit (pretty_N_char x) = true.
Proof.
  unfold pretty_N_char. destruct x as [|p]; [done|].
  do 4 (try destruct p as [p|p|]); done.
Qed.

Lemma pretty_N_go_digits (x : N) (s : string) :
  Text.all Changelog.is_digit s = true ->
  Text.all Changelog.is_digit (pretty_N_go x s) = true.
Proof.
  revert s. induction (N.lt_wf_0 x) as [x _ IH]. intros s Hs.
  destruct (decide (x = 0)%N) as [->|Hx].
  - by rewrite pretty_N_go_0.
  - rewrite pretty_N_go_step by lia. apply IH.
    + apply N.div_lt; lia.
    + simpl. by rewrite pretty_N_char_digit, Hs.
Qed.

Lemma show_nat_digits (n : nat) : Text.all Changelog.is_digit (JS.show_nat n) = true.
Proof.
  unfold JS.show_nat, pretty, pretty_nat, pretty, pretty_N.
  case_decide; [done|]. by apply pretty_N_go_digits.
Qed.

Lemma digit_not_LF (a : ascii) :
  Changelog.is_digit a = true -> negb (Ascii.eqb a JS.LF) = true.
Proof. destruct a as [[] [] [] [] [] [] [] []]; by vm_compute. Qed.

(** The pieces of [s c t] are those of [s] followed by those of [t]. *)
Lemma split_append (c : ascii) (s t : string) :
  JS.split c (s +:+ String c t) = JS.split c s ++ JS.split c t.
Proof.
  induction s as [|a s IH].
  - rewrite append_nil. apply split_sep.
  - rewrite append_cons. destruct (Ascii.eqb a c) eqn:Ha.
    + apply Ascii.eqb_eq in Ha as ->. by rewrite !split_sep, IH.
    + rewrite !split_other, IH by done.
      pose proof (split_nonempty c s) as Hne.
      by destruct (JS.split c s).
Qed.

(** X22. A text of more than [maxLines] lines is cut to its first
    [maxLines] lines, followed by an empty line and by the line that
    tells how many lines were left out: the result has [maxLines + 2]
    lines, which is more than [maxLines]. *)
Theorem truncateDoc_lines (text : string) (maxLines : nat) :
  let lines := JS.split JS.LF text in
  1 <= maxLines -> maxLines < length lines ->
  JS.split JS.LF (truncateDoc text maxLines)
  = take maxLines lines
    ++ [ EmptyString;
         "... (truncated, " +:+ JS.show_nat (length lines - maxLines) +:+ " more lines)" ]
  /\ length (JS.split JS.LF (truncateDoc text maxLines)) = maxLines + 2.
Proof.
  intros lines Hmin Hlt.
  assert (JS.split JS.LF (truncateDoc text maxLines)
          = take maxLines lines
            ++ [ EmptyString;
                 "... (truncated, " +:+ JS.show_nat (length lines - maxLines)
                 +:+ " more lines)" ]) as Hsplit.
  { unfold truncateDoc. fold lines. rewrite (proj2 (Nat.leb_gt _ _) Hlt).
    set (marker := "... (truncated, " +:+ _).
    change (JS.join JS.nl (take maxLines lines) +:+ JS.nl +:+ JS.nl +:+ marker)
      with (JS.join JS.nl (take maxLines lines) +:+ String JS.LF (String JS.LF marker)).
    rewrite split_append, split_sep.
    rewrite split_join.
    - rewrite split_whole; [done|]. unfold marker.
      rewrite !all_append.
      rewrite (all_impl _ _ _ digit_not_LF (show_nat_digits _)). reflexivity.
    - destruct lines; [simpl in Hlt; lia|]. by destruct maxLines; [lia|].
    - apply Forall_take, split_pieces. }
  split; [done|].
  rewrite Hsplit, length_app, length_take. simpl. lia.
Qed.

(** *** The lines kept by a query *)

Lemma mark_range (lo len : nat) (matched : gset nat) (j : nat) :
  j ∈ fold_left (fun (m : gset nat) j => {[ j ]} ∪ m) (seq lo len) matched
  <-> j ∈ matched \/ (lo <= j < lo + len).
Proof.
  revert lo matched. induction len as [|len IH]; intros lo matched; simpl.
  - split; [by left|]. intros [?|?]; [done|lia].
  - rewrite IH, elem_of_union, elem_of_singleton. split.
    + intros [[->|?]|?]; [right; lia|by left|right; lia].
    + intros [?|?]; [by left; right|].
      destruct (decide (j = lo)) as [->|]; [by left; left|right; lia].
Qed.

Lemma markLines_spec (keywords : list string) (contextLines total i : nat)
    (rest : list string) (matched : gset nat) (j : nat) :
  i + length rest <= total ->
  j ∈ markLines keywords contextLines total i rest matched
  <-> j ∈ matched
      \/ exists k line,
           rest !! k = Some line /\ lineMatches keywords line = true
           /\ i + k - contextLines <= j <= i + k + contextLines /\ j < total.
Proof.
  revert i matched. induction rest as [|line rest IH]; intros i matched Htotal.
  - simpl. split; [by left|]. by intros [?|(k & ? & ? & _)].
  - cbn [markLines]. rewrite IH by (simpl in Htotal; lia). clear IH.
    simpl in Htotal.
    assert ((exists k line0,
               (line :: rest) !! k = Some line0 /\ lineMatches keywords line0 = true
               /\ i + k - contextLines <= j <= i + k + contextLines /\ j < total)
            <-> (lineMatches keywords line = true
                 /\ i - contextLines <= j <= i + contextLines /\ j < total)
                \/ exists k line0,
                     rest !! k = Some line0 /\ lineMatches keywords line0 = true
                     /\ S i + k - contextLines <= j <= S i + k + contextLines
                     /\ j < total) as ->.
    { split.
      - intros ([|k] & line0 & Hk & Hm & Hj & Hlt).
        + left. simpl in Hk. injection Hk as <-. rewrite Nat.add_0_r in Hj. done.
        + right. exists k, line0. simpl in Hk.
          split; [done|]. split; [done|]. split; [lia|done].
      - intros [(Hm & Hj & Hlt)|(k & line0 & Hk & Hm & Hj & Hlt)].
        + exists 0, line. rewrite Nat.add_0_r. done.
        + exists (S k), line0.
          split; [done|]. split; [done|]. split; [lia|done]. }
    destruct (lineMatches keywords line) eqn:Hline.
    + rewrite mark_range. split.
      * intros [[?|?]|?]; [by left| |by right; right].
        right. left. split; [done|]. lia.
      * intros [?|[(_ & ?)|?]]; [by left; left| |by right].
        left. right. lia.
    + split.
      * intros [?|?]; [by left|by right; right].
      * intros [?|[(? & _)|?]]; [by left|done|by right].
Qed.

(** The lines marked to be kept are those near a match. *)
Lemma markLines_window (keywords : list string) (lines : list string)
    (contextLines : nat) (j : nat) :
  j ∈ markLines keywords contextLines (length lines) 0 lines ∅
  <-> Shaping.nearMatch keywords contextLines lines j.
Proof.
  unfold Shaping.nearMatch. rewrite markLines_spec by done. split.
  - intros [?%elem_of_empty|(k & line & Hk & Hm & Hj & Hlt)]; [done|].
    split; [done|]. by exists k, line.
  - intros (Hlt & i & line & Hi & Hm & Hj). right. by exists i, line.
Qed.

(** *** What is emitted *)

Lemma emitLines_acc lines sorted lastLine acc :
  emitLines lines sorted lastLine acc = acc ++ emitLines lines sorted lastLine [].
Proof.
  revert lastLine acc. induction sorted as [|n sorted IH]; intros lastLine acc; simpl.
  - by rewrite app_nil_r.
  - rewrite IH. rewrite (IH _ (_ ++ [_])).
    destruct (lastLine + 1 <? Z.of_nat n)%Z; simpl; by rewrite <- ?app_assoc.
Qed.

Lemma emitLines_cons lines n sorted lastLine :
  emitLines lines (n :: sorted) lastLine []
  = (if (lastLine + 1 <? Z.of_nat n)%Z then [Shaping.gapMarker] else [])
    ++ Shaping.lineAt lines n :: emitLines lines sorted (Z.of_nat n) [].
Proof.
  cbn [emitLines]. rewrite emitLines_acc.
  destruct (lastLine + 1 <? Z.of_nat n)%Z; simpl; done.
Qed.

Lemma line_notGap (l : string) :
  Text.all (fun a => negb (Ascii.eqb a JS.LF)) l = true -> Shaping.notGap l = true.
Proof.
  intros H. unfold Shaping.notGap. apply negb_true_iff, String.eqb_neq. intros ->.
  by vm_compute in H.
Qed.

Lemma lineAt_notGap (lines : list string) (n : nat) :
  Forall (fun x => Text.all (fun a => negb (Ascii.eqb a JS.LF)) x = true) lines ->
  Shaping.notGap (Shaping.lineAt lines n) = true.
Proof.
  intros H. unfold Shaping.lineAt.
  destruct (lines !! n) as [l|] eqn:E; [|done].
  apply line_notGap. rewrite Forall_forall in H. apply H.
  by eapply list_elem_of_lookup_2.
Qed.

(** A sorted list without duplicates is strictly increasing. *)
Lemma sorted_strict (l : list nat) :
  Sorted Nat.le l -> NoDup l -> StronglySorted lt l.
Proof.
  intros Hs%Sorted_StronglySorted; [|intros x y z; apply Nat.le_trans].
  induction Hs as [|a l Hl IH Ha]; intros Hnd; [constructor|].
  apply NoDup_cons in Hnd as [Hnotin Hnd]. constructor; [by apply IH|].
  rewrite List.Forall_forall in Ha |- *. intros x Hx.
  specialize (Ha x Hx).
  assert (x <> a) by (intros ->; by apply Hnotin, list_elem_of_In). lia.
Qed.

(** The loop pushes a marker exactly before the lines that start a run:
    [lastLine] is the line pushed last, and no kept line lies between it
    and the lines still to be pushed. *)
Lemma emitLines_gaps (lines : list string) (kept sorted : list nat) (lastLine : Z) :
  StronglySorted lt sorted ->
  (forall y, y ∈ sorted -> (lastLine < Z.of_nat y)%Z /\ y ∈ kept) ->
  (forall x, x ∈ kept -> x ∈ sorted \/ (Z.of_nat x <= lastLine)%Z) ->
  lastLine = (-2)%Z \/ (exists m, lastLine = Z.of_nat m /\ m ∈ kept) ->
  emitLines lines sorted lastLine []
  = flat_map (fun j => (if Shaping.startsRun kept j then [Shaping.gapMarker] else [])
                       ++ [Shaping.lineAt lines j]) sorted.
Proof.
  intros Hsorted. revert lastLine.
  induction Hsorted as [|n rest Hrest IH Hn]; intros lastLine Habove Hbelow Hlast; [done|].
  rewrite List.Forall_forall in Hn.
  rewrite emitLines_cons. cbn [flat_map].
  destruct (Habove n (list_elem_of_here _ _)) as [Hlt Hkept].
  assert ((lastLine + 1 <? Z.of_nat n)%Z = Shaping.startsRun kept n) as ->.
  { destruct n as [|n']; simpl.
    - apply Z.ltb_lt. destruct Hlast as [->|(m & -> & _)]; lia.
    - destruct (Z.ltb_spec (lastLine + 1) (Z.of_nat (S n'))) as [Hgap|Hnext].
      + symmetry. apply bool_decide_eq_true. intros Hin.
        destruct (Hbelow n' Hin) as [[E|Hin']%elem_of_cons|Hle]; [lia| |lia].
        apply list_elem_of_In, Hn in Hin'. lia.
      + symmetry. apply bool_decide_eq_false. intros Hnotin. apply Hnotin.
        destruct Hlast as [->|(m & -> & Hm)]; [lia|].
        by replace n' with m by lia. }
  rewrite <- app_assoc. f_equal. cbn [app]. f_equal.
  apply IH.
  - intros y Hy. split; [|apply Habove; by apply list_elem_of_further].
    apply list_elem_of_In, Hn in Hy. lia.
  - intros x Hx. destruct (Hbelow x Hx) as [[->|Hin]%elem_of_cons|Hle];
      [right; lia|by left|right; lia].
  - right. by exists n.
Qed.

Lemma withGaps_kept (lines : list string) (kept sorted : list nat) :
  Forall (fun x => Text.all (fun a => negb (Ascii.eqb a JS.LF)) x = true) lines ->
  List.filter Shaping.notGap
    (flat_map (fun j => (if Shaping.startsRun kept j then [Shaping.gapMarker] else [])
                        ++ [Shaping.lineAt lines j]) sorted)
  = map (Shaping.lineAt lines) sorted.
Proof.
  intros Hlines. induction sorted as [|n sorted IH]; [done|].
  cbn [flat_map map]. rewrite !List.filter_app, IH. cbn [List.filter].
  rewrite lineAt_notGap by done.
  by destruct (Shaping.startsRun kept n).
Qed.

(** X23. When a line of the text holds a keyword of the query, the
    filtered text is made of the lines near a match, in the order of the
    text and each once, every one of them preceded by a gap marker
    exactly when it starts a run of kept lines: when it is the first line
    of the text, or the line before it is not near a match.  So the
    first thing emitted is a gap marker, even when the first line of the
    text is kept, and nothing else than these lines and markers is
    emitted. *)
Theorem filterByQuery_emits_window (text q : string) (contextLines : nat) :
  let lines := JS.split JS.LF text in
  q <> EmptyString -> text <> EmptyString ->
  Exists (fun l => lineMatches (keywordsOf q) l = true) lines ->
  exists kept : list nat,
    Sorted Nat.le kept /\ NoDup kept
    /\ (forall j, j ∈ kept <-> Shaping.nearMatch (keywordsOf q) contextLines lines j)
    /\ filterByQuery text (Some q) contextLines
       = JS.join JS.nl (Shaping.withGaps lines kept)
    /\ (forall j, Shaping.startsRun kept j = true
                  <-> j = 0
                      \/ ~ Shaping.nearMatch (keywordsOf q) contextLines lines (j - 1))
    /\ List.filter Shaping.notGap (Shaping.withGaps lines kept)
       = map (Shaping.lineAt lines) kept
    /\ hd_error (Shaping.withGaps lines kept) = Some Shaping.gapMarker.
Proof.
  intros lines Hq Htext Hmatch.
  set (marked := markLines (keywordsOf q) contextLines (length lines) 0 lines ∅).
  assert (forall j, j ∈ marked <-> Shaping.nearMatch (keywordsOf q) contextLines lines j)
    as Hmarked by (intros j; apply markLines_window).
  assert (size marked <> 0) as Hsize.
  { apply Exists_exists in Hmatch as (l & [i Hi]%list_elem_of_lookup_1 & Hl).
    intros Hz%size_empty_inv. apply (not_elem_of_empty (C := gset nat) i).
    rewrite <- Hz. apply Hmarked. split; [by eapply lookup_lt_Some|].
    exists i, l. repeat split; try done; lia. }
  set (kept := merge_sort Nat.le (elements marked)).
  assert (Sorted Nat.le kept) as Hsorted by apply (Sorted_merge_sort Nat.le).
  assert (NoDup kept) as Hnodup
    by (unfold kept; rewrite merge_sort_Permutation; apply NoDup_elements).
  assert (forall j, j ∈ kept <-> Shaping.nearMatch (keywordsOf q) contextLines lines j)
    as Hkept.
  { intros j. unfold kept. by rewrite merge_sort_Permutation, elem_of_elements. }
  assert (emitLines lines kept (-2) [] = Shaping.withGaps lines kept) as Hemit.
  { apply emitLines_gaps.
    - by apply sorted_strict.
    - intros y Hy. split; [lia|done].
    - intros x Hx. by left.
    - by left. }
  exists kept. split; [done|]. split; [done|]. split; [done|].
  split; [|split; [|split]].
  - unfold filterByQuery. destruct q; [done|]. destruct text; [done|].
    cbn [JS.falsy_str orb]. fold lines. fold marked.
    rewrite (proj2 (Nat.eqb_neq _ _) Hsize). fold kept. by rewrite Hemit.
  - intros [|j]; simpl.
    + split; [by left|done].
    + rewrite Nat.sub_0_r, bool_decide_eq_true, Hkept. split; [by right|].
      by intros [?|?].
  - apply withGaps_kept, split_pieces.
  - destruct kept as [|n sorted] eqn:E.
    + exfalso. apply Hsize. apply size_empty_iff, elements_empty_iff.
      apply Permutation_nil.
      rewrite <- (merge_sort_Permutation Nat.le (elements marked)). fold kept.
      by rewrite E.
    + unfold Shaping.withGaps. cbn [flat_map].
      assert (Shaping.startsRun (n :: sorted) n = true) as ->; [|done].
      destruct n as [|n']; [done|]. simpl. apply bool_decide_eq_true.
      apply sorted_strict in Hsorted; [|done].
      apply StronglySorted_inv in Hsorted as [_ Hn].
      rewrite List.Forall_forall in Hn.
      intros [E'|Hin%list_elem_of_In%Hn]%elem_of_cons; lia.
Qed.

End Shaping.

Section DocsWithoutRepo.
Import Docs.
Context (fetch : nat -> string -> HttpOutcome)
        (parseNpmJson : string -> option NpmRegistryData)
        (encodeURIComponent : string -> string).

(** X24. For a package whose repository is not on GitHub, the result
    is made from the registry document alone: the README is the copy
    embedded in that document, shaped as usual, and the changelog, the
    migration guide and the repository address are empty, whatever the
    network would answer to other requests. *)
Theorem fetchLibraryDocs_without_github (pkg : string) (query : option string)
    (opts : Options) (body : string) (npmJson : NpmRegistryData) :
  fetch 0%nat (registryUrl encodeURIComponent pkg) = HttpResponse true (Some body) ->
  body <> EmptyString ->
  parseNpmJson body = Some npmJson ->
  extractGitHubRepo (JS.opt_or_str (repository_url npmJson) "") = None ->
  fetchLibraryDocs fetch parseNpmJson encodeURIComponent pkg query opts
  = inr {| package := pkg;
           version := JS.opt_or_str (dist_tags_latest npmJson) "";
           description := JS.opt_or_str (npm_description npmJson) "";
           repository := EmptyString;
           readme :=
             if enabled (opt_readme opts) then
               let embedded := JS.opt_or_str (npm_readme npmJson) "" in
               if JS.falsy_str embedded then EmptyString else shape embedded query 300
             else EmptyString;
           changelog := EmptyString;
           migrationGuide := EmptyString;
           homepage := JS.opt_or_str (npm_homepage npmJson) "" |}.
Proof.
  intros Hfetch Hbody Hparse Hgh. unfold fetchLibraryDocs.
  rewrite (proj2 (fetchUrl_Some fetch _ _ _) Hfetch).
  destruct body as [|a body]; [done|]. cbn [JS.falsy_str]. rewrite Hparse, Hgh.
  unfold readmeStep. by destruct (enabled (opt_readme opts)).
Qed.

End DocsWithoutRepo.

(** ** Migration engine: the walk and the lines reported *)

Section WalkProps.
Import Migrate.
Local Open Scope nat_scope.
Context (fs : FileSystem).

(** A walked file, as the list of the entry names that lead to it. *)
Lemma walk_names levels dir extensions f :
  f ∈ walk fs levels dir extensions ->
  exists dirs file,
    f = fold_left pathJoin (dirs ++ [file]) dir
    /\ S (length dirs) <= levels
    /\ Forall (fun n => skipped n = false) (dirs ++ [file])
    /\ includesExt extensions (extname file) = true.
Proof.
  revert dir. induction levels as [|levels IH]; intros dir.
  - by intros ?%elem_of_nil.
  - rewrite walk_S. destruct (readdirSync fs dir) as [entries|];
      [|by intros ?%elem_of_nil].
    rewrite list_elem_of_In, in_flat_map.
    intros (entry & _ & Hf%list_elem_of_In). unfold entryFiles in Hf.
    destruct (skipped (name entry)) eqn:Hskip; [by apply elem_of_nil in Hf|].
    destruct (isDirectory entry).
    + apply IH in Hf as (dirs & file & -> & Hlen & Hnames & Hext).
      exists (name entry :: dirs), file. simpl.
      repeat split; [lia| |done]. by constructor.
    + destruct (includesExt extensions (extname (name entry))) eqn:Hext;
        [|by apply elem_of_nil in Hf].
      apply list_elem_of_singleton in Hf as ->.
      exists [], (name entry). simpl. repeat split; [lia| |done].
      by repeat constructor.
Qed.

(** X25. A file found by [walkFiles] lies at most [maxDepth - depth]
    directories below the directory walked; none of the names on the way
    to it, its own included, starts with a dot or is one of the skipped
    directories ([node_modules], [dist], [build], ...), and its extension
    is one of those asked for.  Beyond the depth limit nothing is
    found. *)
Theorem walkFiles_depth_and_names (dir : string) (extensions : list string)
    (maxDepth depth : nat) :
  (forall f, f ∈ walkFiles fs dir extensions maxDepth depth ->
     exists dirs file,
       f = fold_left pathJoin (dirs ++ [file]) dir
       /\ depth + length dirs <= maxDepth
       /\ Forall (fun n => JS.startsWith n "." = false /\ n ∉ SKIP_DIRS) (dirs ++ [file])
       /\ includesExt extensions (extname file) = true)
  /\ (maxDepth < depth -> walkFiles fs dir extensions maxDepth depth = []).
Proof.
  unfold walkFiles. split.
  - intros f (dirs & file & -> & Hlen & Hnames & Hext)%walk_names.
    exists dirs, file. repeat split; [lia| |done].
    eapply Forall_impl; [exact Hnames|]. intros n. unfold skipped.
    intros [? Hn]%orb_false_iff. split; [done|].
    by apply bool_decide_eq_false in Hn.
  - intros Hlt. by replace (S maxDepth - depth) with 0 by lia.
Qed.

Context (projectPath : string) (getFrameworkMajor : string -> string -> option Z).

Lemma lineIssues_elem pat f i rest issue :
  issue ∈ lineIssues projectPath pat f i rest
  <-> exists k l, rest !! k = Some l /\ occursIn (p_regex pat) l = true
                  /\ issue = mkIssue projectPath pat f (i + k).
Proof.
  revert i. induction rest as [|l rest IH]; intros i; cbn [lineIssues].
  - split; [by intros ?%elem_of_nil|]. by intros (k & ? & ? & _).
  - rewrite elem_of_app, IH. split.
    + intros [H|(k & l' & Hk & Hl & ->)].
      * destruct (occursIn (p_regex pat) l) eqn:Hl; [|by apply elem_of_nil in H].
        apply list_elem_of_singleton in H as ->. exists 0, l.
        by rewrite Nat.add_0_r.
      * exists (S k), l'. repeat split; try done. f_equal. lia.
    + intros ([|k] & l' & Hk & Hl & ->); simpl in Hk.
      * left. injection Hk as <-. rewrite Hl, Nat.add_0_r. apply list_elem_of_here.
      * right. exists k, l'. repeat split; try done. f_equal. lia.
Qed.


End WalkProps.

(** ** Migration engine: the rule that applies *)

Section RuleSelection.
Import Migrate.

(** The rules selected for a framework and a major version. *)
Lemma selected_rules (x : string) (major : Z) :
  let rules :=
    List.filter (fun r => String.eqb (JS.toLowerCase (rule_framework r)) x
                          && (fromMajor r =? major)) MIGRATION_RULES in
  rules = []
  \/ exists rule, rules = [rule] /\ rule ∈ MIGRATION_RULES
                  /\ fromMajor rule = major /\ toMajor rule = major + 1
                  /\ (x, major) ∈ [("svelte", 4); ("next", 13); ("next", 14)].
Proof.
  unfold MIGRATION_RULES.
  cbn [List.filter rule_framework fromMajor].
  change (JS.toLowerCase "svelte") with "svelte".
  change (JS.toLowerCase "next") with "next".
  destruct (String.eqb_spec "svelte" x) as [Hs|Hs];
    destruct (String.eqb_spec "next" x) as [Hn|Hn]; try congruence;
    destruct (Z.eqb_spec 4 major) as [H4|H4];
    destruct (Z.eqb_spec 13 major) as [H13|H13]; try lia;
    destruct (Z.eqb_spec 14 major) as [H14|H14]; try lia;
    subst; cbn [andb]; try (by left);
    right; eexists; (split; [reflexivity|]); cbn [fromMajor toMajor];
    (split; [|split; [done|split; [done|]]]);
    apply list_elem_of_In; simpl; tauto.
Qed.

Context (fs : FileSystem) (getFrameworkMajor : string -> string -> option Z).

(** X27. [detectMigration] scans a project only when the rule table has
    a rule for its framework at exactly its current major version:
    Svelte 4, Next 13 or Next 14, the framework name being compared in
    lower case with [sveltekit] read as [svelte] and [next.js] as [next].
    At most one rule is ever selected, its target is the next major
    version, and in every other case the result has no issue, no target
    version and no guide. *)
Theorem migration_rule_selection cursors projectPath projectName framework :
  let r := fst (detectMigration fs getFrameworkMajor cursors
                  projectPath projectName framework) in
  (forall major : Z,
     (length (List.filter
                (fun r => String.eqb (JS.toLowerCase (rule_framework r)) (normalise framework)
                          && (fromMajor r =? major)%Z) MIGRATION_RULES) <= 1)%nat)
  /\ ((exists major,
         getFrameworkMajor projectPath framework = Some major
         /\ (normalise framework, major) ∈ [("svelte", 4); ("next", 13); ("next", 14)]
         /\ currentVersion r = pretty major +:+ ".x"
         /\ latestMajor r = Some (pretty (major + 1) +:+ ".x")
         /\ migrationGuideUrl r <> None)
      \/ (issues r = [] /\ migrationNeeded r = false
          /\ latestMajor r = None /\ migrationGuideUrl r = None)).
Proof.
  intros r. split.
  - intros major.
    destruct (selected_rules (normalise framework) major) as [->|(rule & -> & _)];
      simpl; lia.
  - unfold r, detectMigration.
    destruct (getFrameworkMajor projectPath framework) as [major|]; [|by right].
    destruct (Z.eqb_spec major 0) as [->|Hz]; [by right|].
    destruct (selected_rules (normalise framework) major)
      as [->|(rule & -> & _ & _ & Hto & Hkey)]; [by right|].
    left. exists major.
    destruct (scanPatterns fs projectPath (patterns rule) cursors []) as [found c].
    cbn [fst currentVersion latestMajor migrationGuideUrl]. rewrite Hto.
    by repeat split.
Qed.

End RuleSelection.

(** ** Framework version *)

Section FrameworkProps.
Import Framework.

Lemma lower_ascii_idem (a : ascii) : JS.lower_ascii (JS.lower_ascii a) = JS.lower_ascii a.
Proof. destruct a as [[] [] [] [] [] [] [] []]; by vm_compute. Qed.

Lemma toLowerCase_idem (s : string) : JS.toLowerCase (JS.toLowerCase s) = JS.toLowerCase s.
Proof. induction s as [|a s IH]; [done|]. simpl. by rewrite lower_ascii_idem, IH. Qed.

Context (files : Inventory.Files)
        (parseManifest : string -> option Inventory.PackageJson)
        (parseVersion : string -> option string)
        (parseInt : string -> option Z).

Local Notation "'major'" := (getFrameworkMajor files parseManifest parseVersion parseInt).

Lemma getFrameworkMajor_lower projectPath framework :
  major projectPath (JS.toLowerCase framework) = major projectPath framework.
Proof.
  unfold getFrameworkMajor, packageOf. by rewrite toLowerCase_idem.
Qed.

Context (fs : Migrate.FileSystem).

(** X28. The name of the framework is read without regard to case: a
    scan for [SvelteKit] and one for [sveltekit] find the same version,
    select the same rule and report the same issues. *)
Theorem detectMigration_ignores_case cursors projectPath projectName framework :
  let r := fst (Migrate.detectMigration fs major cursors projectPath projectName framework) in
  let r' := fst (Migrate.detectMigration fs major cursors projectPath projectName
                   (JS.toLowerCase framework)) in
  major projectPath (JS.toLowerCase framework) = major projectPath framework
  /\ Migrate.issues r' = Migrate.issues r
  /\ Migrate.migrationNeeded r' = Migrate.migrationNeeded r
  /\ Migrate.currentVersion r' = Migrate.currentVersion r
  /\ Migrate.latestMajor r' = Migrate.latestMajor r
  /\ Migrate.migrationGuideUrl r' = Migrate.migrationGuideUrl r.
Proof.
  intros r r'. split; [apply getFrameworkMajor_lower|].
  unfold r, r', Migrate.detectMigration, Migrate.normalise.
  rewrite getFrameworkMajor_lower, toLowerCase_idem.
  destruct (major projectPath framework) as [m|]; [|done].
  destruct (m =? 0); [done|].
  destruct (List.filter _ Migrate.MIGRATION_RULES) as [|rule rules]; [done|].
  by destruct (Migrate.scanPatterns fs projectPath (Migrate.patterns rule) cursors []).
Qed.

(** [parseInt] reads a numeral exactly as long as its value is below
    [2^53]. *)
Hypothesis parseInt_decimal :
  forall s, Changelog.numeric_component s = true -> Changelog.decimal s < 2 ^ 53 ->
            parseInt s = Some (Changelog.decimal s).

Lemma digit_not_dot (a : ascii) :
  Changelog.is_digit a = true -> negb (Ascii.eqb a ".") = true.
Proof. destruct a as [[] [] [] [] [] [] [] []]; by vm_compute. Qed.

Lemma all_digits_all (s : string) :
  Changelog.all_digits s = Text.all Changelog.is_digit s.
Proof. induction s as [|a s IH]; [done|]. simpl. by rewrite IH. Qed.

Lemma firstComponent_numeral (d rest : string) :
  Changelog.numeric_component d = true ->
  firstComponent (d +:+ "." +:+ rest) = d.
Proof.
  unfold Changelog.numeric_component. intros [_ Hd]%andb_true_iff.
  rewrite all_digits_all in Hd.
  unfold firstComponent. change ("." +:+ rest) with (String "." rest).
  rewrite split_cons_piece; [done|]. by apply (all_impl _ _ _ digit_not_dot).
Qed.

(** The numeral that starts a version is its first component, be it
    followed by a dot or by nothing at all. *)
Lemma firstComponent_leading (d rest : string) :
  Changelog.numeric_component d = true ->
  rest = EmptyString \/ (exists r, rest = String "." r) ->
  firstComponent (d +:+ rest) = d.
Proof.
  intros Hd [->|[r ->]]; [|by apply firstComponent_numeral].
  rewrite append_nil_r. unfold firstComponent.
  unfold Changelog.numeric_component in Hd. apply andb_true_iff in Hd as [_ Hd].
  rewrite all_digits_all in Hd.
  rewrite split_whole; [done|]. by apply (all_impl _ _ _ digit_not_dot).
Qed.

(** X29. For a framework whose package is declared, with a range that is
    not empty, in a [package.json] that can be read and decoded.  When
    the manifest of the installed package does not exist, the major
    version is the leading numeral of the declared range, whatever range
    operators precede it: [^4.2.0], [~4.2.0] and [>=4] all give 4.  When
    that manifest exists, the major version is the leading numeral of the
    installed version, and there is none ([null]) when the manifest
    cannot be read or decoded: the declared range is not used then.  A
    leading numeral is a run of decimal digits of value below [2^53],
    followed by a dot or by nothing. *)
Theorem getFrameworkMajor_leading_numeral (projectPath framework text : string)
    (pkg : Inventory.PackageJson) (spec : string) :
  let installed :=
    Migrate.join [projectPath; "node_modules"; packageOf framework; "package.json"] in
  Inventory.existsSync files (Migrate.pathJoin projectPath "package.json") = true ->
  Inventory.readFileSync files (Migrate.pathJoin projectPath "package.json") = Some text ->
  parseManifest text = Some pkg ->
  inherited (JS.toLowerCase framework) = false ->
  Obj.get (Inventory.allDeps pkg) (packageOf framework) = Some spec ->
  spec <> EmptyString ->
  (forall operators d rest,
     Inventory.existsSync files installed = false ->
     Text.all Inventory.rangeOperator operators = true ->
     Changelog.numeric_component d = true -> Changelog.decimal d < 2 ^ 53 ->
     rest = EmptyString \/ (exists r, rest = String "." r) ->
     spec = operators +:+ d +:+ rest ->
     major projectPath framework = Some (Changelog.decimal d))
  /\ (forall nmText d rest,
        Inventory.existsSync files installed = true ->
        Inventory.readFileSync files installed = Some nmText ->
        parseVersion nmText = Some (d +:+ rest) ->
        Changelog.numeric_component d = true -> Changelog.decimal d < 2 ^ 53 ->
        rest = EmptyString \/ (exists r, rest = String "." r) ->
        major projectPath framework = Some (Changelog.decimal d))
  /\ (Inventory.existsSync files installed = true ->
      Inventory.readFileSync files installed = None
      \/ (exists nmText, Inventory.readFileSync files installed = Some nmText
                         /\ parseVersion nmText = None) ->
      major projectPath framework = None).
Proof.
  intros installed Hex Hread Hparse Hinh Hspec Hne.
  unfold getFrameworkMajor. rewrite Hex, Hread, Hparse, Hinh, Hspec.
  cbn [negb]. destruct spec as [|c spec']; [done|]. cbn [JS.falsy_str].
  fold installed. split; [|split].
  - intros operators d rest Hnm Hops Hd Hsafe Hrest Heq. rewrite Hnm, Heq.
    assert (Inventory.stripRange (operators +:+ d +:+ rest) = d +:+ rest) as ->.
    { unfold Inventory.stripRange. rewrite span_prefix by done.
      destruct d as [|a d']; [done|]. rewrite append_cons. cbn [Text.span].
      assert (Inventory.rangeOperator a = false) as ->; [|done].
      unfold Changelog.numeric_component in Hd. simpl in Hd.
      apply andb_true_iff in Hd as [Ha _].
      destruct a as [[] [] [] [] [] [] [] []]; by vm_compute in Ha |- *. }
    rewrite firstComponent_leading by done. by apply parseInt_decimal.
  - intros nmText d rest Hnm Hnmread Hver Hd Hsafe Hrest. rewrite Hnm, Hnmread, Hver.
    rewrite firstComponent_leading by done. by apply parseInt_decimal.
  - intros Hnm [Hnone|(nmText & Hnmread & Hver)]; rewrite Hnm.
    + by rewrite Hnone.
    + by rewrite Hnmread, Hver.
Qed.

End FrameworkProps.

(** ** Dashboard server *)

Section DashboardProps.
Import Dashboard.
Context (Cache : Type) (readCache : option Cache).
Local Open Scope nat_scope.

Lemma step_invariant (st : State) (ev : Event) :
  pending st = (if scanning st then 1 else 0) ->
  pending (step Cache readCache st ev) = (if scanning (step Cache readCache st ev) then 1 else 0).
Proof.
  intros Hinv. destruct ev as [req|]; simpl.
  - unfold handleRequest.
    destruct (String.eqb (url req) "/api/status"); [done|].
    destruct (String.eqb (url req) "/api/scan" && String.eqb (method req) "POST"); [|done].
    destruct (scanning st) eqn:Hs; simpl; rewrite ?Hs; [done|]. by rewrite Hinv.
  - destruct (pending st) as [|k] eqn:Hp; [by rewrite Hp|]. simpl.
    destruct (scanning st); lia.
Qed.

Lemma run_invariant (events : list Event) :
  pending (run Cache readCache events)
  = (if scanning (run Cache readCache events) then 1 else 0).
Proof.
  unfold run. induction events as [|ev events IH] using rev_ind; [done|].
  rewrite fold_left_app. simpl. by apply step_invariant.
Qed.

(** X30. However requests and the ends of scans interleave, the
    dashboard runs at most one scan at a time: the [scanning] flag is set
    exactly while one call of the handler waits for the checker, a
    request to start a scan is answered with status 409 and starts
    nothing while the flag is set, and is answered with [started]
    otherwise; the status route reports the flag. *)
Theorem dashboard_single_scan (events : list Event) (req : Request) :
  let st := run Cache readCache events in
  pending st <= 1
  /\ (scanning st = true <-> pending st = 1)
  /\ (url req = "/api/scan" -> method req = "POST" ->
      handleRequest Cache readCache st req
      = if scanning st
        then (st, JsonResponse Cache 409 (Failure Cache "Scan already in progress"))
        else ({| scanning := true; pending := 1 |}, JsonResponse Cache 200 (Started Cache)))
  /\ (url req = "/api/status" ->
      handleRequest Cache readCache st req
      = (st, JsonResponse Cache 200 (Status Cache readCache (scanning st)))).
Proof.
  intros st. pose proof (run_invariant events) as Hinv. fold st in Hinv.
  split; [|split; [|split]].
  - rewrite Hinv. destruct (scanning st); lia.
  - rewrite Hinv. destruct (scanning st); split; done || lia.
  - intros Hurl Hmethod. unfold handleRequest. rewrite Hurl, Hmethod. simpl.
    destruct (scanning st) eqn:Hs; [done|]. by rewrite Hinv.
  - intros Hurl. unfold handleRequest. by rewrite Hurl.
Qed.

End DashboardProps.


(** ** The properties on the concrete inputs *)

(** The checker on two projects: one with a single, major, outdated
    package, one up to date. *)
Lemma C2_health_score_witness :
  exists run,
    Checker.main Demo.projects Demo.getOutdated Demo.isMajorUpdate Demo.now = Some run
    /\ map Checker.score (Checker.written run) = [87; 100]
    /\ (forall e, e ∈ Checker.written run ->
          Checker.score e
          = Checker.clamp 0 100
              (100 - Z.min (3 * Checker.outdatedCount e) 40 - 10 * Checker.majorCount e)).
Proof.
  eexists. split; [reflexivity|]. split; [vm_compute; reflexivity|].
  apply (C2_health_score Demo.projects Demo.getOutdated Demo.isMajorUpdate Demo.now).
  reflexivity.
Defined.

(** The score [0] is present and below [4.0], and it is mapped to
    [Moderate], not to [Low]. *)
Lemma C3_zero_score_is_moderate :
  JS.gt (JS.ofZ 4) (JS.ofZ 0) = true
  /\ Osv.mapSeverity (Some (JS.ofZ 0)) = Osv.Moderate
  /\ Osv.mapSeverity (Some (JS.ofZ 0)) <> Osv.Low.
Proof. repeat split. discriminate. Qed.

(** The scores 7.5, 0.1 and 0. *)
Lemma C3_mapSeverity_thresholds_witness :
  Osv.mapSeverity (Some (JS.Num (15 # 2))) = Osv.High
  /\ Osv.mapSeverity (Some (JS.Num (1 # 10))) = Osv.Low
  /\ Osv.mapSeverity (Some (JS.ofZ 0)) = Osv.Moderate.
Proof.
  split; [|split].
  - apply (C3_mapSeverity_thresholds (JS.Num (15 # 2))); reflexivity.
  - apply (C3_mapSeverity_thresholds (JS.Num (1 # 10))); reflexivity.
  - apply (C3_mapSeverity_thresholds (JS.ofZ 0)); reflexivity.
Defined.

(** Every answer of the demo network has one result per query. *)
Lemma demo_answers_fit (k : nat) :
  (k < Osv.batchCount (length Demo.packages))%nat ->
  (length (Osv.answerOf (Demo.fetch k (Osv.batchOf (Osv.queries Demo.packages "npm") k)))
   <= length (Osv.batchOf (Osv.queries Demo.packages "npm") k))%nat.
Proof.
  change (Osv.batchCount (length Demo.packages)) with 3%nat. intros Hk.
  destruct k as [|[|[|k]]]; [vm_compute; lia..|lia].
Defined.

(** 250 packages, three requests, the second of which times out; the two
    advisories are attributed to the packages at indices 0 and 205. *)
Lemma C1_batches_positional_witness :
  length (Osv.requestsOf Demo.fetch Demo.packages "npm") = 3%nat
  /\ Osv.queryOsv Demo.fetch Demo.packages "npm"
     = flat_map
         (fun k => Osv.positional Demo.packages "npm" k
                     (Osv.answerOf (Demo.fetch k
                        (Osv.batchOf (Osv.queries Demo.packages "npm") k))))
         (seq 0 (Osv.batchCount (length Demo.packages)))
  /\ map Osv.package (Osv.queryOsv Demo.fetch Demo.packages "npm") = ["pkg0"; "pkg205"].
Proof.
  destruct (C1_batches_positional Demo.fetch Demo.packages "npm")
    as (_ & _ & _ & H250 & _ & Hexact).
  split; [apply H250; reflexivity|].
  split; [apply Hexact, demo_answers_fit|].
  vm_compute. reflexivity.
Defined.

(** The same run: the second batch fails, and the advisory that the
    answer to the third batch holds for its sixth query is still reported,
    for the package at index 205. *)
Lemma C8_failed_batch_skipped_witness :
  Osv.failed (Demo.fetch 1 (Osv.batchOf (Osv.queries Demo.packages "npm") 1)) = true
  /\ Osv.mkVulnerability "npm" {| Osv.name := "pkg205"; Osv.version := "1.0.0" |}
       Demo.advisory
     ∈ Osv.queryOsv Demo.fetch Demo.packages "npm".
Proof.
  split; [reflexivity|].
  destruct (C8_failed_batch_skipped Demo.fetch Demo.packages "npm" 1) as (_ & Hothers & _).
  - vm_compute. lia.
  - reflexivity.
  - eapply (Hothers 2%nat _ 5%nat _ [Demo.advisory]).
    + vm_compute. lia.
    + lia.
    + vm_compute. reflexivity.
    + vm_compute. reflexivity.
    + reflexivity.
    + apply list_elem_of_here.
    + vm_compute. reflexivity.
Defined.

(** [toNumberDecimal] reads decimal components exactly. *)
Lemma toNumberDecimal_ok s :
  Changelog.numeric_component s = true ->
  Changelog.decimal s < 2 ^ 53 ->
  Changelog.toNumberDecimal s = JS.ofZ (Changelog.decimal s).
Proof.
  unfold Changelog.numeric_component, Changelog.toNumberDecimal.
  intros [_ ->]%andb_true_iff _. done.
Qed.

(** [toNumberDouble] reads decimal components exactly below [2^53]. *)
Lemma toNumberDouble_ok s :
  Changelog.numeric_component s = true ->
  Changelog.decimal s < 2 ^ 53 ->
  Changelog.toNumberDouble s = JS.ofZ (Changelog.decimal s).
Proof.
  unfold Changelog.numeric_component, Changelog.toNumberDouble, Changelog.roundDouble.
  intros [_ ->]%andb_true_iff H. by rewrite (proj2 (Z.ltb_lt _ _) H).
Qed.

(** The leading components [2^53] and [2^53 + 1] differ, and are the same
    double: the update from one to the other is classified as a patch,
    not as major. *)
Lemma C9_large_components_are_patch :
  Changelog.dotted_numeric "9007199254740992.0.0" = true
  /\ Changelog.dotted_numeric "9007199254740993.0.0" = true
  /\ Changelog.version_lt (Changelog.components "9007199254740992.0.0")
                          (Changelog.components "9007199254740993.0.0")
  /\ Changelog.classify (Changelog.components "9007199254740992.0.0")
                        (Changelog.components "9007199254740993.0.0")
     = Changelog.Major
  /\ Changelog.toNumberDouble "9007199254740993" = JS.ofZ 9007199254740992
  /\ Changelog.getUpdateType Changelog.toNumberDouble
       "9007199254740992.0.0" "9007199254740993.0.0"
     = Changelog.Patch.
Proof.
  split; [reflexivity|]. split; [reflexivity|]. split.
  { exists 0%nat. split; [intros j Hj; lia|]. vm_compute. reflexivity. }
  split; [vm_compute; reflexivity|].
  split; vm_compute; reflexivity.
Qed.

(** From 1.9.3 to 1.10.0, components compared as numbers. *)
Lemma C9_update_type_witness :
  Changelog.getUpdateType Changelog.toNumberDecimal "1.9.3" "1.10.0" = Changelog.Minor.
Proof.
  rewrite (proj1 (C9_update_type Changelog.toNumberDecimal toNumberDecimal_ok)
             "1.9.3" "1.10.0"); [reflexivity..|].
  exists 1%nat. split; [|reflexivity].
  intros [|j] Hj; [reflexivity | lia].
Defined.

(** No line of the long changelog mentions the query. *)
Lemma demo_changelog_no_match :
  Forall (fun l => Docs.lineMatches (Docs.keywordsOf "zzz") l = false)
         (JS.split JS.LF Demo.longChangelog).
Proof. apply (bool_decide_unpack _). by vm_compute. Defined.

(** A changelog of 201 lines and a query that matches none of them: the
    changelog section is cut to 200 lines and the marker, it is not the
    full text. *)
Lemma C4_long_text_is_truncated :
  Forall (fun l => Docs.lineMatches (Docs.keywordsOf "zzz") l = false)
         (JS.split JS.LF Demo.longChangelog)
  /\ exists res,
       Docs.fetchLibraryDocs Demo.net Demo.parseNpmJson Demo.encodeURIComponent
         "widget" (Some "zzz") Demo.allSections = inr res
       /\ Docs.changelog res = Docs.truncateDoc Demo.longChangelog 200
       /\ Docs.changelog res <> Demo.longChangelog.
Proof.
  split; [apply demo_changelog_no_match|].
  eexists. split; [vm_compute; reflexivity|].
  split; [vm_compute; reflexivity|].
  intros H. apply (f_equal String.length) in H. vm_compute in H. discriminate.
Qed.

(** The same text and query, under a limit of 300 and of 200 lines. *)
Lemma C4_no_match_then_truncated_witness :
  Docs.shape Demo.longChangelog (Some "zzz") 300 = Demo.longChangelog
  /\ Docs.shape Demo.longChangelog (Some "zzz") 200
     = Docs.truncateDoc Demo.longChangelog 200.
Proof.
  assert ("zzz" <> EmptyString) as Hq by discriminate.
  split.
  - destruct (C4_no_match_then_truncated Demo.longChangelog "zzz" 300 Hq
                demo_changelog_no_match) as (_ & _ & Hshort & _).
    apply Hshort. vm_compute. lia.
  - destruct (C4_no_match_then_truncated Demo.longChangelog "zzz" 200 Hq
                demo_changelog_no_match) as (_ & Hshape & _).
    exact Hshape.
Defined.



(** The demo file systems list every name once. *)
Lemma demo_fs_wellFormed : Migrate.wellFormed Demo.fs.
Proof.
  intros dir entries. simpl.
  repeat (destruct (String.eqb dir _);
          [intros [= <-]; split;
           [apply (bool_decide_unpack _); by vm_compute | repeat constructor]|]).
  discriminate.
Defined.

Lemma relativeFs_wellFormed : Migrate.wellFormed Demo.relativeFs.
Proof.
  intros dir entries. simpl.
  repeat (destruct (String.eqb dir _);
          [intros [= <-]; split;
           [apply (bool_decide_unpack _); by vm_compute | repeat constructor]|]).
  discriminate.
Defined.



(** With the repository down, every candidate request fails. *)
Lemma netDown_candidatesFail gh paths : Docs.candidatesFail Demo.netDown gh paths.
Proof. intros owner repo n p _ _. reflexivity. Defined.



(** The hidden component contributes nothing to the walk, and the issue
    on [App.svelte] comes from a visible file. *)
Lemma C10_hidden_entries_never_reported_witness :
  Migrate.entryFiles Demo.fs 5 "/p" [".svelte"] (Demo.dirent ".hidden.svelte" false) = []
  /\ exists f,
       Migrate.visible Demo.fs "/p" f
       /\ "App.svelte" = JS.replace f ("/p" +:+ "/") "".
Proof.
  destruct (C10_hidden_entries_never_reported Demo.fs "/p" Demo.getFrameworkMajor ∅
              "p" "SvelteKit") as (_ & Hskip & _ & Hissue).
  split; [apply Hskip; reflexivity|].
  apply (Hissue
           {| Migrate.type := Migrate.Breaking;
              Migrate.pattern := "export\s+let\s+";
              Migrate.file := "App.svelte";
              Migrate.line := 2;
              Migrate.message := "`export let` props are replaced by `$props()` rune";
              Migrate.migration := "Use `let { prop } = $props()` instead" |}).
  vm_compute. apply list_elem_of_here.
Defined.

(** The hidden component and the one under [node_modules] contain
    [export let], and neither is reported. *)
Example hidden_component_not_reported :
  map Migrate.file
    (Migrate.issues
       (fst (Migrate.detectMigration Demo.fs Demo.getFrameworkMajor ∅
               "/p" "p" "SvelteKit")))
  = ["App.svelte"; "src/Button.svelte"].
Proof. vm_compute. reflexivity. Qed.

(** ** The further properties on the concrete inputs *)

(** The entry of the project [app], which has one outdated package, a
    major version behind. *)
Lemma checker_entries_bounded_witness :
  match Checker.main Demo.projects Demo.getOutdated Demo.isMajorUpdate Demo.now with
  | Some {| Checker.written := e :: _ |} =>
      0 <= Checker.majorCount e <= Checker.outdatedCount e
      /\ 0 <= Checker.score e <= 100
      /\ Checker.securityIssues e = 0
  | _ => False
  end.
Proof.
  destruct (Checker.main Demo.projects Demo.getOutdated Demo.isMajorUpdate Demo.now)
    as [[[|e entries] n]|] eqn:E; [vm_compute in E; discriminate| |discriminate].
  apply (checker_entries_bounded Demo.projects Demo.getOutdated Demo.isMajorUpdate
           Demo.now _ E e).
  apply list_elem_of_here.
Defined.

(** The two entries: [app] scores 87 and is an alert, [lib] scores 100
    and is not. *)
Lemma checker_full_score_iff_up_to_date_witness :
  exists run lib,
    Checker.main Demo.projects Demo.getOutdated Demo.isMajorUpdate Demo.now = Some run
    /\ lib ∈ Checker.written run
    /\ Checker.project lib = "lib"
    /\ (Checker.score lib = 100 <-> Checker.outdatedCount lib = 0)
    /\ Checker.alerts run
       = length (filter (fun e => Checker.score e < 100) (Checker.written run)).
Proof.
  eexists. eexists. split; [vm_compute; reflexivity|].
  split; [apply list_elem_of_further, list_elem_of_here|].
  split; [reflexivity|].
  split.
  - apply (checker_full_score_iff_up_to_date Demo.projects Demo.getOutdated
             Demo.isMajorUpdate Demo.now _ ltac:(vm_compute; reflexivity)).
    apply list_elem_of_further, list_elem_of_here.
  - apply (checker_full_score_iff_up_to_date Demo.projects Demo.getOutdated
             Demo.isMajorUpdate Demo.now _ ltac:(vm_compute; reflexivity)).
Defined.

Lemma checker_entries_in_project_order_witness :
  match Checker.main Demo.projects Demo.getOutdated Demo.isMajorUpdate Demo.now with
  | Some run =>
      map Checker.project (Checker.written run)
      = map Checker.info_name
          (filter (fun info => is_Some (Demo.getOutdated (Checker.info_path info) info))
                  Demo.projects)
      /\ (length (Checker.written run) <= length Demo.projects)%nat
  | None => False
  end.
Proof.
  destruct (Checker.main Demo.projects Demo.getOutdated Demo.isMajorUpdate Demo.now)
    as [run|] eqn:E; [|discriminate].
  exact (checker_entries_in_project_order Demo.projects Demo.getOutdated
           Demo.isMajorUpdate Demo.now run E).
Defined.

(** One more outdated package, a major version behind. *)
Lemma healthScore_antitone_witness :
  Checker.healthScore 2 1 <= Checker.healthScore 1 0
  /\ Checker.healthScore 20 0 = Checker.healthScore 14 0
  /\ Checker.healthScore 3 10 = 0.
Proof.
  split; [|split].
  - apply (healthScore_antitone 1 2 0 1); lia.
  - apply (healthScore_antitone 14 20 0 0); lia.
  - apply (healthScore_antitone 3 3 10 10); lia.
Defined.

(** From 4.0.0 "up" to 3.9.0: the leading component went down, the
    second went up, and the update counts as minor. *)
Lemma getUpdateType_leading_components_witness :
  Changelog.getUpdateType Changelog.toNumberDecimal "4.0.0" "3.9.0" = Changelog.Minor
  /\ Changelog.getUpdateType Changelog.toNumberDecimal "4.0.0" "3.9.0" <> Changelog.Major.
Proof.
  destruct (getUpdateType_leading_components Changelog.toNumberDecimal toNumberDecimal_ok
              "4.0.0" "3.9.0" eq_refl eq_refl eq_refl eq_refl) as (Hmajor & Hminor & _).
  split.
  - apply Hminor. vm_compute. split; [discriminate|reflexivity].
  - intros H%Hmajor. vm_compute in H. discriminate.
Defined.

(** The report on the sample project: three of the five packages npm
    lists have an entry. *)
Lemma changelog_entries_are_changed_packages_witness :
  map Report.package
    (Report.entries
       (Report.getProjectChangelog Samples.execSync Samples.parseJson Samples.parseOutdated
          Samples.existsSync Changelog.toNumberDecimal Samples.getReleaseNotes
          "/home/dev/app" "app"))
  ≡ₚ ["lodash"; "left-pad"; "react"].
Proof.
  apply (changelog_entries_are_changed_packages Samples.execSync Samples.parseJson
           Samples.parseOutdated Samples.existsSync Changelog.toNumberDecimal
           Samples.getReleaseNotes "/home/dev/app" "app" Samples.outdatedText
           Samples.outdated); [reflexivity|reflexivity|discriminate|reflexivity].
Defined.

(** The first entry of that report, [left-pad] from 1.0.0 to 2.0.0. *)
Lemma changelog_breaking_iff_major_witness :
  match Report.entries
          (Report.getProjectChangelog Samples.execSync Samples.parseJson
             Samples.parseOutdated Samples.existsSync Changelog.toNumberDecimal
             Samples.getReleaseNotes "/home/dev/app" "app") with
  | e :: _ =>
      Report.updateType e
      = Changelog.getUpdateType Changelog.toNumberDecimal
          (Report.currentVersion e) (Report.latestVersion e)
      /\ (Report.hasBreakingChanges e = true <-> Report.updateType e = Changelog.Major)
      /\ (Report.updateType e <> Changelog.Major -> Report.releaseNotes e = None)
  | [] => False
  end.
Proof.
  destruct (Report.entries _) as [|e entries] eqn:E; [vm_compute in E; discriminate|].
  apply (changelog_breaking_iff_major Samples.execSync Samples.parseJson
           Samples.parseOutdated Samples.existsSync Changelog.toNumberDecimal
           Samples.getReleaseNotes "/home/dev/app" "app").
  rewrite E. apply list_elem_of_here.
Defined.

(** The repository of [left-pad], as npm prints it. *)
Lemma getChangelogUrl_normal_form_witness :
  Report.getChangelogUrl Samples.execSync Samples.parseJson 1 "left-pad"
  = Some "https://github.com/left-pad/left-pad/blob/main/CHANGELOG.md"
  /\ (Samples.parseJson (Text.trim (Samples.repositoryText +:+ JS.nl)) = None ->
      Report.getChangelogUrl Samples.execSync Samples.parseJson 1 "left-pad"
      = Some "https://www.npmjs.com/package/left-pad?activeTab=versions").
Proof.
  destruct (getChangelogUrl_normal_form Samples.execSync Samples.parseJson 1 "left-pad"
              (Samples.repositoryText +:+ JS.nl) eq_refl ltac:(discriminate))
    as [Hform Hfallback].
  split; [|exact Hfallback].
  apply (Hform "https://github.com/left-pad/left-pad"
               [Report.JString "https://github.com/left-pad/left-pad#readme"]).
  right. reflexivity.
Defined.

(** The ranges [^4.2.0] and [>=4.2.0]. *)
Lemma stripRange_operators_witness :
  Inventory.stripRange ("^" +:+ "4.2.0") = Inventory.stripRange "4.2.0"
  /\ Inventory.stripRange (">=" +:+ "4.2.0") = Inventory.stripRange "4.2.0"
  /\ Inventory.stripRange "4.2.0" = "4.2.0".
Proof.
  destruct (stripRange_operators "^" "4.2.0" eq_refl) as (Hcaret & _ & _ & Hplain).
  destruct (stripRange_operators ">=" "4.2.0" eq_refl) as (Hge & _).
  split; [exact Hcaret|]. split; [exact Hge|]. apply Hplain. reflexivity.
Defined.

Lemma pythonPackages_round_trip_witness :
  Inventory.pythonPackages (JS.join JS.nl (map Inventory.requirementLine Samples.requirements))
  = Samples.requirements.
Proof.
  apply pythonPackages_round_trip.
  apply (bool_decide_unpack _). by vm_compute.
Defined.

(** The module [github.com/a/b] is named on three lines, with two
    versions; the first one is kept. *)
Lemma goPackages_first_line_wins_witness :
  NoDup (map Osv.name (Inventory.goPackages Samples.goSum))
  /\ {| Osv.name := "github.com/a/b"; Osv.version := "1.2.3" |}
     ∈ Inventory.goPackages Samples.goSum.
Proof.
  destruct (goPackages_first_line_wins Samples.goSum) as [Hnd Helem].
  split; [exact Hnd|].
  apply Helem. exists 0%nat, "github.com/a/b v1.2.3 h1:abc=", "1.2.3".
  split; [reflexivity|]. split; [reflexivity|]. split; [reflexivity|].
  intros j line' v' Hj. lia.
Defined.

Lemma rustPackages_declared_witness :
  JS.includes Samples.cargoLock (Inventory.packageBlock Samples.serde) = true
  /\ Osv.name Samples.serde <> EmptyString.
Proof.
  destruct (rustPackages_declared Samples.cargoLock Samples.serde) as (H & Hn & _).
  - vm_compute. apply list_elem_of_here.
  - split; [exact H|exact Hn].
Defined.

Lemma rustPackages_round_trip_witness :
  Forall (fun pkg => Inventory.lockable pkg = true) [Samples.serde; Samples.tokio]
  /\ Inventory.rustPackages (Inventory.lockFile [Samples.serde; Samples.tokio])
     = [Samples.serde; Samples.tokio].
Proof.
  assert (Forall (fun pkg => Inventory.lockable pkg = true)
            [Samples.serde; Samples.tokio]) as H
    by (repeat (apply Forall_cons_2; [reflexivity|]); apply Forall_nil_2).
  split; [exact H|exact (rustPackages_round_trip _ H)].
Defined.


(** The first vulnerability of the demo run. *)
Lemma queryOsv_vulnerability_fields_witness :
  match Osv.queryOsv Demo.fetch Demo.packages "npm" with
  | x :: _ =>
      Osv.ecosystem x = "npm" /\ Osv.summary x <> EmptyString /\ Osv.url x <> EmptyString
  | [] => False
  end.
Proof.
  destruct (Osv.queryOsv Demo.fetch Demo.packages "npm") as [|x rest] eqn:E;
    [vm_compute in E; discriminate|].
  destruct (queryOsv_vulnerability_fields Demo.fetch Demo.packages "npm" x)
    as (He & Hs & Hu & _); [rewrite E; apply list_elem_of_here|].
  by repeat split.
Defined.

(** A PHP project: the ecosystem is known, the inventory is empty. *)
Lemma audit_without_inventory_witness :
  Osv.ECOSYSTEM_MAP !! "php" = Some "Packagist"
  /\ Osv.liveAuditProject Demo.fetch Samples.installed Demo.now [] "/home/dev/shop" "shop" "php"
     = ({| Osv.project := "shop"; Osv.vulnerabilities := []; Osv.packagesQueried := 0;
           Osv.source := "osv.dev"; Osv.queriedAt := Demo.now 0 |}, []).
Proof.
  split; [reflexivity|].
  apply (audit_without_inventory Demo.fetch Demo.now Samples.files Samples.parseManifest
           Samples.parseVersion [] "/home/dev/shop" "shop" "php" Samples.installed).
  - apply (bool_decide_unpack _). by vm_compute.
  - intros packages H. unfold Samples.installed. by rewrite H.
Defined.

Lemma extractGitHubRepo_components_witness :
  "sveltejs" <> EmptyString /\ "svelte" <> EmptyString
  /\ Text.all Docs.repoChar "sveltejs" = true /\ Text.all Docs.repoChar "svelte" = true.
Proof.
  apply (extractGitHubRepo_components "git+https://github.com/sveltejs/svelte.git").
  reflexivity.
Defined.

Lemma extractGitHubRepo_forms_witness :
  Docs.extractGitHubRepo ("git+https://github.com/" +:+ "sveltejs" +:+ "/" +:+ "kit" +:+ ".git")
  = Some ("sveltejs", "kit")
  /\ Docs.extractGitHubRepo ("https://github.com/" +:+ "sveltejs" +:+ "/" +:+ "kit")
     = Some ("sveltejs", "kit").
Proof.
  destruct (extractGitHubRepo_forms "sveltejs" "kit") as (Hnpm & _ & _ & Hplain);
    [discriminate|discriminate|reflexivity|reflexivity|].
  split; [exact Hnpm|]. apply Hplain. reflexivity.
Defined.

(** The demo repository has a [CHANGELOG.md] at its root, the first
    candidate. *)
Lemma fetchFirstFound_priority_witness :
  fst (Docs.fetchFirstFound Demo.net 1 "acme" "widget"
         (Docs.getMonorepoPaths "widget" Docs.CHANGELOG_FILES))
  = Demo.longChangelog.
Proof.
  destruct (fetchFirstFound_priority Demo.net 1 "acme" "widget"
              (Docs.getMonorepoPaths "widget" Docs.CHANGELOG_FILES)) as (_ & _ & Hfirst & _).
  apply (Hfirst 0%nat "CHANGELOG.md" Demo.longChangelog).
  - reflexivity.
  - reflexivity.
  - vm_compute. lia.
  - intros j q Hj. lia.
Defined.

(** Three lines cut to two. *)
Lemma truncateDoc_lines_witness :
  JS.split JS.LF (Docs.truncateDoc (JS.join JS.nl ["a"; "b"; "c"]) 2)
  = ["a"; "b"; ""; "... (truncated, 1 more lines)"].
Proof.
  destruct (truncateDoc_lines (JS.join JS.nl ["a"; "b"; "c"]) 2) as [H _].
  - lia.
  - vm_compute. lia.
  - exact H.
Defined.

(** Five lines, a match on the first and on the last, no context: two
    runs, and a marker before each. *)
Lemma filterByQuery_emits_window_witness :
  (exists kept : list nat,
     Docs.filterByQuery
       (JS.join JS.nl ["Breaking: intro"; "setup"; "usage"; "details"; "breaking changes"])
       (Some "breaking") 0
     = JS.join JS.nl
         (Shaping.withGaps
            (JS.split JS.LF
               (JS.join JS.nl
                  ["Breaking: intro"; "setup"; "usage"; "details"; "breaking changes"]))
            kept))
  /\ Docs.filterByQuery
       (JS.join JS.nl ["Breaking: intro"; "setup"; "usage"; "details"; "breaking changes"])
       (Some "breaking") 0
     = JS.join JS.nl
         [Shaping.gapMarker; "Breaking: intro"; Shaping.gapMarker; "breaking changes"].
Proof.
  split; [|vm_compute; reflexivity].
  destruct (filterByQuery_emits_window
              (JS.join JS.nl
                 ["Breaking: intro"; "setup"; "usage"; "details"; "breaking changes"])
              "breaking" 0)
    as (kept & _ & _ & _ & Hout & _).
  - discriminate.
  - discriminate.
  - apply (bool_decide_unpack _). by vm_compute.
  - by exists kept.
Defined.

(** A package whose repository is on GitLab. *)
Lemma fetchLibraryDocs_without_github_witness :
  exists res,
    Docs.fetchLibraryDocs Samples.gadgetNet Samples.parseGadget Demo.encodeURIComponent
      "gadget" None Demo.allSections = inr res
    /\ Docs.readme res = "Gadget" /\ Docs.changelog res = EmptyString
    /\ Docs.repository res = EmptyString.
Proof.
  eexists. split.
  - apply (fetchLibraryDocs_without_github Samples.gadgetNet Samples.parseGadget
             Demo.encodeURIComponent "gadget" None Demo.allSections
             Samples.gadgetBody Samples.gadgetJson);
      [reflexivity|discriminate|reflexivity|reflexivity].
  - split; [reflexivity|]. split; reflexivity.
Defined.

(** The component under [src] of the demo project. *)
Lemma walkFiles_depth_and_names_witness :
  exists dirs file,
    "/p/src/Button.svelte" = fold_left Migrate.pathJoin (dirs ++ [file]) "/p"
    /\ (0 + length dirs <= 5)%nat
    /\ Migrate.includesExt [".svelte"] (Migrate.extname file) = true.
Proof.
  destruct (proj1 (walkFiles_depth_and_names Demo.fs "/p" [".svelte"] 5 0)
              "/p/src/Button.svelte") as (dirs & file & Hf & Hlen & _ & Hext).
  - vm_compute. apply list_elem_of_here.
  - by exists dirs, file.
Defined.


(** [Framework.parseIntDecimal] reads numerals exactly. *)
Lemma parseIntDecimal_ok (s : string) :
  Changelog.numeric_component s = true ->
  Changelog.decimal s < 2 ^ 53 ->
  Framework.parseIntDecimal s = Some (Changelog.decimal s).
Proof.
  unfold Changelog.numeric_component. intros [Hne Hd]%andb_true_iff _.
  rewrite all_digits_all in Hd. unfold Framework.parseIntDecimal.
  destruct s as [|a s]; [done|]. simpl in Hd. apply andb_true_iff in Hd as [Ha Hs].
  assert (Text.trimStart (String a s) = String a s) as ->.
  { simpl. destruct a as [[] [] [] [] [] [] [] []]; by vm_compute in Ha |- *. }
  assert (Ascii.eqb a "-" = false) as ->
    by (destruct a as [[] [] [] [] [] [] [] []]; by vm_compute in Ha |- *).
  assert (Ascii.eqb a "+" = false) as ->
    by (destruct a as [[] [] [] [] [] [] [] []]; by vm_compute in Ha |- *).
  rewrite span_whole by (simpl; by rewrite Ha, Hs). done.
Qed.

(** The sample project declares [svelte] as [^4.2.8] without installing
    it, and has [next] 14.1.0 installed; after the installation that was
    cut short, [svelte] has no version. *)
Lemma getFrameworkMajor_leading_numeral_witness :
  Framework.getFrameworkMajor Samples.files Samples.parseManifest Samples.parseVersion
    Framework.parseIntDecimal "/home/dev/app" "SvelteKit" = Some 4
  /\ Framework.getFrameworkMajor Samples.files Samples.parseManifest Samples.parseVersion
       Framework.parseIntDecimal "/home/dev/app" "Next.js" = Some 14
  /\ Framework.getFrameworkMajor Samples.brokenInstall Samples.parseManifest
       Samples.parseVersion Framework.parseIntDecimal "/home/dev/app" "SvelteKit" = None.
Proof.
  split; [|split].
  - destruct (getFrameworkMajor_leading_numeral Samples.files Samples.parseManifest
                Samples.parseVersion Framework.parseIntDecimal parseIntDecimal_ok
                "/home/dev/app" "SvelteKit" Samples.manifestText Samples.manifest
                "^4.2.8" eq_refl eq_refl eq_refl eq_refl eq_refl
                ltac:(discriminate)) as (Hrange & _ & _).
    apply (Hrange "^" "4" ".2.8"); try reflexivity. right. by exists "2.8".
  - destruct (getFrameworkMajor_leading_numeral Samples.files Samples.parseManifest
                Samples.parseVersion Framework.parseIntDecimal parseIntDecimal_ok
                "/home/dev/app" "Next.js" Samples.manifestText Samples.manifest
                "~13.0.1" eq_refl eq_refl eq_refl eq_refl eq_refl
                ltac:(discriminate)) as (_ & Hinstalled & _).
    apply (Hinstalled Samples.nextText "14" ".1.0"); try reflexivity.
    right. by exists "1.0".
  - destruct (getFrameworkMajor_leading_numeral Samples.brokenInstall Samples.parseManifest
                Samples.parseVersion Framework.parseIntDecimal parseIntDecimal_ok
                "/home/dev/app" "SvelteKit" Samples.manifestText Samples.manifest
                "^4.2.8" eq_refl eq_refl eq_refl eq_refl eq_refl
                ltac:(discriminate)) as (_ & _ & Hbroken).
    apply Hbroken; [reflexivity|]. right. exists "{ ". split; reflexivity.
Defined.

(** After the sample traffic a scan is running: a request to start one is
    refused, and the status route says so. *)
Lemma dashboard_single_scan_witness :
  Dashboard.handleRequest unit None (Dashboard.run unit None Samples.traffic)
    Samples.scanRequest
  = (Dashboard.run unit None Samples.traffic,
     Dashboard.JsonResponse unit 409 (Dashboard.Failure unit "Scan already in progress"))
  /\ Dashboard.handleRequest unit None (Dashboard.run unit None Samples.traffic)
       Samples.statusRequest
     = (Dashboard.run unit None Samples.traffic,
        Dashboard.JsonResponse unit 200 (Dashboard.Status unit None true)).
Proof.
  split.
  - destruct (dashboard_single_scan unit None Samples.traffic Samples.scanRequest)
      as (_ & _ & Hscan & _).
    rewrite Hscan; reflexivity.
  - destruct (dashboard_single_scan unit None Samples.traffic Samples.statusRequest)
      as (_ & _ & _ & Hstatus).
    rewrite Hstatus; reflexivity.
Defined.

(** ** The definitions at work *)

(** A global pattern is stateful: started past the only occurrence, a test
    fails; the reset before each test is what makes a line count. *)
Example test_depends_on_cursor :
  let rx := {| Migrate.source := "on:click"; Migrate.re := Migrate.Lit "on:click" |} in
  Migrate.test rx 0 "<a on:click={f}>" = (true, 11%nat)
  /\ Migrate.test rx 11 "<a on:click={f}>" = (false, 0%nat).
Proof. split; reflexivity. Qed.

Example test_alternation_and_classes :
  let slot := {| Migrate.source := "<slot\s*\/?>|<slot\s+name=";
                 Migrate.re :=
                   Migrate.Alt
                     (Migrate.Seq (Migrate.Lit "<slot")
                        (Migrate.Seq (Migrate.Star Migrate.Space)
                           (Migrate.Seq (Migrate.Opt (Migrate.Lit "/")) (Migrate.Lit ">"))))
                     (Migrate.Seq (Migrate.Lit "<slot")
                        (Migrate.Seq (Migrate.Plus Migrate.Space) (Migrate.Lit "name="))) |} in
  map (Migrate.occursIn slot) ["<slot   />"; "a<slot>"; "<slot name=x>"; "<slot  x>"; "<slots>"]
  = [true; true; true; false; false].
Proof. reflexivity. Qed.

Example extname_cases :
  map Migrate.extname ["a.ts"; ".ts"; "readme"; "a.b.c"; ".."; "a."; ".a.b"]
  = [".ts"; ""; ""; ".c"; ""; "."; ".b"].
Proof. reflexivity. Qed.

Example extractGitHubRepo_cases :
  map Docs.extractGitHubRepo
    [ "git+https://github.com/sveltejs/svelte.git";
      "git+ssh://git@github.com/a-b/c.d.git";
      "git@github.com:foo/bar.git";
      "https://gitlab.com/x/y";
      "https://github.com/x" ]
  = [ Some ("sveltejs", "svelte"); Some ("a-b", "c.d"); Some ("foo", "bar"); None; None ].
Proof. reflexivity. Qed.

Example getMonorepoPaths_kit :
  Docs.getMonorepoPaths "kit" ["CHANGELOG.md"; "HISTORY.md"]
  = ["CHANGELOG.md"; "HISTORY.md"; "packages/kit/CHANGELOG.md"; "packages/kit/HISTORY.md"].
Proof. reflexivity. Qed.

Example filterByQuery_context :
  Docs.filterByQuery
    (JS.join JS.nl ["intro"; "setup"; "Breaking change"; "details"; "outro"])
    (Some "  BREAKING  ") 1
  = JS.join JS.nl [JS.nl +:+ "..." +:+ JS.nl; "setup"; "Breaking change"; "details"].
Proof. vm_compute. reflexivity. Qed.

Example truncateDoc_marker :
  Docs.truncateDoc (JS.join JS.nl ["a"; "b"; "c"]) 2
  = "a" +:+ JS.nl +:+ "b" +:+ JS.nl +:+ JS.nl +:+ "... (truncated, 1 more lines)".
Proof. reflexivity. Qed.

Example getUpdateType_numeric :
  map (fun p => Changelog.getUpdateType Changelog.toNumberDecimal p.1 p.2)
      [ ("3.2.0", "4.0.0"); ("3.2.0", "3.5.0"); ("3.2.0", "3.2.9"); ("1.9", "1.10") ]
  = [ Changelog.Major; Changelog.Minor; Changelog.Patch; Changelog.Minor ].
Proof. reflexivity. Qed.

(** The end-to-end case of the specification: a Svelte 4 project with one
    file that contains [export let foo]. *)
Example svelte_export_let :
  let fs :=
    {| Migrate.readdirSync := fun dir =>
         if String.eqb dir "/app" then Some [ Demo.dirent "Card.svelte" false ] else None;
       Migrate.readFileSync := fun f =>
         if String.eqb f "/app/Card.svelte" then Some "export let foo" else None |} in
  let r := fst (Migrate.detectMigration fs (fun _ _ => Some 4) ∅ "/app" "app" "svelte") in
  Migrate.migrationNeeded r = true
  /\ map (fun i => (Migrate.type i, Migrate.file i, Migrate.line i, Migrate.migration i))
         (Migrate.issues r)
     = [ (Migrate.Breaking, "Card.svelte", 1%nat, "Use `let { prop } = $props()` instead") ].
Proof. vm_compute. split; reflexivity. Qed.

(** Keys that are array indices come first, in numeric order; the others
    keep the order in which they were created. *)
Example entries_order :
  Obj.entries [("b", 1); ("10", 2); ("a", 3); ("2", 4); ("01", 5); ("4294967295", 6)]
  = [("2", 4); ("10", 2); ("b", 1); ("a", 3); ("01", 5); ("4294967295", 6)].
Proof. reflexivity. Qed.

(** A development dependency overrides the range of a dependency of the
    same name and keeps its place. *)
Example allDeps_override :
  Obj.entries
    (Inventory.allDeps
       {| Inventory.dependencies := Some [("a", "^1"); ("b", "~2")];
          Inventory.devDependencies := Some [("c", "3"); ("a", ">=4"); ("7", "x")] |})
  = [("7", "x"); ("a", ">=4"); ("b", "~2"); ("c", "3")].
Proof. reflexivity. Qed.

Example stripRange_cases :
  map Inventory.stripRange ["^~>=1.2"; "1.2"; ">="; "1.^2"] = ["1.2"; "1.2"; ""; "1.^2"].
Proof. reflexivity. Qed.

Example installed_node :
  Samples.installed "/home/dev/app" "node"
  = [ {| Osv.name := "svelte"; Osv.version := "4.2.8" |};
      {| Osv.name := "next"; Osv.version := "14.1.0" |};
      {| Osv.name := "vite"; Osv.version := "5.0.0" |} ]
  /\ Samples.installed "/home/dev/app" "ruby" = [].
Proof. split; reflexivity. Qed.

Example pythonPackages_lines :
  Inventory.pythonPackages
    (JS.join JS.nl ["flask==2.0.1 "; "# pinned"; "  a_b-c==1; x"; "zope.interface==5"; "x>=1"; "y=="])
  = [ {| Osv.name := "flask"; Osv.version := "2.0.1" |};
      {| Osv.name := "a_b-c"; Osv.version := "1; x" |} ].
Proof. reflexivity. Qed.

Example goPackages_sum :
  Inventory.goPackages
    (JS.join JS.nl
       [ "github.com/a/b v1.2.3 h1:abc=";
         "github.com/a/b v1.2.3/go.mod h1:def=";
         "github.com/c/d v0.1.0/go.mod h1:ghi=";
         "github.com/a/b v1.3.0 h1:jkl=" ])
  = [ {| Osv.name := "github.com/a/b"; Osv.version := "1.2.3" |};
      {| Osv.name := "github.com/c/d"; Osv.version := "0.1.0" |} ].
Proof. reflexivity. Qed.

Example rustPackages_lock :
  Inventory.rustPackages Samples.cargoLock = [Samples.serde].
Proof. reflexivity. Qed.

Example getProjectChangelog_sample :
  map (fun e => (Report.package e, Report.updateType e, Report.hasBreakingChanges e,
                 Report.changelogUrl e))
      (Report.entries
         (Report.getProjectChangelog Samples.execSync Samples.parseJson Samples.parseOutdated
            Samples.existsSync Changelog.toNumberDecimal Samples.getReleaseNotes
            "/home/dev/app" "app"))
  = [ ("left-pad", Changelog.Major, true,
       Some "https://github.com/left-pad/left-pad/blob/main/CHANGELOG.md");
      ("react", Changelog.Minor, false, None);
      ("lodash", Changelog.Patch, false, None) ].
Proof. vm_compute. reflexivity. Qed.

(** [Next.js] is read from the installed package, [SvelteKit] from the
    range of the manifest; a name that the table only inherits has no
    version. *)
Example getFrameworkMajor_sample :
  map (Framework.getFrameworkMajor Samples.files Samples.parseManifest Samples.parseVersion
         Framework.parseIntDecimal "/home/dev/app")
      ["SvelteKit"; "Next.js"; "constructor"; "Django"]
  = [Some 4; Some 14; None; None].
Proof. vm_compute. reflexivity. Qed.

(** Two scan requests, the end of the scan, a status request and a third
    scan request: one scan is running at the end. *)
Example dashboard_traffic :
  Dashboard.run unit None Samples.traffic
  = {| Dashboard.scanning := true; Dashboard.pending := 1 |}.
Proof. reflexivity. Qed.
